(** * Folder Manager: the folder operations of [utils/folder_operations.py]

    A shallow embedding of the core operations of the Folder Manager
    (empty-folder classification, pruning, structure scan and replication,
    path validation, flattening) over a model of the file system, and the
    properties of the specification proved about them.

    The file system is a tree of named entries.  Python's [pathlib.Path]
    objects are modelled by [Path]; exceptions by [exn]; code that
    mutates the file system runs in the state-and-exception monad [M].

    Limits of the model of the environment: no symbolic links, every
    directory can be searched, a directory can be unlistable
    ([readable = false]) or immutable ([writable = false]), and the calls
    to [logging] are left out (they change neither the results nor the
    file system).

    A Python string is modelled by its UTF-8 encoding, the bytes that the
    file system sees.  [str.strip] removes the encodings of all the
    characters that [str.isspace] accepts; [str.lower] acts on the ASCII
    letters.

    The calls [exists()] and [is_dir()] are modelled at two levels.
    [validate_path] receives the text that the user typed; its calls go
    through [os_stat], which interprets the components [..], fails on a
    null byte and on names and paths that are too long, and so can raise
    ([Path_exists], [Path_is_dir]).  The operations receive a path; their
    calls are modelled by what the tree holds at the path ([exists_],
    [is_dir], [is_file]), which is the answer of the call whenever the
    call answers and the path has no component [..] (lemmas
    [Path_exists_answer] and [Path_is_dir_answer]).  A call of an
    operation whose guard, outside of its [try], raises for the root is
    not covered by the model of the operation.

    The counting functions of the script [count_files.py] are embedded
    over the same model; its calls to [print] are left out. *)

From Stdlib Require Import List String Ascii Bool Arith Lia.
From Stdlib Require Import Permutation Sorted.
From Stdlib Require Import DecimalString DecimalNat.
Import ListNotations.

Local Open Scope string_scope.
Local Open Scope nat_scope.
Local Open Scope list_scope.

Infix "+++" := String.append (at level 60, right associativity).

(* ================================================================== *)
(** * Exceptions and results *)

Inductive exn : Type :=
| PermissionError (filename : string)
| FileNotFoundError (filename : string)
| FileExistsError (filename : string)
| NotADirectoryError (filename : string)
| IsADirectoryError (filename : string)
| OSError (errno : nat) (strerror filename : string)
| ShutilError (msg : string)
| ValueError (msg : string)
| UnboundLocalError (msg : string).

(** The classes caught by [except (PermissionError, OSError)] and by
    [except (PermissionError, OSError, shutil.Error)]: [shutil.Error] and
    the errno-specific classes all derive from [OSError]. *)
Definition is_OSError (e : exn) : bool :=
  match e with
  | ValueError _ | UnboundLocalError _ => false
  | _ => true
  end.

Definition decimal (n : nat) : string := NilEmpty.string_of_uint (Nat.to_uint n).

Definition str_exn (e : exn) : string :=
  match e with
  | PermissionError f => "[Errno 13] Permission denied: '" +++ f +++ "'"
  | FileNotFoundError f => "[Errno 2] No such file or directory: '" +++ f +++ "'"
  | FileExistsError f => "[Errno 17] File exists: '" +++ f +++ "'"
  | NotADirectoryError f => "[Errno 20] Not a directory: '" +++ f +++ "'"
  | IsADirectoryError f => "[Errno 21] Is a directory: '" +++ f +++ "'"
  | OSError n s f => "[Errno " +++ decimal n +++ "] " +++ s +++ ": '" +++ f +++ "'"
  | ShutilError m => m
  | ValueError m => m
  | UnboundLocalError m => m
  end.

(** Outcome of a computation: a value, a raised exception, or [Diverge]
    when the recursion or loop budget of the model is used up. *)
Inductive result (A : Type) : Type :=
| Ok (a : A)
| Raise (e : exn)
| Diverge.
Arguments Ok {A} a.
Arguments Raise {A} e.
Arguments Diverge {A}.

Definition rbind {A B : Type} (r : result A) (k : A -> result B) : result B :=
  match r with
  | Ok a => k a
  | Raise e => Raise e
  | Diverge => Diverge
  end.

(* ================================================================== *)
(** * Paths ([pathlib.PurePosixPath]) *)

(** The root of a path: none for a relative path, ["/"], or ["//"].
    [pathlib] keeps a root of exactly two slashes apart from ["/"]; the
    file system treats both as its root directory. *)
Inductive root_kind : Type := NoRoot | Slash | TwoSlashes.

Definition root_eqb (a b : root_kind) : bool :=
  match a, b with
  | NoRoot, NoRoot | Slash, Slash | TwoSlashes, TwoSlashes => true
  | _, _ => false
  end.

Record Path : Type := mkRooted { root : root_kind; segs : list string }.

(** [p.is_absolute()] *)
Definition anchored (p : Path) : bool :=
  match root p with NoRoot => false | _ => true end.

(** The path of the given components, relative or with the root ["/"]. *)
Definition mkPath (anchored : bool) (segs : list string) : Path :=
  mkRooted (if anchored then Slash else NoRoot) segs.

Definition Path_eq_dec (p q : Path) : {p = q} + {p <> q}.
Proof.
  decide equality.
  - apply (list_eq_dec string_dec).
  - decide equality.
Defined.

(** [Path()] *)
Definition Path_empty : Path := mkPath false [].

(** [p / name] for one component [name]. *)
Definition child (p : Path) (name : string) : Path :=
  mkRooted (root p) (segs p ++ [name]).

(** [p / q] for a path [q]. *)
Definition join (p q : Path) : Path :=
  if anchored q then q else mkRooted (root p) (segs p ++ segs q).

(** [p.parent] *)
Definition parent (p : Path) : Path := mkRooted (root p) (removelast (segs p)).

(** [p.name] *)
Definition name (p : Path) : string := last (segs p) "".

(** [len(p.parts)]: the root is a part of an absolute path. *)
Definition parts_len (p : Path) : nat :=
  (if anchored p then 1 else 0) + List.length (segs p).

(** [str(p)] *)
Definition str (p : Path) : string :=
  match root p with
  | Slash => "/" +++ String.concat "/" (segs p)
  | TwoSlashes => "//" +++ String.concat "/" (segs p)
  | NoRoot => match segs p with
              | [] => "."
              | _ => String.concat "/" (segs p)
              end
  end.

Fixpoint is_prefix (l1 l2 : list string) : bool :=
  match l1, l2 with
  | [], _ => true
  | a :: l1', b :: l2' => String.eqb a b && is_prefix l1' l2'
  | _ :: _, [] => false
  end.

(** [p.relative_to(other)] *)
Definition relative_to (p other : Path) : result Path :=
  if root_eqb (root p) (root other) && is_prefix (segs other) (segs p)
  then Ok (mkPath false (skipn (List.length (segs other)) (segs p)))
  else Raise (ValueError ("'" +++ str p +++ "' is not in the subpath of '" +++ str other +++ "'")).

(** ** Parsing a string into a path: [Path(s)] *)

Fixpoint split_slash (s : string) : list string :=
  match s with
  | EmptyString => [EmptyString]
  | String c rest =>
      let parts := split_slash rest in
      if Ascii.eqb c "/" then EmptyString :: parts
      else match parts with
           | hd :: tl => String c hd :: tl
           | [] => [String c EmptyString]
           end
  end.

(** The root: a string that starts with exactly two slashes has the
    root ["//"], any other string that starts with a slash the root
    ["/"]. *)
Definition root_of_string (s : string) : root_kind :=
  match s with
  | String c1 r1 =>
      if Ascii.eqb c1 "/" then
        match r1 with
        | String c2 r2 =>
            if Ascii.eqb c2 "/" then
              match r2 with
              | String c3 _ => if Ascii.eqb c3 "/" then Slash else TwoSlashes
              | EmptyString => TwoSlashes
              end
            else Slash
        | EmptyString => Slash
        end
      else NoRoot
  | EmptyString => NoRoot
  end.

(** The components: the pieces between slashes, without the empty ones
    and the ones that are ["."]. *)
Definition Path_of_string (s : string) : Path :=
  mkRooted (root_of_string s)
           (filter (fun seg => negb (String.eqb seg "" || String.eqb seg ".")) (split_slash s)).

(** ** [str.strip()]

    The characters that [str.strip()] removes are those [str.isspace]
    accepts: U+0009 to U+000D, U+001C to U+0020, U+0085, U+00A0, U+1680,
    U+2000 to U+200A, U+2028, U+2029, U+202F, U+205F and U+3000, here in
    their encodings of one, two and three bytes. *)

Definition is_empty_string (s : string) : bool :=
  match s with EmptyString => true | _ => false end.

Definition isspace (c : ascii) : bool :=
  let n := nat_of_ascii c in
  ((9 <=? n) && (n <=? 13)) || ((28 <=? n) && (n <=? 32)).

Definition isspace2 (c1 c2 : ascii) : bool :=
  (nat_of_ascii c1 =? 194)
  && ((nat_of_ascii c2 =? 133) || (nat_of_ascii c2 =? 160)).

Definition isspace3 (c1 c2 c3 : ascii) : bool :=
  let n1 := nat_of_ascii c1 in
  let n2 := nat_of_ascii c2 in
  let n3 := nat_of_ascii c3 in
  ((n1 =? 225) && (n2 =? 154) && (n3 =? 128))
  || ((n1 =? 226) && (n2 =? 128)
      && (((128 <=? n3) && (n3 <=? 138)) || (n3 =? 168) || (n3 =? 169) || (n3 =? 175)))
  || ((n1 =? 226) && (n2 =? 129) && (n3 =? 159))
  || ((n1 =? 227) && (n2 =? 128) && (n3 =? 128)).

(** The number of bytes of the whitespace character at the head of [s];
    0 when [s] does not start with one. *)
Definition space_width (s : string) : nat :=
  match s with
  | String c1 (String c2 (String c3 _)) =>
      if isspace c1 then 1 else if isspace2 c1 c2 then 2
      else if isspace3 c1 c2 c3 then 3 else 0
  | String c1 (String c2 EmptyString) =>
      if isspace c1 then 1 else if isspace2 c1 c2 then 2 else 0
  | String c1 EmptyString => if isspace c1 then 1 else 0
  | EmptyString => 0
  end.

(** [s] without its first [k] bytes. *)
Fixpoint skip (k : nat) (s : string) : string :=
  match k, s with
  | S k', String _ rest => skip k' rest
  | _, _ => s
  end.

Fixpoint lstrip (s : string) : string :=
  match s with
  | EmptyString => EmptyString
  | String c1 r1 =>
      if isspace c1 then lstrip r1
      else
        match r1 with
        | EmptyString => s
        | String c2 r2 =>
            if isspace2 c1 c2 then lstrip r2
            else
              match r2 with
              | EmptyString => s
              | String c3 r3 => if isspace3 c1 c2 c3 then lstrip r3 else s
              end
        end
  end.

(** [s] holds nothing but whitespace characters. *)
Definition all_space (s : string) : bool := is_empty_string (lstrip s).

Fixpoint rstrip (s : string) : string :=
  match s with
  | EmptyString => EmptyString
  | String c rest => if all_space s then EmptyString else String c (rstrip rest)
  end.

Definition strip (s : string) : string := rstrip (lstrip s).

(** ** [Path(name).stem] and [Path(name).suffix] for a file name *)

Fixpoint rfind_dot (s : string) : option nat :=
  match s with
  | EmptyString => None
  | String c rest =>
      match rfind_dot rest with
      | Some i => Some (S i)
      | None => if Ascii.eqb c "." then Some 0 else None
      end
  end.

Definition suffix (nm : string) : string :=
  match rfind_dot nm with
  | Some i => if (0 <? i) && (i <? String.length nm - 1)
              then substring i (String.length nm - i) nm else ""
  | None => ""
  end.

Definition stem (nm : string) : string :=
  match rfind_dot nm with
  | Some i => if (0 <? i) && (i <? String.length nm - 1)
              then substring 0 i nm else nm
  | None => nm
  end.

(* ================================================================== *)
(** * The file system *)

#[warnings="-register-all"]
Inductive node : Type :=
| File (content : string)
| Special
| Dir (readable writable : bool) (entries : list (string * node)).

Fixpoint assoc (a : string) (es : list (string * node)) : option node :=
  match es with
  | [] => None
  | (b, c) :: es' => if String.eqb a b then Some c else assoc a es'
  end.

Fixpoint find_node (n : node) (p : list string) : option node :=
  match p with
  | [] => Some n
  | a :: p' =>
      match n with
      | Dir _ _ es =>
          match assoc a es with
          | Some c => find_node c p'
          | None => None
          end
      | _ => None
      end
  end.

Fixpoint height (n : node) : nat :=
  match n with
  | Dir _ _ es => S (list_max (map (fun e => height (snd e)) es))
  | _ => 0
  end.

(** The tree of the whole file system and the working directory against
    which relative paths are taken. *)
Record filesystem : Type := mkFS { tree : node; cwd : list string }.

Definition abs (fs : filesystem) (p : Path) : list string :=
  if anchored p then segs p else cwd fs ++ segs p.

Definition node_at (fs : filesystem) (p : Path) : option node :=
  find_node (tree fs) (abs fs p).

(** [p.exists()], [p.is_dir()], [p.is_file()] where the file system
    answers the lookup of [p] and [p] has no component [..]: what the tree
    holds at [p].  (The calls with their failures are [Path_exists] and
    [Path_is_dir] below.) *)
Definition exists_ (fs : filesystem) (p : Path) : bool :=
  match node_at fs p with Some _ => true | None => false end.

Definition is_dir (fs : filesystem) (p : Path) : bool :=
  match node_at fs p with Some (Dir _ _ _) => true | _ => false end.

Definition is_file (fs : filesystem) (p : Path) : bool :=
  match node_at fs p with Some (File _) => true | _ => false end.

(** [list(p.iterdir())] *)
Definition iterdir (fs : filesystem) (p : Path) : result (list Path) :=
  match node_at fs p with
  | Some (Dir true _ es) => Ok (map (fun e => child p (fst e)) es)
  | Some (Dir false _ _) => Raise (PermissionError (str p))
  | Some _ => Raise (NotADirectoryError (str p))
  | None => Raise (FileNotFoundError (str p))
  end.

Definition height_at (fs : filesystem) (p : Path) : nat :=
  match node_at fs p with Some n => height n | None => 0 end.

(** ** [os.stat] and the calls of [exists()] and [is_dir()] on a path
    that is not known to exist

    The lookup of the file system itself: it starts at the root or at
    the working directory and walks the components; [..] leads to the
    parent (the root is its own parent), a component met in something that
    is not a directory fails with ENOTDIR, and a component that the
    directory does not hold fails with ENAMETOOLONG when it is longer than
    [NAME_MAX] bytes and with ENOENT otherwise.  A path whose text has
    [PATH_MAX] bytes or more is refused before any lookup, and Python
    refuses a text that holds a null byte with a [ValueError].  [shown] is
    the text of the path in the error. *)

Definition NAME_MAX : nat := 255.
Definition PATH_MAX : nat := 4096.

Fixpoint has_nul (s : string) : bool :=
  match s with
  | EmptyString => false
  | String c rest => (nat_of_ascii c =? 0) || has_nul rest
  end.

Fixpoint lookup (shown : string) (t : node) (here p : list string) : result node :=
  match p with
  | [] =>
      match find_node t here with
      | Some n => Ok n
      | None => Raise (FileNotFoundError shown)
      end
  | a :: p' =>
      match find_node t here with
      | Some (Dir _ _ es) =>
          if String.eqb a ".." then lookup shown t (removelast here) p'
          else
            match assoc a es with
            | Some _ => lookup shown t (here ++ [a]) p'
            | None =>
                if NAME_MAX <? String.length a
                then Raise (OSError 36 "File name too long" shown)
                else Raise (FileNotFoundError shown)
            end
      | Some _ => Raise (NotADirectoryError shown)
      | None => Raise (FileNotFoundError shown)
      end
  end.

(** [os.stat(p)] *)
Definition os_stat (fs : filesystem) (p : Path) : result node :=
  if has_nul (str p) then Raise (ValueError "embedded null byte")
  else if PATH_MAX <=? String.length (str p)
  then Raise (OSError 36 "File name too long" (str p))
  else lookup (str p) (tree fs) (if anchored p then [] else cwd fs) (segs p).

(** The errors of [os.stat] that [exists()] and [is_dir()] answer with
    [False]: ENOENT, ENOTDIR, EBADF and ELOOP, and the [ValueError]; they
    raise every other error again. *)
Definition ignored_error (e : exn) : bool :=
  match e with
  | FileNotFoundError _ | NotADirectoryError _ | ValueError _ => true
  | OSError n _ _ => (n =? 2) || (n =? 20) || (n =? 9) || (n =? 40)
  | _ => false
  end.

(** [p.exists()] *)
Definition Path_exists (fs : filesystem) (p : Path) : result bool :=
  match os_stat fs p with
  | Ok _ => Ok true
  | Raise e => if ignored_error e then Ok false else Raise e
  | Diverge => Diverge
  end.

(** [p.is_dir()] *)
Definition Path_is_dir (fs : filesystem) (p : Path) : result bool :=
  match os_stat fs p with
  | Ok (Dir _ _ _) => Ok true
  | Ok _ => Ok false
  | Raise e => if ignored_error e then Ok false else Raise e
  | Diverge => Diverge
  end.

(* ================================================================== *)
(** * [is_folder_empty] *)

Definition is_nil {A : Type} (l : list A) : bool :=
  match l with [] => true | _ => false end.

(** [iterdir] raises nothing but [OSError]s, which the [except] clause
    turns into [False]. *)
Definition is_folder_empty (fs : filesystem) (folder_path : Path) : bool :=
  match iterdir fs folder_path with
  | Ok items => negb (negb (is_nil items))      (* not any(...) *)
  | Raise _ => false
  | Diverge => false
  end.

(* ================================================================== *)
(** * [scan_empty_folder_structure] *)

(** A [for] loop over paths that updates local state and stops at the
    first exception; the state reached so far is kept, as Python keeps the
    local variables when the [except] clause runs. *)
Fixpoint for_each {S : Type} (body : Path -> S -> result S)
    (items : list Path) (s : S) : S * result unit :=
  match items with
  | [] => (s, Ok tt)
  | x :: rest =>
      match body x s with
      | Ok s' => for_each body rest s'
      | Raise e => (s, Raise e)
      | Diverge => (s, Diverge)
      end
  end.

(** The end of the function after a loop: normal exit, or the handler
    [except (PermissionError, OSError)] followed by [return empty_folders]. *)
Definition finish_scan (empty_folders : list Path) (r : result unit)
    (normal : list Path) : result (list Path) :=
  match r with
  | Ok _ => Ok normal
  | Raise e => if is_OSError e then Ok empty_folders else Raise e
  | Diverge => Diverge
  end.

(** [depth] bounds the recursion depth. *)
Fixpoint scan_rec (depth : nat) (fs : filesystem) (root_path : Path)
    : result (list Path) :=
  match depth with
  | 0 => Diverge
  | S depth' =>
      if negb (exists_ fs root_path) || negb (is_dir fs root_path) then Ok []
      else
        match iterdir fs root_path with
        | Raise e => finish_scan [] (Raise e) []
        | Diverge => Diverge
        | Ok items =>
            if is_nil items then Ok [root_path]
            else if existsb (is_file fs) items then
              let subdirectories := filter (is_dir fs) items in
              let '(empty_folders, r) :=
                for_each
                  (fun subdir empty_folders =>
                     rbind (scan_rec depth' fs subdir)
                       (fun l => Ok (empty_folders ++ l)))
                  subdirectories [] in
              finish_scan empty_folders r empty_folders
            else
              let subdirectories := filter (is_dir fs) items in
              let '(st, r) :=
                for_each
                  (fun subdir (st : list Path * bool) =>
                     rbind (scan_rec depth' fs subdir)
                       (fun subdir_empty_folders =>
                          Ok (fst st ++ subdir_empty_folders,
                              if in_dec Path_eq_dec subdir subdir_empty_folders
                              then snd st else false)))
                  subdirectories ([], true) in
              finish_scan (fst st) r
                (if snd st then fst st ++ [root_path] else fst st)
        end
  end.

(** The recursion depth a call needs is bounded by the height of the
    tree below [root_path]. *)
Definition scan_empty_folder_structure (fs : filesystem) (root_path : Path)
    : result (list Path) :=
  scan_rec (S (height_at fs root_path)) fs root_path.

(* ================================================================== *)
(** * Changing the tree *)

(** Replace ([Some]), add at the end, or delete ([None]) the entry [a]. *)
Fixpoint set_entry (a : string) (new : option node) (es : list (string * node))
    : list (string * node) :=
  match es with
  | [] => match new with Some x => [(a, x)] | None => [] end
  | (b, c) :: es' =>
      if String.eqb a b then
        match new with
        | Some x => (b, x) :: es'
        | None => set_entry a None es'
        end
      else (b, c) :: set_entry a new es'
  end.

(** Set or delete the node at the absolute path [p]; nothing changes
    when the parent of [p] is not a directory of the tree. *)
Fixpoint set_at (p : list string) (new : option node) (n : node) : node :=
  match p with
  | [] => n
  | a :: p' =>
      match n with
      | Dir r w es =>
          match p' with
          | [] => Dir r w (set_entry a new es)
          | _ :: _ =>
              match assoc a es with
              | Some c => Dir r w (set_entry a (Some (set_at p' new c)) es)
              | None => n
              end
          end
      | _ => n
      end
  end.

Definition set_tree (fs : filesystem) (t : node) : filesystem :=
  mkFS t (cwd fs).

Definition update (fs : filesystem) (p : Path) (new : option node) : filesystem :=
  set_tree fs (set_at (abs fs p) new (tree fs)).

(** Can entries be added to or removed from the directory holding [p]? *)
Definition parent_writable (fs : filesystem) (p : Path) : bool :=
  match find_node (tree fs) (removelast (abs fs p)) with
  | Some (Dir _ w _) => w
  | _ => false
  end.

(** ** System calls *)

Definition syscall_result (A : Type) : Type := result A * filesystem.

(** [os.rmdir(p)].  The path ["."] is refused by its text (EINVAL),
    whatever the working directory is. *)
Definition os_rmdir (p : Path) (fs : filesystem) : syscall_result unit :=
  if negb (anchored p) && is_nil (segs p)
  then (Raise (OSError 22 "Invalid argument" (str p)), fs)
  else
    match node_at fs p with
    | None => (Raise (FileNotFoundError (str p)), fs)
    | Some (Dir _ _ es) =>
        if is_nil (abs fs p) then (Raise (OSError 16 "Device or resource busy" (str p)), fs)
        else if negb (parent_writable fs p) then (Raise (PermissionError (str p)), fs)
        else if negb (is_nil es) then (Raise (OSError 39 "Directory not empty" (str p)), fs)
        else (Ok tt, update fs p None)
    | Some _ => (Raise (NotADirectoryError (str p)), fs)
    end.

(** [os.unlink(p)] *)
Definition os_unlink (p : Path) (fs : filesystem) : syscall_result unit :=
  match node_at fs p with
  | None => (Raise (FileNotFoundError (str p)), fs)
  | Some (Dir _ _ _) => (Raise (IsADirectoryError (str p)), fs)
  | Some _ =>
      if negb (parent_writable fs p) then (Raise (PermissionError (str p)), fs)
      else (Ok tt, update fs p None)
  end.

(** ** [Path.mkdir(parents=True, exist_ok=True)] *)

Fixpoint fresh_dirs (p : list string) : node :=
  match p with
  | [] => Dir true true []
  | a :: p' => Dir true true [(a, fresh_dirs p')]
  end.

(** [shown k] is the text of the first [k] components of the path that is
    being created; [k] counts the components already walked. *)
Fixpoint mkdir_node (shown : nat -> string) (k : nat) (p : list string) (n : node)
    : result node :=
  match p with
  | [] =>
      match n with
      | Dir _ _ _ => Ok n
      | _ => Raise (FileExistsError (shown k))
      end
  | a :: p' =>
      match n with
      | Dir r w es =>
          match assoc a es with
          | Some c =>
              rbind (mkdir_node shown (S k) p' c)
                (fun c' => Ok (Dir r w (set_entry a (Some c') es)))
          | None =>
              if w then Ok (Dir r w (set_entry a (Some (fresh_dirs p')) es))
              else Raise (PermissionError (shown (S k)))
          end
      | _ => Raise (NotADirectoryError (shown (k + List.length p)))
      end
  end.

Definition shown_prefix (fs : filesystem) (p : Path) (k : nat) : string :=
  if anchored p then str (mkRooted (root p) (firstn k (segs p)))
  else str (mkPath false (firstn (k - List.length (cwd fs)) (segs p))).

Definition mkdir_parents (p : Path) (fs : filesystem) : syscall_result unit :=
  match mkdir_node (shown_prefix fs p) 0 (abs fs p) (tree fs) with
  | Ok t => (Ok tt, set_tree fs t)
  | Raise e => (Raise e, fs)
  | Diverge => (Diverge, fs)
  end.

(** ** [shutil.move] *)

Definition is_dir_node (n : node) : bool :=
  match n with Dir _ _ _ => true | _ => false end.

(** [os.rename(src, dst)] *)
Definition os_rename (src dst : Path) (fs : filesystem) : syscall_result unit :=
  match node_at fs src with
  | None => (Raise (FileNotFoundError (str src)), fs)
  | Some n =>
      if is_nil (abs fs src) || is_nil (abs fs dst)
      then (Raise (OSError 16 "Device or resource busy" (str src)), fs)
      else
        match find_node (tree fs) (removelast (abs fs dst)) with
        | None => (Raise (FileNotFoundError (str src)), fs)
        | Some (Dir _ wd _) =>
            if negb (parent_writable fs src) || negb wd
            then (Raise (PermissionError (str src)), fs)
            else if is_dir_node n && is_prefix (abs fs src) (abs fs dst)
            then (if list_eq_dec string_dec (abs fs src) (abs fs dst) then (Ok tt, fs)
                  else (Raise (OSError 22 "Invalid argument" (str src)), fs))
            else
              let moved_fs := update (update fs src None) dst (Some n) in
              match node_at fs dst with
              | None => (Ok tt, moved_fs)
              | Some (Dir _ _ es) =>
                  if negb (is_dir_node n) then (Raise (IsADirectoryError (str src)), fs)
                  else if is_nil es then (Ok tt, moved_fs)
                  else (Raise (OSError 39 "Directory not empty" (str src)), fs)
              | Some _ =>
                  if is_dir_node n then (Raise (NotADirectoryError (str src)), fs)
                  else if list_eq_dec string_dec (abs fs src) (abs fs dst) then (Ok tt, fs)
                  else (Ok tt, moved_fs)
              end
        | Some _ => (Raise (NotADirectoryError (str src)), fs)
        end
  end.

(** Copy of a regular file onto the path [dst] ([shutil.copy2] for a
    destination that is not a directory). *)
Definition copy_file (src dst : Path) (fs : filesystem) : syscall_result unit :=
  match node_at fs src with
  | None => (Raise (FileNotFoundError (str src)), fs)
  | Some (Dir _ _ _) => (Raise (IsADirectoryError (str src)), fs)
  | Some Special => (Raise (ShutilError ("`" +++ str src +++ "` is a named pipe")), fs)
  | Some (File c) =>
      match node_at fs dst with
      | Some (File _) =>
          if list_eq_dec string_dec (abs fs src) (abs fs dst)
          then (Raise (ShutilError ("'" +++ str src +++ "' and '" +++ str dst +++ "' are the same file")), fs)
          else (Ok tt, update fs dst (Some (File c)))
      | Some (Dir _ _ _) => (Raise (IsADirectoryError (str dst)), fs)
      | Some Special => (Raise (ShutilError ("`" +++ str dst +++ "` is a named pipe")), fs)
      | None =>
          match find_node (tree fs) (removelast (abs fs dst)) with
          | None => (Raise (FileNotFoundError (str dst)), fs)
          | Some (Dir _ true _) =>
              if is_nil (abs fs dst) then (Raise (FileNotFoundError (str dst)), fs)
              else (Ok tt, update fs dst (Some (File c)))
          | Some (Dir _ false _) => (Raise (PermissionError (str dst)), fs)
          | Some _ => (Raise (NotADirectoryError (str dst)), fs)
          end
      end
  end.

(** [shutil.move(str(src), str(dst))].  The rename is tried first; when it
    fails with an [OSError] and the source is not a directory the file is
    copied and the source unlinked.  For a directory source the fallback
    (copytree, rmtree) is not modelled and the error of the rename is
    raised again; [flatten_to_root] moves regular files only. *)
Definition shutil_move (src dst : Path) (fs : filesystem) : syscall_result unit :=
  let real_dst := if is_dir fs dst then child dst (name src) else dst in
  if is_dir fs dst && (if list_eq_dec string_dec (abs fs src) (abs fs dst) then true else false)
  then os_rename src dst fs
  else if is_dir fs dst && exists_ fs real_dst
  then (Raise (ShutilError ("Destination path '" +++ str real_dst +++ "' already exists")), fs)
  else
    match os_rename src real_dst fs with
    | (Raise e, fs') =>
        if is_OSError e then
          if is_dir fs' src then (Raise e, fs')
          else
            match copy_file src real_dst fs' with
            | (Ok _, fs'') => os_unlink src fs''
            | failed => failed
            end
        else (Raise e, fs')
    | done => done
    end.

(** [root.rglob('*')]: the entries of [root], then for each subdirectory
    in turn everything below it.  A directory that cannot be listed
    contributes nothing; the walk itself never raises. *)
Fixpoint rglob_node (p : Path) (n : node) : list Path :=
  match n with
  | Dir true _ es =>
      map (fun e => child p (fst e)) es
      ++ flat_map (fun e => rglob_node (child p (fst e)) (snd e)) es
  | _ => []
  end.

Definition rglob (fs : filesystem) (p : Path) : list Path :=
  match node_at fs p with
  | Some n => rglob_node p n
  | None => []
  end.

(* ================================================================== *)
(** * The monad of the mutating operations

    State: the file system and the local variables [L] of the running
    function, which keep their value when an exception is handled. *)

Definition M (L A : Type) : Type := filesystem * L -> result A * (filesystem * L).

Definition ret {L A : Type} (a : A) : M L A := fun s => (Ok a, s).

Definition bind {L A B : Type} (m : M L A) (k : A -> M L B) : M L B :=
  fun s =>
    match m s with
    | (Ok a, s') => k a s'
    | (Raise e, s') => (Raise e, s')
    | (Diverge, s') => (Diverge, s')
    end.

Notation "x <- m ;; k" := (bind m (fun x => k))
  (at level 61, m at next level, right associativity).
Notation "m ;;; k" := (bind m (fun _ => k))
  (at level 61, right associativity).

(** Read the file system. *)
Definition query {L A : Type} (f : filesystem -> A) : M L A :=
  fun s => (Ok (f (fst s)), s).

(** Run a system call. *)
Definition syscall {L A : Type} (op : filesystem -> syscall_result A) : M L A :=
  fun s => let '(r, fs') := op (fst s) in (r, (fs', snd s)).

(** A computation without effect that may raise. *)
Definition lift {L A : Type} (r : result A) : M L A := fun s => (r, s).

(** Update the local variables. *)
Definition assign {L : Type} (f : L -> L) : M L unit :=
  fun s => (Ok tt, (fst s, f (snd s))).

Definition locals {L : Type} : M L L := fun s => (Ok (snd s), s).

(** [try: body  except (PermissionError, OSError) as e: handler e] *)
Definition try_except {L A : Type} (body : M L A) (handler : exn -> M L A) : M L A :=
  fun s =>
    match body s with
    | (Raise e, s') => if is_OSError e then handler e s' else (Raise e, s')
    | r => r
    end.

(** [for x in items: body x] *)
Fixpoint for_ {L : Type} (items : list Path) (body : Path -> M L unit) : M L unit :=
  match items with
  | [] => ret tt
  | x :: rest => body x ;;; for_ rest body
  end.

(** ** [sorted(l, key=..., reverse=...)]: a stable sort *)

Section Sorted.
Context {A : Type} (key : A -> nat) (reverse : bool).

(** Does [x], met before [y] in the input, stay before [y]? *)
Definition stays_before (x y : A) : bool :=
  if reverse then key y <=? key x else key x <=? key y.

Fixpoint insert_sorted (x : A) (l : list A) : list A :=
  match l with
  | [] => [x]
  | y :: l' => if stays_before x y then x :: y :: l' else y :: insert_sorted x l'
  end.

Fixpoint sorted (l : list A) : list A :=
  match l with
  | [] => []
  | x :: l' => insert_sorted x (sorted l')
  end.
End Sorted.

(* ================================================================== *)
(** * [delete_empty_folders] *)

(** Local variables [(success_count, errors)]. *)
Definition counters : Type := nat * list string.

Definition count_success : counters -> counters :=
  fun '(success_count, errors) => (success_count + 1, errors).

Definition append_error (error_msg : string) : counters -> counters :=
  fun '(success_count, errors) => (success_count, errors ++ [error_msg]).

(** The body of the loop, for one [folder_path]. *)
Definition delete_one (folder_path : Path) : M counters unit :=
  try_except
    (e <- query (fun fs => exists_ fs folder_path && is_dir fs folder_path) ;;
     if e then
       empty <- query (fun fs => is_folder_empty fs folder_path) ;;
       if empty then
         syscall (os_rmdir folder_path) ;;;
         assign count_success
       else
         assign (append_error ("Folder not empty, skipping: " +++ str folder_path))
     else
       assign (append_error
                 ("Path does not exist or is not a directory: " +++ str folder_path)))
    (fun e =>
       assign (append_error ("Error deleting " +++ str folder_path +++ ": " +++ str_exn e))).

Definition delete_empty_folders (folder_paths : list Path) (fs : filesystem)
    : syscall_result (nat * list string) :=
  let sorted_paths := sorted parts_len true folder_paths in
  match for_ sorted_paths delete_one (fs, (0, [])) with
  | (Ok _, (fs', (success_count, errors))) => (Ok (success_count, errors), fs')
  | (Raise e, (fs', _)) => (Raise e, fs')
  | (Diverge, (fs', _)) => (Diverge, fs')
  end.

(* ================================================================== *)
(** * [scan_folder_structure] *)

(** The [try] around the walk has nothing to catch: [rglob] and [is_dir]
    do not raise. *)
Definition scan_folder_structure (fs : filesystem) (source_path : Path) : list Path :=
  if negb (exists_ fs source_path) || negb (is_dir fs source_path) then []
  else
    let directories := filter (is_dir fs) (rglob fs source_path) in
    if in_dec Path_eq_dec source_path directories then directories
    else source_path :: directories.

(* ================================================================== *)
(** * [create_folder_structure] *)

(** Local variables of the function. [destination_path] is unbound until
    the first assignment. *)
Record create_locals : Type := mkCreateLocals {
  success_count : nat;
  error_messages : list string;
  destination_path : option Path
}.

Definition bind_destination_path (d : Path) (l : create_locals) : create_locals :=
  mkCreateLocals (success_count l) (error_messages l) (Some d).

Definition count_created (l : create_locals) : create_locals :=
  mkCreateLocals (success_count l + 1) (error_messages l) (destination_path l).

Definition append_create_error (error_msg : string) (l : create_locals) : create_locals :=
  mkCreateLocals (success_count l) (error_messages l ++ [error_msg]) (destination_path l).

(** The body of the loop, for one [source_path]. *)
Definition create_one (source_paths : list Path) (destination_root : Path)
    (source_path : Path) : M create_locals unit :=
  try_except
    (d <- match source_paths with
          | first :: _ =>
              relative_path <- lift (relative_to source_path (parent first)) ;;
              ret (join destination_root relative_path)
          | [] => ret (child destination_root (name source_path))
          end ;;
     assign (bind_destination_path d) ;;;
     syscall (mkdir_parents d) ;;;
     assign count_created)
    (fun e =>
       l <- locals ;;
       match destination_path l with
       | Some d =>
           assign (append_create_error
                     ("Error creating " +++ str d +++ ": " +++ str_exn e))
       | None =>
           lift (Raise (UnboundLocalError
                          "cannot access local variable 'destination_path'"))
       end).

Definition create_folder_structure (source_paths : list Path)
    (destination_root : Path) (fs : filesystem)
    : syscall_result (nat * list string) :=
  match mkdir_parents destination_root fs with
  | (Raise e, fs') =>
      if is_OSError e
      then (Ok (0, ["Cannot create destination root " +++ str destination_root
                      +++ ": " +++ str_exn e]), fs')
      else (Raise e, fs')
  | (Diverge, fs') => (Diverge, fs')
  | (Ok _, fs') =>
      let sorted_paths := sorted parts_len false source_paths in
      match for_ sorted_paths (create_one source_paths destination_root)
                 (fs', mkCreateLocals 0 [] None) with
      | (Ok _, (fs'', l)) => (Ok (success_count l, error_messages l), fs'')
      | (Raise e, (fs'', _)) => (Raise e, fs'')
      | (Diverge, (fs'', _)) => (Diverge, fs'')
      end
  end.

(* ================================================================== *)
(** * [validate_path] *)

(** Returns [(is_valid, error_message, path_object)].  It only reads the
    file system.  The string comes from the user, so the lookup of the
    path can fail ([Path_exists], [Path_is_dir]); whatever is raised inside
    the [try] is caught by [except Exception]. *)
Definition validate_path (fs : filesystem) (path_str : string)
    : result (bool * string * Path) :=
  if is_empty_string path_str || is_empty_string (strip path_str)
  then Ok (false, "Path cannot be empty", Path_empty)
  else
    let path := Path_of_string (strip path_str) in
    match
      rbind (Path_exists fs path) (fun found =>
        if negb found then Ok (false, "Path does not exist", path)
        else
          rbind (Path_is_dir fs path) (fun directory =>
            if negb directory then Ok (false, "Path is not a directory", path)
            else Ok (true, "", path)))
    with
    | Ok answer => Ok answer
    | Raise e => Ok (false, "Invalid path: " +++ str_exn e, Path_empty)
    | Diverge => Diverge
    end.

(* ================================================================== *)
(** * [_unique_destination] *)

(** f"{stem} ({counter}){suffix}" *)
Definition numbered (stem_ : string) (counter : nat) (suffix_ : string) : string :=
  stem_ +++ " (" +++ decimal counter +++ ")" +++ suffix_.

(** The [while candidate.exists()] loop, run for at most [fuel] tests. *)
Fixpoint unique_loop (fuel : nat) (fs : filesystem) (root : Path)
    (stem_ suffix_ : string) (candidate : Path) (counter : nat) : result Path :=
  match fuel with
  | 0 => Diverge
  | S fuel' =>
      if exists_ fs candidate
      then unique_loop fuel' fs root stem_ suffix_
             (child root (numbered stem_ counter suffix_)) (counter + 1)
      else Ok candidate
  end.

Definition entry_count (fs : filesystem) (p : Path) : nat :=
  match node_at fs p with
  | Some (Dir _ _ es) => List.length es
  | _ => 0
  end.

(** A directory of [n] entries cannot hold the [n + 1] candidates
    [(1)] ... [(n + 1)], so [n + 2] tests are enough. *)
Definition _unique_destination (fs : filesystem) (root : Path) (name_ : string)
    : result Path :=
  let base := name_ in
  let stem_ := stem name_ in
  let suffix_ := suffix name_ in
  unique_loop (S (S (entry_count fs root))) fs root stem_ suffix_ (child root base) 1.

(* ================================================================== *)
(** * [flatten_to_root] *)

(** The dictionary [result]. *)
Record FlattenResult : Type := mkFlattenResult {
  moved : nat;
  skipped_conflicts : nat;
  removed_folders : nat;
  errors : list string;
  moves : list (string * string)
}.

Definition count_skipped (r : FlattenResult) : FlattenResult :=
  mkFlattenResult (moved r) (skipped_conflicts r + 1) (removed_folders r) (errors r) (moves r).

Definition record_move (src dest : Path) (r : FlattenResult) : FlattenResult :=
  mkFlattenResult (moved r + 1) (skipped_conflicts r) (removed_folders r) (errors r)
    (moves r ++ [(str src, str dest)]).

Definition count_removed (r : FlattenResult) : FlattenResult :=
  mkFlattenResult (moved r) (skipped_conflicts r) (removed_folders r + 1) (errors r) (moves r).

Definition append_flatten_error (msg : string) (r : FlattenResult) : FlattenResult :=
  mkFlattenResult (moved r) (skipped_conflicts r) (removed_folders r) (errors r ++ [msg]) (moves r).

(** The body of the first loop, for one file [src]. *)
Definition move_one (root_path : Path) (conflict_mode : string) (src : Path)
    : M FlattenResult unit :=
  try_except
    (let dest := child root_path (name src) in
     conflict <- query (fun fs => exists_ fs dest) ;;
     if conflict && String.eqb conflict_mode "skip" then
       assign count_skipped
     else
       dest <- (if conflict
                then fun s => (_unique_destination (fst s) root_path (name src), s)
                else ret dest) ;;
       syscall (mkdir_parents (parent dest)) ;;;
       syscall (shutil_move src dest) ;;;
       assign (record_move src dest))
    (fun e =>
       assign (append_flatten_error ("Error moving " +++ str src +++ ": " +++ str_exn e))).

(** The body of the second loop, for one directory [d]. *)
Definition prune_one (d : Path) : M FlattenResult unit :=
  try_except
    (empty <- query (fun fs => is_folder_empty fs d) ;;
     if empty then
       syscall (os_rmdir d) ;;;
       assign count_removed
     else ret tt)
    (fun e =>
       assign (append_flatten_error ("Error removing " +++ str d +++ ": " +++ str_exn e))).

Definition nested_file (fs : filesystem) (root_path p : Path) : bool :=
  is_file fs p && (if Path_eq_dec (parent p) root_path then false else true).

Definition move_phase (root_path : Path) (conflict_mode : string) : M FlattenResult unit :=
  try_except
    (all_files <- query (fun fs => filter (nested_file fs root_path) (rglob fs root_path)) ;;
     for_ all_files (move_one root_path conflict_mode))
    (fun e =>
       assign (append_flatten_error ("Error scanning " +++ str root_path +++ ": " +++ str_exn e))).

Definition prune_phase (root_path : Path) : M FlattenResult unit :=
  try_except
    (dirs <- query (fun fs => filter (is_dir fs) (rglob fs root_path)) ;;
     for_ (sorted parts_len true dirs) prune_one)
    (fun e =>
       assign (append_flatten_error
                 ("Error enumerating directories in " +++ str root_path +++ ": " +++ str_exn e))).

Definition flatten_to_root (root_path : Path) (conflict_mode : string) (fs : filesystem)
    : syscall_result FlattenResult :=
  let result0 := mkFlattenResult 0 0 0 [] [] in
  if negb (exists_ fs root_path) || negb (is_dir fs root_path)
  then (Ok (append_flatten_error ("Invalid root folder: " +++ str root_path) result0), fs)
  else
    match (move_phase root_path conflict_mode ;;; prune_phase root_path) (fs, result0) with
    | (Ok _, (fs', r)) => (Ok r, fs')
    | (Raise e, (fs', _)) => (Raise e, fs')
    | (Diverge, (fs', _)) => (Diverge, fs')
    end.

(* ================================================================== *)
(** * [count_files_recursive] and [count_files_root_only] *)

(** Returns [(count, list_of_files)].  The [try] around the walk has
    nothing to catch: [rglob] and [is_file] do not raise. *)
Definition count_files_recursive (fs : filesystem) (root_path : Path)
    : nat * list Path :=
  if negb (exists_ fs root_path) || negb (is_dir fs root_path) then (0, [])
  else
    let files := filter (is_file fs) (rglob fs root_path) in
    (List.length files, files).

(** [sum(1 for p in root_path.iterdir() if p.is_file())]; [iterdir]
    raises nothing but [OSError]s, for which the function returns 0. *)
Definition count_files_root_only (fs : filesystem) (root_path : Path) : nat :=
  if negb (exists_ fs root_path) || negb (is_dir fs root_path) then 0
  else
    match iterdir fs root_path with
    | Ok items => List.length (filter (is_file fs) items)
    | Raise _ => 0
    | Diverge => 0
    end.

(* ================================================================== *)
(** * [count_files_in_folder] of [count_files.py] *)

(** One round of the loop over [items], on the local variables
    [(file_count, all_files)]; [recurse] is the recursive call. *)
Definition count_item (fs : filesystem)
    (recurse : Path -> result (nat * list Path))
    (item : Path) (st : nat * list Path) : result (nat * list Path) :=
  if is_file fs item then Ok (fst st + 1, snd st ++ [item])
  else if is_dir fs item then
    rbind (recurse item)
      (fun sub => Ok (fst st + fst sub, snd st ++ snd sub))
  else Ok st.

(** [depth] bounds the recursion depth; the calls to [print] are left
    out. *)
Fixpoint count_rec (depth : nat) (fs : filesystem) (root_path : Path)
    : result (nat * list Path) :=
  match depth with
  | 0 => Diverge
  | S depth' =>
      if negb (exists_ fs root_path) || negb (is_dir fs root_path) then Ok (0, [])
      else
        match iterdir fs root_path with
        | Raise e => if is_OSError e then Ok (0, []) else Raise e
        | Diverge => Diverge
        | Ok items =>
            let '(st, r) :=
              for_each (count_item fs (count_rec depth' fs)) items (0, []) in
            match r with
            | Ok _ => Ok st
            | Raise e => if is_OSError e then Ok st else Raise e
            | Diverge => Diverge
            end
        end
  end.

Definition count_files_in_folder (fs : filesystem) (root_path : Path)
    : result (nat * list Path) :=
  count_rec (S (height_at fs root_path)) fs root_path.

(* ================================================================== *)
(** * [count_files_with_details] of [count_files.py] *)












(* ================================================================== *)
(** * Notions used to state the properties *)

(** The list [scan_empty_folder_structure] returns ([[]] if it did not
    return). *)
Definition scan_empty_list (fs : filesystem) (p : Path) : list Path :=
  match scan_empty_folder_structure fs p with
  | Ok l => l
  | _ => []
  end.

Definition mem (p : Path) (l : list Path) : bool :=
  if in_dec Path_eq_dec p l then true else false.

(** [x] is [p] or lies below [p]. *)
Definition below (p x : Path) : Prop :=
  root x = root p /\ exists t, segs x = segs p ++ t.

(** The file system of the scenarios: a root directory [/R] that holds
    [x], which holds the empty directory [y] and the directory [z] with the
    file [f.txt]. *)
Definition scenario_tree : node :=
  Dir true true
    [("x", Dir true true
             [("y", Dir true true []);
              ("z", Dir true true [("f.txt", File "data")])])].

Definition scenario_fs : filesystem :=
  mkFS (Dir true true [("R", scenario_tree)]) [].

Definition scenario_root : Path := mkPath true ["R"].

(** Deepest first: no path comes after a path of fewer parts. *)
Definition deepest_first : list Path -> Prop :=
  StronglySorted (fun a b => parts_len b <= parts_len a).

(** A pass over [paths] in the given order that starts in the file system
    [fs]: the final file system, the number of removals and the error
    messages in the order they were recorded.  A directory is removed only
    when, in the file system reached just before, it exists, is a
    directory and has no entry; every other path leaves the file system
    as it is and records one error. *)
Inductive prune_run : filesystem -> list Path -> filesystem -> nat -> list string -> Prop :=
| prune_nil fs : prune_run fs [] fs 0 []
| prune_removed fs p rest fs' n errs :
    exists_ fs p = true -> is_dir fs p = true -> iterdir fs p = Ok [] ->
    prune_run (update fs p None) rest fs' n errs ->
    prune_run fs (p :: rest) fs' (S n) errs
| prune_missing fs p rest fs' n errs :
    exists_ fs p && is_dir fs p = false ->
    prune_run fs rest fs' n errs ->
    prune_run fs (p :: rest) fs' n
      (("Path does not exist or is not a directory: " +++ str p) :: errs)
| prune_not_empty fs p rest fs' n errs :
    exists_ fs p = true -> is_dir fs p = true -> is_folder_empty fs p = false ->
    prune_run fs rest fs' n errs ->
    prune_run fs (p :: rest) fs' n (("Folder not empty, skipping: " +++ str p) :: errs)
| prune_failed fs p rest fs' n errs e :
    exists_ fs p = true -> is_dir fs p = true -> iterdir fs p = Ok [] ->
    os_rmdir p fs = (Raise e, fs) ->
    prune_run fs rest fs' n errs ->
    prune_run fs (p :: rest) fs' n
      (("Error deleting " +++ str p +++ ": " +++ str_exn e) :: errs).

(** [p] followed by the components [t]. *)
Definition extend (p : Path) (t : list string) : Path :=
  mkRooted (root p) (segs p ++ t).

(** Every component of [t], walked from [n], is found in a directory that
    can be listed. *)
Fixpoint listed (n : node) (t : list string) : Prop :=
  match t with
  | [] => True
  | a :: t' =>
      match n with
      | Dir true _ es =>
          match assoc a es with
          | Some c => listed c t'
          | None => False
          end
      | _ => False
      end
  end.


(** The outcomes of [validate_path] on the input [s], by what the lookup
    of the stripped input as [Path] parses it gives: an error that
    [exists()] raises again, an error that it answers with [False], a node
    that is not a directory, a directory. *)
Inductive validation (fs : filesystem) (s : string) : bool * string * Path -> Prop :=
| validation_empty :
    strip s = "" ->
    validation fs s (false, "Path cannot be empty", Path_empty)
| validation_refused e :
    strip s <> "" -> os_stat fs (Path_of_string (strip s)) = Raise e ->
    ignored_error e = false ->
    validation fs s (false, "Invalid path: " +++ str_exn e, Path_empty)
| validation_not_found e :
    strip s <> "" -> os_stat fs (Path_of_string (strip s)) = Raise e ->
    ignored_error e = true ->
    validation fs s (false, "Path does not exist", Path_of_string (strip s))
| validation_not_a_directory n :
    strip s <> "" -> os_stat fs (Path_of_string (strip s)) = Ok n ->
    (forall r w es, n <> Dir r w es) ->
    validation fs s (false, "Path is not a directory", Path_of_string (strip s))
| validation_ok r w es :
    strip s <> "" -> os_stat fs (Path_of_string (strip s)) = Ok (Dir r w es) ->
    validation fs s (true, "", Path_of_string (strip s)).

(** The canonical form the specification speaks of, in its words: the
    absolute path, taken against the working directory, with the
    components [..] resolved. *)
Fixpoint resolve_dots (done todo : list string) : list string :=
  match todo with
  | [] => rev done
  | a :: todo' =>
      if String.eqb a ".." then resolve_dots (tl done) todo'
      else resolve_dots (a :: done) todo'
  end.

Definition canonical_form (fs : filesystem) (p : Path) : Path :=
  mkPath true (resolve_dots [] (abs fs p)).

(** Two absolute paths that part ways at some component: neither is
    the other nor lies below it. *)
Definition diverge (P Q : list string) : Prop :=
  exists c a b P' Q', P = c ++ a :: P' /\ Q = c ++ b :: Q' /\ a <> b.


(** A root [/R] with two files, a subdirectory holding a file of the
    same name as one of them, and an empty subdirectory. *)
Definition crowded_fs : filesystem :=
  mkFS (Dir true true
          [("R", Dir true true
                   [("a.txt", File "one");
                    ("a (1).txt", File "two");
                    ("sub", Dir true true [("a.txt", File "three")]);
                    ("empty", Dir true true [])])]) [].


(** The tree [t'] holds everything [t] holds and possibly more
    directories: a node of [t] that is not a directory is unchanged in
    [t'], a directory of [t] is a directory of [t'], and whatever [t'] holds
    at a path that [t] does not have is a directory. *)
Definition grows (t t' : node) : Prop :=
  (forall P m, find_node t P = Some m -> is_dir_node m = false -> find_node t' P = Some m)
  /\ (forall P m, find_node t P = Some m -> is_dir_node m = true ->
        exists m', find_node t' P = Some m' /\ is_dir_node m' = true)
  /\ (forall P m', find_node t' P = Some m' -> find_node t P = None ->
        is_dir_node m' = true).

(** What [flatten_to_root] leaves alone, for the absolute path [R] of its
    root and the trees before and after: [R] is a directory afterwards, no
    directory appears, a node that is not a directory and does not lie in
    a subdirectory of [R] is unchanged, and nothing changes at a path that
    parts ways with [R]. *)
Definition frame_kept (R : list string) (t t' : node) : Prop :=
  (exists r w es, find_node t' R = Some (Dir r w es))
  /\ (forall Q r w es, find_node t' Q = Some (Dir r w es) ->
        exists r0 w0 es0, find_node t Q = Some (Dir r0 w0 es0))
  /\ (forall Q m, find_node t Q = Some m -> is_dir_node m = false ->
        (forall a b u, Q <> R ++ a :: b :: u) -> find_node t' Q = Some m)
  /\ (forall Q, diverge R Q -> find_node t' Q = find_node t Q).

(** No file is lost: the content of every file is afterwards in a file
    at the same path or at a path directly in [R]. *)
Definition content_kept (R : list string) (t t' : node) : Prop :=
  forall Q c, find_node t Q = Some (File c) ->
    find_node t' Q = Some (File c) \/ exists y, find_node t' (R ++ [y]) = Some (File c).

(** [fs'] is [fs] after changes that [flatten_to_root] makes for the
    root [root_path]. *)
Definition flattening (fs : filesystem) (root_path : Path) (fs' : filesystem) : Prop :=
  cwd fs' = cwd fs
  /\ frame_kept (abs fs root_path) (tree fs) (tree fs')
  /\ content_kept (abs fs root_path) (tree fs) (tree fs').

(** No name occurs twice. *)
Fixpoint distinct (l : list string) : bool :=
  match l with
  | [] => true
  | a :: l' => negb (existsb (String.eqb a) l') && distinct l'
  end.

(** The trees of actual file systems: no directory holds two entries of
    the same name. *)
Fixpoint well_formed (n : node) : bool :=
  match n with
  | Dir _ _ es => distinct (map fst es) && forallb (fun e => well_formed (snd e)) es
  | _ => true
  end.

(** A directory that can be listed and holds no file, and whose
    subdirectories are all of that kind. *)
Fixpoint hollow (n : node) : bool :=
  match n with
  | Dir true _ es =>
      forallb (fun e => match snd e with
                        | File _ => false
                        | Special => true
                        | Dir _ _ _ => hollow (snd e)
                        end) es
  | _ => false
  end.

(** The directories of [rest] can be removed one after the other in the
    order of the list: no path occurs twice, no path comes after a path
    of fewer parts, every path is a listable directory whose parent is
    writable and is neither ["."] nor a root, every entry of these
    directories is itself in the list, and different paths of the list
    name different places. *)
Definition ready (fs : filesystem) (rest : list Path) : Prop :=
  NoDup rest /\ deepest_first rest
  /\ (forall y, In y rest ->
        (exists w es, node_at fs y = Some (Dir true w es))
        /\ segs y <> [] /\ parent_writable fs y = true)
  /\ (forall y a, In y rest -> node_at fs (child y a) <> None -> In (child y a) rest)
  /\ (forall y z, In y rest -> In z rest -> abs fs y = abs fs z -> y = z).





(** The destination path one round of the loop of
    [create_folder_structure] computes for [source_path]. *)
Definition destination_of (source_paths : list Path) (destination_root source_path : Path)
    : result Path :=
  match source_paths with
  | first :: _ =>
      rbind (relative_to source_path (parent first))
        (fun relative_path => Ok (join destination_root relative_path))
  | [] => Ok (child destination_root (name source_path))
  end.

(* ================================================================== *)
(** * Paths and lookups: basic facts *)

Lemma abs_child fs p a : abs fs (child p a) = abs fs p ++ [a].
Proof.
  unfold abs, child, anchored; simpl. destruct (root p); [|reflexivity..].
  now rewrite app_assoc.
Qed.

Lemma find_node_app n p q :
  find_node n (p ++ q) =
  match find_node n p with Some m => find_node m q | None => None end.
Proof.
  revert n; induction p as [|a p IH]; intros n; simpl; [reflexivity|].
  destruct n as [c| |r w es]; try reflexivity.
  destruct (assoc a es); [apply IH|reflexivity].
Qed.

Lemma node_at_child fs p a :
  node_at fs (child p a) =
  match node_at fs p with
  | Some (Dir _ _ es) => assoc a es
  | _ => None
  end.
Proof.
  unfold node_at. rewrite abs_child, find_node_app.
  destruct (find_node (tree fs) (abs fs p)) as [[c| |r w es]|]; simpl; try reflexivity.
  destruct (assoc a es); reflexivity.
Qed.

Lemma assoc_In a es c : assoc a es = Some c -> In (a, c) es.
Proof.
  induction es as [|[b d] es IH]; simpl; [discriminate|].
  destruct (String.eqb_spec a b) as [->|_].
  - intros [= ->]. now left.
  - intros H. right. now apply IH.
Qed.

Lemma height_entry a c r w es : In (a, c) es -> height c < height (Dir r w es).
Proof.
  intros H. simpl. apply Nat.lt_succ_r.
  pose proof (list_max_le (map (fun e => height (snd e)) es)
                (list_max (map (fun e => height (snd e)) es))) as [Hle _].
  specialize (Hle (Nat.le_refl _)).
  rewrite Forall_forall in Hle. apply Hle.
  apply in_map_iff. exists (a, c). auto.
Qed.

Lemma iterdir_Ok fs p items :
  iterdir fs p = Ok items ->
  exists w es, node_at fs p = Some (Dir true w es)
               /\ items = map (fun e => child p (fst e)) es.
Proof.
  unfold iterdir.
  destruct (node_at fs p) as [[c| |[|] w es]|]; try discriminate.
  intros [= <-]. eauto.
Qed.

Lemma iterdir_Raise fs p e : iterdir fs p = Raise e -> is_OSError e = true.
Proof.
  unfold iterdir.
  destruct (node_at fs p) as [[c| |[|] w es]|]; try discriminate;
    now intros [= <-].
Qed.

Lemma iterdir_no_Diverge fs p : iterdir fs p <> Diverge.
Proof.
  unfold iterdir.
  destruct (node_at fs p) as [[c| |[|] w es]|]; discriminate.
Qed.

Lemma height_at_item fs p items x :
  iterdir fs p = Ok items -> In x items -> height_at fs x < height_at fs p.
Proof.
  intros Hit Hx. apply iterdir_Ok in Hit as (w & es & Hn & ->).
  apply in_map_iff in Hx as ([a c] & <- & Hin). simpl.
  unfold height_at. rewrite node_at_child, Hn.
  destruct (assoc a es) as [c'|] eqn:Ha.
  - apply assoc_In in Ha. now apply height_entry with (a := a).
  - simpl. lia.
Qed.

(* ================================================================== *)
(** * Loops over local state *)

Section ForEach.
Context {S : Type}.

Lemma for_each_ext (body1 body2 : Path -> S -> result S) items s :
  (forall x s', In x items -> body1 x s' = body2 x s') ->
  for_each body1 items s = for_each body2 items s.
Proof.
  revert s; induction items as [|x items IH]; intros s H; simpl; [reflexivity|].
  rewrite <- (H x s (or_introl eq_refl)).
  destruct (body1 x s); try reflexivity.
  apply IH. intros y s' Hy. apply H. now right.
Qed.

Lemma for_each_invariant (P : S -> Prop) (body : Path -> S -> result S) items s :
  (forall x s1 s2, In x items -> P s1 -> body x s1 = Ok s2 -> P s2) ->
  P s -> P (fst (for_each body items s)).
Proof.
  revert s; induction items as [|x items IH]; intros s H Hs; simpl; [assumption|].
  destruct (body x s) as [s'| |] eqn:Hb; try assumption.
  apply IH.
  - intros y s1 s2 Hy. apply H. now right.
  - apply (H x s s'); auto. now left.
Qed.

Lemma for_each_completes (body : Path -> S -> result S) items s :
  (forall x s1, In x items -> exists s2, body x s1 = Ok s2) ->
  snd (for_each body items s) = Ok tt.
Proof.
  revert s; induction items as [|x items IH]; intros s H; simpl; [reflexivity|].
  destruct (H x s (or_introl eq_refl)) as [s' ->].
  apply IH. intros y s1 Hy. apply H. now right.
Qed.
End ForEach.

(* ================================================================== *)
(** * [scan_empty_folder_structure]: termination and shape *)

Lemma scan_rec_S depth fs root_path :
  scan_rec (S depth) fs root_path =
  if negb (exists_ fs root_path) || negb (is_dir fs root_path) then Ok []
  else
    match iterdir fs root_path with
    | Raise e => finish_scan [] (Raise e) []
    | Diverge => Diverge
    | Ok items =>
        if is_nil items then Ok [root_path]
        else if existsb (is_file fs) items then
          let '(empty_folders, r) :=
            for_each
              (fun subdir empty_folders =>
                 rbind (scan_rec depth fs subdir) (fun l => Ok (empty_folders ++ l)))
              (filter (is_dir fs) items) [] in
          finish_scan empty_folders r empty_folders
        else
          let '(st, r) :=
            for_each
              (fun subdir (st : list Path * bool) =>
                 rbind (scan_rec depth fs subdir)
                   (fun subdir_empty_folders =>
                      Ok (fst st ++ subdir_empty_folders,
                          if in_dec Path_eq_dec subdir subdir_empty_folders
                          then snd st else false)))
              (filter (is_dir fs) items) ([], true) in
          finish_scan (fst st) r (if snd st then fst st ++ [root_path] else fst st)
    end.
Proof. reflexivity. Qed.

(** More recursion depth than the height of the tree changes nothing. *)
Lemma scan_rec_depth n : forall m fs p,
  height_at fs p < n -> height_at fs p < m -> scan_rec n fs p = scan_rec m fs p.
Proof.
  induction n as [|n IH]; intros m fs p Hn Hm; [lia|].
  destruct m as [|m]; [lia|].
  rewrite !scan_rec_S.
  destruct (negb (exists_ fs p) || negb (is_dir fs p)); [reflexivity|].
  destruct (iterdir fs p) as [items| |] eqn:Hit; try reflexivity.
  destruct (is_nil items); [reflexivity|].
  assert (Hsub : forall x, In x (filter (is_dir fs) items) ->
                           scan_rec n fs x = scan_rec m fs x).
  { intros x Hx. apply filter_In in Hx as [Hx _].
    pose proof (height_at_item _ _ _ _ Hit Hx). apply IH; lia. }
  destruct (existsb (is_file fs) items).
  - erewrite for_each_ext; [reflexivity|].
    intros x s' Hx. now rewrite (Hsub x Hx).
  - erewrite for_each_ext; [reflexivity|].
    intros x s' Hx. now rewrite (Hsub x Hx).
Qed.

(** With enough recursion depth the scan returns a list. *)
Lemma scan_rec_returns n : forall fs p,
  height_at fs p < n -> exists l, scan_rec n fs p = Ok l.
Proof.
  induction n as [|n IH]; intros fs p Hn; [lia|].
  rewrite scan_rec_S.
  destruct (negb (exists_ fs p) || negb (is_dir fs p)); [eauto|].
  destruct (iterdir fs p) as [items|e|] eqn:Hit.
  - destruct (is_nil items); [eauto|].
    assert (Hsub : forall x, In x (filter (is_dir fs) items) ->
                             exists l, scan_rec n fs x = Ok l).
    { intros x Hx. apply filter_In in Hx as [Hx _].
      pose proof (height_at_item _ _ _ _ Hit Hx). apply IH; lia. }
    destruct (existsb (is_file fs) items).
    + match goal with |- context [for_each ?b ?i ?s] =>
        pose proof (for_each_completes b i s) as Hc;
        destruct (for_each b i s) as [acc r] end.
      simpl in Hc. rewrite Hc; [simpl; eauto|].
      intros x s1 Hx. destruct (Hsub x Hx) as [l ->]. simpl. eauto.
    + match goal with |- context [for_each ?b ?i ?s] =>
        pose proof (for_each_completes b i s) as Hc;
        destruct (for_each b i s) as [acc r] end.
      simpl in Hc. rewrite Hc; [simpl; eauto|].
      intros x s1 Hx. destruct (Hsub x Hx) as [l ->]. simpl. eauto.
  - apply iterdir_Raise in Hit. simpl. rewrite Hit. eauto.
  - now apply iterdir_no_Diverge in Hit.
Qed.

Lemma scan_enough_depth fs p n :
  height_at fs p < n -> scan_rec n fs p = scan_empty_folder_structure fs p.
Proof. intros H. unfold scan_empty_folder_structure. apply scan_rec_depth; lia. Qed.

(** The recursion budget is enough: the scan returns a list. *)
Lemma scan_returns fs p : exists l, scan_empty_folder_structure fs p = Ok l.
Proof. apply scan_rec_returns. lia. Qed.

Lemma mem_In p l : mem p l = true <-> In p l.
Proof. unfold mem. destruct (in_dec Path_eq_dec p l); split; auto; discriminate. Qed.

Lemma below_refl p : below p p.
Proof. split; [reflexivity|]. exists []. now rewrite app_nil_r. Qed.

Lemma below_trans p q x : below p q -> below q x -> below p x.
Proof.
  intros [Ha [t Ht]] [Hb [u Hu]]. split; [congruence|].
  exists (t ++ u). now rewrite Hu, Ht, app_assoc.
Qed.

Lemma below_child p a : below p (child p a).
Proof. split; [reflexivity|]. now exists [a]. Qed.

Lemma not_below_child p a : ~ below (child p a) p.
Proof.
  intros [_ [t Ht]]. simpl in Ht. apply (f_equal (@List.length string)) in Ht.
  rewrite !length_app in Ht. simpl in Ht. lia.
Qed.

Lemma item_is_child fs p items x :
  iterdir fs p = Ok items -> In x items -> exists a, x = child p a.
Proof.
  intros Hit Hx. apply iterdir_Ok in Hit as (w & es & _ & ->).
  apply in_map_iff in Hx as (e & <- & _). eauto.
Qed.

Lemma iterdir_is_dir fs p items :
  iterdir fs p = Ok items -> exists_ fs p = true /\ is_dir fs p = true.
Proof.
  intros Hit. apply iterdir_Ok in Hit as (w & es & Hn & _).
  unfold exists_, is_dir. now rewrite Hn.
Qed.

(** Everything the scan of [p] returns is [p] or lies below it. *)
Lemma scan_rec_below n : forall fs p l,
  scan_rec n fs p = Ok l -> forall x, In x l -> below p x.
Proof.
  induction n as [|n IH]; intros fs p l; [discriminate|].
  rewrite scan_rec_S.
  destruct (negb (exists_ fs p) || negb (is_dir fs p)).
  { intros [= <-] x []. }
  destruct (iterdir fs p) as [items|e|] eqn:Hit; try discriminate.
  2:{ simpl. destruct (is_OSError e); [|discriminate]. intros [= <-] x []. }
  destruct (is_nil items).
  { intros [= <-] x [<-|[]]. apply below_refl. }
  assert (Hstep : forall s l', In s (filter (is_dir fs) items) ->
                    scan_rec n fs s = Ok l' -> forall x, In x l' -> below p x).
  { intros s l' Hs Hl' x Hx. apply filter_In in Hs as [Hs _].
    destruct (item_is_child _ _ _ _ Hit Hs) as [a ->].
    eapply below_trans; [apply below_child|]. eapply IH; eauto. }
  destruct (existsb (is_file fs) items).
  - match goal with |- context [for_each ?b ?i ?s] =>
      pose proof (for_each_invariant (fun acc => forall x, In x acc -> below p x) b i s) as Hinv;
      destruct (for_each b i s) as [acc r] end.
    simpl in Hinv.
    assert (Hacc : forall x, In x acc -> below p x).
    { apply Hinv; [|intros x []].
      intros s s1 s2 Hs Hs1. destruct (scan_rec n fs s) as [l'| |] eqn:Hl'; try discriminate.
      simpl. intros [= <-] x Hx. apply in_app_or in Hx as [Hx|Hx]; eauto. }
    destruct r as [[]|e|]; simpl; try discriminate.
    + now intros [= <-].
    + destruct (is_OSError e); [|discriminate]. now intros [= <-].
  - match goal with |- context [for_each ?b ?i ?s] =>
      pose proof (for_each_invariant (fun st => forall x, In x (fst st) -> below p x) b i s) as Hinv;
      destruct (for_each b i s) as [acc r] end.
    simpl in Hinv.
    assert (Hacc : forall x, In x (fst acc) -> below p x).
    { apply Hinv; [|intros x []].
      intros s s1 s2 Hs Hs1. destruct (scan_rec n fs s) as [l'| |] eqn:Hl'; try discriminate.
      simpl. intros [= <-] x Hx. simpl in Hx. apply in_app_or in Hx as [Hx|Hx]; eauto. }
    destruct r as [[]|e|]; simpl; try discriminate.
    + intros [= <-] x Hx. destruct (snd acc); auto.
      apply in_app_or in Hx as [Hx|[<-|[]]]; auto. apply below_refl.
    + destruct (is_OSError e); [|discriminate]. now intros [= <-].
Qed.

Lemma scan_empty_list_below fs p x : In x (scan_empty_list fs p) -> below p x.
Proof.
  unfold scan_empty_list.
  destruct (scan_empty_folder_structure fs p) as [l| |] eqn:H; try contradiction.
  eapply scan_rec_below; eauto.
Qed.

Lemma scan_empty_list_Ok fs p :
  scan_empty_folder_structure fs p = Ok (scan_empty_list fs p).
Proof.
  unfold scan_empty_list. destruct (scan_returns fs p) as [l H]. now rewrite H.
Qed.

Section ScanLoops.
Variable rec : Path -> result (list Path).
Variable f : Path -> list Path.

(** The loop of a directory that holds files. *)
Lemma loop_with_files subs : forall acc,
  (forall s, In s subs -> rec s = Ok (f s)) ->
  for_each (fun subdir empty_folders =>
              rbind (rec subdir) (fun l => Ok (empty_folders ++ l))) subs acc
  = (acc ++ flat_map f subs, Ok tt).
Proof.
  induction subs as [|s subs IH]; intros acc H; simpl.
  - now rewrite app_nil_r.
  - rewrite (H s (or_introl eq_refl)). simpl.
    rewrite IH by (intros; apply H; now right). now rewrite app_assoc.
Qed.

(** The loop of a directory that holds directories only. *)
Lemma loop_only_dirs subs : forall acc flag,
  (forall s, In s subs -> rec s = Ok (f s)) ->
  for_each (fun subdir (st : list Path * bool) =>
              rbind (rec subdir)
                (fun subdir_empty_folders =>
                   Ok (fst st ++ subdir_empty_folders,
                       if in_dec Path_eq_dec subdir subdir_empty_folders
                       then snd st else false))) subs (acc, flag)
  = ((acc ++ flat_map f subs, flag && forallb (fun s => mem s (f s)) subs), Ok tt).
Proof.
  induction subs as [|s subs IH]; intros acc flag H; simpl.
  - now rewrite app_nil_r, andb_true_r.
  - rewrite (H s (or_introl eq_refl)). simpl.
    rewrite IH by (intros; apply H; now right). rewrite app_assoc.
    unfold mem. destruct (in_dec Path_eq_dec s (f s)); simpl.
    + reflexivity.
    + now rewrite andb_false_r.
Qed.
End ScanLoops.

(** What the scan of a listable directory returns, in terms of the scans
    of its subdirectories. *)
Lemma scan_equation fs D items :
  iterdir fs D = Ok items ->
  scan_empty_folder_structure fs D =
  Ok (if is_nil items then [D]
      else
        let subdirectories := filter (is_dir fs) items in
        let found := flat_map (scan_empty_list fs) subdirectories in
        if existsb (is_file fs) items then found
        else if forallb (fun s => mem s (scan_empty_list fs s)) subdirectories
             then found ++ [D] else found).
Proof.
  intros Hit. unfold scan_empty_folder_structure. rewrite scan_rec_S.
  destruct (iterdir_is_dir _ _ _ Hit) as [-> ->]. simpl. rewrite Hit.
  destruct (is_nil items); [reflexivity|].
  assert (Hsub : forall s, In s (filter (is_dir fs) items) ->
                   scan_rec (height_at fs D) fs s = Ok (scan_empty_list fs s)).
  { intros s Hs. apply filter_In in Hs as [Hs _].
    rewrite scan_enough_depth by (eapply height_at_item; eauto).
    apply scan_empty_list_Ok. }
  destruct (existsb (is_file fs) items).
  - rewrite (loop_with_files _ _ _ _ Hsub). reflexivity.
  - rewrite (loop_only_dirs _ _ _ _ _ Hsub). simpl. reflexivity.
Qed.

(** A directory that cannot be listed contributes nothing. *)
Lemma scan_unlistable fs D e :
  iterdir fs D = Raise e -> scan_empty_folder_structure fs D = Ok [].
Proof.
  intros Hit. unfold scan_empty_folder_structure. rewrite scan_rec_S, Hit.
  destruct (negb (exists_ fs D) || negb (is_dir fs D)); [reflexivity|].
  simpl. now rewrite (iterdir_Raise _ _ _ Hit).
Qed.

(* ================================================================== *)
(** * Properties of [scan_empty_folder_structure] *)

(** C1. A directory [D] that can be listed and whose entries are at least
    one subdirectory and no file is emitted if and only if every
    subdirectory of [D] is in the list the scan of that subdirectory
    returns; whatever the scans of the subdirectories return is emitted,
    whether [D] is or not. *)
Theorem scan_directory_of_directories fs D items :
  iterdir fs D = Ok items ->
  (exists S, In S items /\ is_dir fs S = true) ->
  (forall x, In x items -> is_file fs x = false) ->
  exists emitted,
    scan_empty_folder_structure fs D = Ok emitted /\
    (In D emitted <->
       forall S, In S items -> is_dir fs S = true ->
         exists eS, scan_empty_folder_structure fs S = Ok eS /\ In S eS) /\
    (forall S eS, In S items -> is_dir fs S = true ->
       scan_empty_folder_structure fs S = Ok eS -> incl eS emitted).
Proof.
  intros Hit (S0 & HS0 & HdS0) Hnofile.
  rewrite (scan_equation _ _ _ Hit).
  assert (Hnil : is_nil items = false) by (destruct items; [destruct HS0|reflexivity]).
  assert (Hfiles : existsb (is_file fs) items = false).
  { apply not_true_is_false. intros H. apply existsb_exists in H as (x & Hx & Hf).
    rewrite (Hnofile x Hx) in Hf. discriminate. }
  rewrite Hnil, Hfiles. cbv zeta.
  set (subdirectories := filter (is_dir fs) items).
  set (found := flat_map (scan_empty_list fs) subdirectories).
  assert (Hfound : forall S eS, In S items -> is_dir fs S = true ->
            scan_empty_folder_structure fs S = Ok eS -> incl eS found).
  { intros S eS HS Hd HeS x Hx. apply in_flat_map. exists S. split.
    - apply filter_In. auto.
    - unfold scan_empty_list. now rewrite HeS. }
  assert (HD : ~ In D found).
  { intros H. apply in_flat_map in H as (S & HS & HDS).
    apply filter_In in HS as [HS _].
    destruct (item_is_child _ _ _ _ Hit HS) as [a ->].
    apply scan_empty_list_below in HDS. now apply not_below_child in HDS. }
  destruct (forallb (fun s => mem s (scan_empty_list fs s)) subdirectories) eqn:Hall.
  - eexists; split; [reflexivity|]. split.
    + split.
      * intros _ S HS Hd. exists (scan_empty_list fs S). split.
        -- apply scan_empty_list_Ok.
        -- rewrite forallb_forall in Hall. apply mem_In, Hall, filter_In. auto.
      * intros _. apply in_or_app. right. now left.
    + intros S eS HS Hd HeS x Hx. apply in_or_app. left. eapply Hfound; eauto.
  - eexists; split; [reflexivity|]. split; [|exact Hfound].
    split; [contradiction|].
    intros H. exfalso.
    assert (forallb (fun s => mem s (scan_empty_list fs s)) subdirectories = true);
      [|congruence].
    apply forallb_forall. intros S HS. apply filter_In in HS as [HS Hd].
    destruct (H S HS Hd) as (eS & HeS & Hin). apply mem_In.
    unfold scan_empty_list. now rewrite HeS.
Qed.

Lemma scan_directory_of_directories_witness :
  exists emitted,
    scan_empty_folder_structure scenario_fs (child scenario_root "x") = Ok emitted /\
    (In (child scenario_root "x") emitted <->
       forall S, In S [mkPath true ["R"; "x"; "y"]; mkPath true ["R"; "x"; "z"]] ->
         is_dir scenario_fs S = true ->
         exists eS, scan_empty_folder_structure scenario_fs S = Ok eS /\ In S eS) /\
    (forall S eS, In S [mkPath true ["R"; "x"; "y"]; mkPath true ["R"; "x"; "z"]] ->
       is_dir scenario_fs S = true ->
       scan_empty_folder_structure scenario_fs S = Ok eS -> incl eS emitted).
Proof.
  apply (scan_directory_of_directories scenario_fs (child scenario_root "x")
           [mkPath true ["R"; "x"; "y"]; mkPath true ["R"; "x"; "z"]]).
  - reflexivity.
  - exists (mkPath true ["R"; "x"; "y"]). split; [simpl; auto|reflexivity].
  - intros x [<-|[<-|[]]]; reflexivity.
Defined.

(** C2. When [R] holds exactly [x], which holds the empty directory [y]
    and the directory [z] with the single file [f.txt], the scan of [R]
    returns the one path [R/x/y]: neither [R], nor [R/x], nor [R/x/z]. *)
Theorem scan_scenario fs R w wx wy rz wz content :
  node_at fs R =
    Some (Dir true w
            [("x", Dir true wx
                     [("y", Dir true wy []);
                      ("z", Dir rz wz [("f.txt", File content)])])]) ->
  scan_empty_folder_structure fs R = Ok [child (child R "x") "y"].
Proof.
  intros HR.
  set (Rx := child R "x"). set (Rxy := child Rx "y"). set (Rxz := child Rx "z").
  assert (Hx : node_at fs Rx = Some (Dir true wx
                 [("y", Dir true wy []); ("z", Dir rz wz [("f.txt", File content)])])).
  { unfold Rx. now rewrite node_at_child, HR. }
  assert (Hy : node_at fs Rxy = Some (Dir true wy [])).
  { unfold Rxy. now rewrite node_at_child, Hx. }
  assert (Hz : node_at fs Rxz = Some (Dir rz wz [("f.txt", File content)])).
  { unfold Rxz. now rewrite node_at_child, Hx. }
  assert (Hf : node_at fs (child Rxz "f.txt") = Some (File content)).
  { now rewrite node_at_child, Hz. }
  assert (Sy : scan_empty_list fs Rxy = [Rxy]).
  { unfold scan_empty_list. rewrite (scan_equation fs Rxy []); [reflexivity|].
    unfold iterdir. now rewrite Hy. }
  assert (Sz : scan_empty_list fs Rxz = []).
  { unfold scan_empty_list. destruct rz.
    - rewrite (scan_equation fs Rxz [child Rxz "f.txt"]).
      + simpl. unfold is_file, is_dir. now rewrite Hf.
      + unfold iterdir. now rewrite Hz.
    - rewrite (scan_unlistable fs Rxz (PermissionError (str Rxz))); [reflexivity|].
      unfold iterdir. now rewrite Hz. }
  assert (Sx : scan_empty_list fs Rx = [Rxy]).
  { unfold scan_empty_list. rewrite (scan_equation fs Rx [Rxy; Rxz]).
    - simpl. unfold is_file, is_dir. rewrite Hy, Hz. simpl.
      rewrite Sy, Sz. simpl. unfold mem.
      destruct (in_dec Path_eq_dec Rxy [Rxy]) as [_|n]; [|exfalso; apply n; now left].
      destruct (in_dec Path_eq_dec Rxz []) as [[]|_]. reflexivity.
    - unfold iterdir. now rewrite Hx. }
  rewrite (scan_equation fs R [Rx]).
  - simpl. unfold is_file, is_dir. rewrite Hx. simpl. rewrite Sx. simpl. unfold mem.
    destruct (in_dec Path_eq_dec Rx [Rxy]) as [[H|[]]|_]; [|reflexivity].
    exfalso. apply (not_below_child Rx "y"). fold Rxy. rewrite H. apply below_refl.
  - unfold iterdir. now rewrite HR.
Qed.

Lemma scan_scenario_witness :
  scan_empty_folder_structure scenario_fs scenario_root
  = Ok [mkPath true ["R"; "x"; "y"]].
Proof.
  apply (scan_scenario scenario_fs scenario_root true true true true true "data").
  reflexivity.
Defined.

(* ================================================================== *)
(** * [sorted] is a sort *)

Section SortedFacts.
Context {A : Type} (key : A -> nat) (reverse : bool).

Let ordered (x y : A) : Prop := stays_before key reverse x y = true.

Lemma ordered_total x y : ordered x y \/ ordered y x.
Proof.
  unfold ordered, stays_before. destruct reverse.
  - destruct (Nat.leb_spec (key y) (key x)); [now left|right].
    apply Nat.leb_le. lia.
  - destruct (Nat.leb_spec (key x) (key y)); [now left|right].
    apply Nat.leb_le. lia.
Qed.

Lemma ordered_trans x y z : ordered x y -> ordered y z -> ordered x z.
Proof.
  unfold ordered, stays_before. destruct reverse; rewrite !Nat.leb_le; lia.
Qed.

Lemma insert_sorted_perm x l : Permutation (insert_sorted key reverse x l) (x :: l).
Proof.
  induction l as [|y l IH]; simpl; [reflexivity|].
  destruct (stays_before key reverse x y); [reflexivity|].
  rewrite IH. apply perm_swap.
Qed.

Lemma sorted_perm l : Permutation (sorted key reverse l) l.
Proof.
  induction l as [|x l IH]; simpl; [reflexivity|].
  rewrite insert_sorted_perm. now constructor.
Qed.

Lemma insert_sorted_ordered x l :
  StronglySorted ordered l -> StronglySorted ordered (insert_sorted key reverse x l).
Proof.
  induction 1 as [|y l Hl IH Hy]; simpl.
  - constructor; constructor.
  - destruct (stays_before key reverse x y) eqn:Hxy.
    + constructor; [constructor; assumption|].
      constructor; [exact Hxy|].
      eapply Forall_impl; [|exact Hy]. intros z. now apply ordered_trans.
    + constructor; [exact IH|].
      assert (Hyx : ordered y x).
      { destruct (ordered_total x y) as [H|H]; [unfold ordered in H; congruence|exact H]. }
      eapply Permutation_Forall; [symmetry; apply insert_sorted_perm|].
      constructor; assumption.
Qed.

Lemma sorted_ordered l : StronglySorted ordered (sorted key reverse l).
Proof.
  induction l as [|x l IH]; simpl; [constructor|]. now apply insert_sorted_ordered.
Qed.
End SortedFacts.

Lemma sorted_deepest_first l : deepest_first (sorted parts_len true l).
Proof.
  pose proof (sorted_ordered parts_len true l) as H.
  unfold deepest_first. induction H as [|x l' Hl IH Hx]; constructor; auto.
  eapply Forall_impl; [|exact Hx]. intros y Hy. now apply Nat.leb_le.
Qed.

(* ================================================================== *)
(** * [delete_empty_folders] *)

Lemma is_folder_empty_true fs p :
  is_folder_empty fs p = true <-> iterdir fs p = Ok [].
Proof.
  unfold is_folder_empty. destruct (iterdir fs p) as [[|x items]|e|]; simpl.
  - tauto.
  - split; discriminate.
  - split; discriminate.
  - split; discriminate.
Qed.

(** [os.rmdir] removes the directory, or raises an [OSError] and leaves
    the file system as it was. *)
Lemma os_rmdir_cases p fs :
  os_rmdir p fs = (Ok tt, update fs p None)
  \/ exists e, os_rmdir p fs = (Raise e, fs) /\ is_OSError e = true.
Proof.
  unfold os_rmdir.
  destruct (negb (anchored p) && is_nil (segs p)); [right; eexists; split; reflexivity|].
  destruct (node_at fs p) as [[c| |r w es]|]; try (right; eexists; split; reflexivity).
  destruct (is_nil (abs fs p)); [right; eexists; split; reflexivity|].
  destruct (negb (parent_writable fs p)); [right; eexists; split; reflexivity|].
  destruct (negb (is_nil es)); [right; eexists; split; reflexivity|].
  now left.
Qed.

(** One round of the loop never raises: it removes the directory and
    counts it, or records one error. *)
Lemma delete_one_cases p fs n errs :
  (exists_ fs p = true /\ is_dir fs p = true /\ iterdir fs p = Ok [] /\
   delete_one p (fs, (n, errs)) = (Ok tt, (update fs p None, (n + 1, errs))))
  \/ (exists_ fs p && is_dir fs p = false /\
      delete_one p (fs, (n, errs)) =
      (Ok tt, (fs, (n, errs ++ ["Path does not exist or is not a directory: " +++ str p]))))
  \/ (exists_ fs p = true /\ is_dir fs p = true /\ is_folder_empty fs p = false /\
      delete_one p (fs, (n, errs)) =
      (Ok tt, (fs, (n, errs ++ ["Folder not empty, skipping: " +++ str p]))))
  \/ (exists e, exists_ fs p = true /\ is_dir fs p = true /\ iterdir fs p = Ok [] /\
      os_rmdir p fs = (Raise e, fs) /\
      delete_one p (fs, (n, errs)) =
      (Ok tt, (fs, (n, errs ++ ["Error deleting " +++ str p +++ ": " +++ str_exn e])))).
Proof.
  unfold delete_one, try_except, bind, query, syscall, assign; simpl.
  destruct (exists_ fs p) eqn:Hex; simpl.
  2:{ right; left. auto. }
  destruct (is_dir fs p) eqn:Hd; simpl.
  2:{ right; left. auto. }
  destruct (is_folder_empty fs p) eqn:Hem.
  2:{ right; right; left. auto. }
  apply is_folder_empty_true in Hem.
  cbn [fst snd].
  destruct (os_rmdir_cases p fs) as [Hr|(e & Hr & He)]; rewrite Hr; cbn.
  - left. auto.
  - rewrite He. right; right; right. exists e. auto.
Qed.

(** The loop, started with the counters [(n0, errs0)]. *)
Lemma delete_loop_run order : forall fs n0 errs0,
  exists fs' n errs,
    for_ order delete_one (fs, (n0, errs0)) = (Ok tt, (fs', (n0 + n, errs0 ++ errs)))
    /\ prune_run fs order fs' n errs
    /\ n + List.length errs = List.length order.
Proof.
  induction order as [|p rest IH]; intros fs n0 errs0.
  - exists fs, 0, []. simpl. unfold ret. rewrite Nat.add_0_r, app_nil_r.
    repeat split. constructor.
  - cbn [for_]. unfold bind at 1.
    destruct (delete_one_cases p fs n0 errs0)
      as [(Hex & Hd & Hit & ->)|[(Hno & ->)|[(Hex & Hd & Hne & ->)|(e & Hex & Hd & Hit & Hr & ->)]]].
    + destruct (IH (update fs p None) (n0 + 1) errs0) as (fs' & n & errs & -> & Hrun & Hlen).
      exists fs', (S n), errs. repeat split.
      * do 3 f_equal. lia.
      * now constructor.
      * simpl. lia.
    + destruct (IH fs n0 (errs0 ++ ["Path does not exist or is not a directory: " +++ str p]))
        as (fs' & n & errs & -> & Hrun & Hlen).
      eexists fs', n, (_ :: errs). repeat split.
      * now rewrite <- app_assoc.
      * now constructor.
      * simpl. lia.
    + destruct (IH fs n0 (errs0 ++ ["Folder not empty, skipping: " +++ str p]))
        as (fs' & n & errs & -> & Hrun & Hlen).
      eexists fs', n, (_ :: errs). repeat split.
      * now rewrite <- app_assoc.
      * now constructor.
      * simpl. lia.
    + destruct (IH fs n0 (errs0 ++ ["Error deleting " +++ str p +++ ": " +++ str_exn e]))
        as (fs' & n & errs & -> & Hrun & Hlen).
      eexists fs', n, (_ :: errs). repeat split.
      * now rewrite <- app_assoc.
      * now apply prune_failed.
      * simpl. lia.
Qed.

(** In a deepest-first order nothing that lies below a path comes after
    that path. *)
Lemma deepest_first_children_first l1 a l2 x :
  deepest_first (l1 ++ a :: l2) -> In x l2 -> below a x -> x = a.
Proof.
  unfold deepest_first. intros Hs Hx [Ha [t Ht]].
  induction l1 as [|b l1 IH]; simpl in Hs; apply StronglySorted_inv in Hs as [Hs Hall].
  - rewrite Forall_forall in Hall. specialize (Hall x Hx).
    unfold parts_len, anchored in Hall. rewrite Ha, Ht, length_app in Hall.
    destruct t as [|c t]; [|simpl in Hall; lia].
    rewrite app_nil_r in Ht. destruct x, a; simpl in *; congruence.
  - now apply IH.
Qed.

(** C5. For every list of paths, [delete_empty_folders] returns (it never
    raises) a success count and the list of the error messages of the
    whole batch, and it is a pass over the paths in deepest-first order
    (nothing below a path comes after it) in which a directory is removed
    only if, just before, it exists, is a directory and has no entry, and
    in which every other path records one error and the pass goes on. *)
Theorem delete_empty_folders_run folder_paths fs :
  exists order success errs fs',
    Permutation order folder_paths /\ deepest_first order /\
    (forall l1 a l2 x, order = l1 ++ a :: l2 -> In x l2 -> below a x -> x = a) /\
    delete_empty_folders folder_paths fs = (Ok (success, errs), fs') /\
    prune_run fs order fs' success errs.
Proof.
  destruct (delete_loop_run (sorted parts_len true folder_paths) fs 0 [])
    as (fs' & n & errs & Hloop & Hrun & _).
  exists (sorted parts_len true folder_paths), n, errs, fs'.
  split; [apply sorted_perm|]. split; [apply sorted_deepest_first|].
  split.
  { intros l1 a l2 x E. apply deepest_first_children_first with (l1 := l1).
    rewrite <- E. apply sorted_deepest_first. }
  split; [|exact Hrun].
  unfold delete_empty_folders. cbv zeta. now rewrite Hloop.
Qed.

(** C10. [delete_empty_folders] accounts for every input path once: the
    success count plus the number of error messages is the number of
    input paths. *)
Theorem delete_empty_folders_accounts folder_paths fs :
  exists success errs fs',
    delete_empty_folders folder_paths fs = (Ok (success, errs), fs') /\
    success + List.length errs = List.length folder_paths.
Proof.
  destruct (delete_loop_run (sorted parts_len true folder_paths) fs 0 [])
    as (fs' & n & errs & Hloop & _ & Hlen).
  exists n, errs, fs'. split.
  - unfold delete_empty_folders. cbv zeta. now rewrite Hloop.
  - rewrite Hlen. apply Permutation_length, sorted_perm.
Qed.

(* ================================================================== *)
(** * [scan_folder_structure] *)

Lemma extend_child p a t : extend (child p a) t = extend p (a :: t).
Proof. unfold extend, child; simpl. now rewrite <- app_assoc. Qed.

Lemma extend_one p a : extend p [a] = child p a.
Proof. reflexivity. Qed.


(** The walk only finds paths strictly below its start. *)
Lemma rglob_node_below h : forall n p x,
  height n <= h -> In x (rglob_node p n) -> exists t, t <> [] /\ x = extend p t.
Proof.
  induction h as [|h IH]; intros n p x Hh Hx.
  - destruct n as [c| |[|] w es]; simpl in Hx; try contradiction.
    simpl in Hh. lia.
  - destruct n as [c| |[|] w es]; simpl in Hx; try contradiction.
    apply in_app_or in Hx as [Hx|Hx].
    + apply in_map_iff in Hx as (e & <- & _). exists [fst e]. split; [discriminate|].
      reflexivity.
    + apply in_flat_map in Hx as ([a c] & He & Hx). simpl in Hx.
      pose proof (height_entry a c true w es He) as Hlt.
      destruct (IH c (child p a) x) as (t & Ht & ->); [lia|assumption|].
      exists (a :: t). split; [discriminate|]. apply extend_child.
Qed.

Lemma extend_not_self p t : t <> [] -> extend p t <> p.
Proof.
  intros Ht H. apply (f_equal segs) in H. simpl in H.
  apply (f_equal (@List.length string)) in H. rewrite length_app in H.
  destruct t; [congruence|]. simpl in H. lia.
Qed.






(* ================================================================== *)
(** * [create_folder_structure] *)

Lemma mkdir_node_raises shown p : forall k n,
  match mkdir_node shown k p n with
  | Ok _ => True
  | Raise e => is_OSError e = true
  | Diverge => False
  end.
Proof.
  induction p as [|a p IH]; intros k n; simpl.
  - destruct n; exact I || reflexivity.
  - destruct n as [c| |r w es]; try reflexivity.
    destruct (assoc a es) as [c|].
    + specialize (IH (S k) c). destruct (mkdir_node shown (S k) p c); simpl; auto.
    + destruct w; exact I || reflexivity.
Qed.

(** [mkdir] creates the directories, or raises an [OSError] and leaves
    the file system as it was. *)
Lemma mkdir_parents_cases p fs :
  (exists fs', mkdir_parents p fs = (Ok tt, fs'))
  \/ (exists e, mkdir_parents p fs = (Raise e, fs) /\ is_OSError e = true).
Proof.
  unfold mkdir_parents.
  pose proof (mkdir_node_raises (shown_prefix fs p) (abs fs p) 0 (tree fs)) as H.
  destruct (mkdir_node (shown_prefix fs p) 0 (abs fs p) (tree fs)) as [t|e|].
  - left. eauto.
  - right. eauto.
  - contradiction.
Qed.



(** One round of the loop for a source path that lies under the parent
    of the first source path: a success is counted or an error recorded. *)
Lemma create_one_relative source_paths destination_root source_path fs l :
  match source_paths with
  | first :: _ => exists rel, relative_to source_path (parent first) = Ok rel
  | [] => True
  end ->
  exists fs' l',
    create_one source_paths destination_root source_path (fs, l) = (Ok tt, (fs', l'))
    /\ success_count l' + List.length (error_messages l')
       = S (success_count l + List.length (error_messages l)).
Proof.
  intros Hrel. unfold create_one, try_except.
  assert (Hd : exists d,
    (match source_paths with
     | first :: _ =>
         relative_path <- lift (relative_to source_path (parent first)) ;;
         ret (join destination_root relative_path)
     | [] => ret (child destination_root (name source_path))
     end : M create_locals Path) (fs, l) = (Ok d, (fs, l))).
  { destruct source_paths as [|first rest].
    - eexists. reflexivity.
    - destruct Hrel as [rel Hrel]. eexists. unfold bind, lift, ret. now rewrite Hrel. }
  destruct Hd as [d Hd]. unfold bind at 1. rewrite Hd.
  unfold bind, assign, syscall, locals. cbn [fst snd].
  destruct (mkdir_parents_cases d fs) as [(fs1 & ->)|(e & -> & He)]; cbn.
  - eexists _, _. split; [reflexivity|]. simpl. lia.
  - rewrite He. cbn. eexists _, _. split; [reflexivity|]. simpl.
    rewrite length_app. simpl. lia.
Qed.

(** The part of C6 that holds: when every source path lies under the
    parent of the first one, the batch returns and accounts for every
    input path. *)
Lemma create_loop_relative source_paths destination_root order : forall fs l,
  (forall sp, In sp order ->
     match source_paths with
     | first :: _ => exists rel, relative_to sp (parent first) = Ok rel
     | [] => True
     end) ->
  exists fs' l',
    for_ order (create_one source_paths destination_root) (fs, l) = (Ok tt, (fs', l'))
    /\ success_count l' + List.length (error_messages l')
       = List.length order + (success_count l + List.length (error_messages l)).
Proof.
  induction order as [|sp order IH]; intros fs l H.
  - exists fs, l. split; reflexivity.
  - cbn [for_]. unfold bind at 1.
    destruct (create_one_relative source_paths destination_root sp fs l)
      as (fs1 & l1 & -> & Hc); [apply H; now left|].
    destruct (IH fs1 l1) as (fs2 & l2 & -> & Hc2); [intros; apply H; now right|].
    exists fs2, l2. split; [reflexivity|]. simpl. lia.
Qed.

Lemma create_folder_structure_relative source_paths destination_root fs :
  (forall sp first, In sp source_paths -> hd_error source_paths = Some first ->
     exists rel, relative_to sp (parent first) = Ok rel) ->
  exists success errs fs',
    create_folder_structure source_paths destination_root fs = (Ok (success, errs), fs')
    /\ (success + List.length errs = List.length source_paths
        \/ (success = 0 /\ List.length errs = 1)).
Proof.
  intros H. unfold create_folder_structure.
  destruct (mkdir_parents_cases destination_root fs) as [(fs1 & ->)|(e & -> & ->)].
  - cbv zeta.
    destruct (create_loop_relative source_paths destination_root
                (sorted parts_len false source_paths) fs1 (mkCreateLocals 0 [] None))
      as (fs2 & l2 & -> & Hc).
    + intros sp Hsp. destruct source_paths as [|first rest] eqn:E; [exact I|].
      rewrite <- E in *. apply H.
      * eapply Permutation_in; [apply sorted_perm|exact Hsp].
      * now rewrite E.
    + eexists _, _, _. split; [reflexivity|]. left. simpl in Hc.
      rewrite Hc, Nat.add_0_r. apply Permutation_length, sorted_perm.
  - eexists _, _, _. split; [reflexivity|]. right. auto.
Qed.

(** C6 fails on the code: a source path that does not lie under the
    parent of the first source path makes [relative_to] raise
    [ValueError], which the [except (PermissionError, OSError)] clause does
    not catch; the batch raises instead of returning its report. *)
Lemma create_folder_structure_raises :
  mkdir_parents (mkPath true ["out"]) scenario_fs
  = (Ok tt, mkFS (Dir true true [("R", scenario_tree); ("out", Dir true true [])]) [])
  /\ create_folder_structure [mkPath true ["R"; "x"]; mkPath true ["other"]]
       (mkPath true ["out"]) scenario_fs
     = (Raise (ValueError "'/other' is not in the subpath of '/R'"),
        mkFS (Dir true true [("R", scenario_tree); ("out", Dir true true [])]) []).
Proof. split; reflexivity. Qed.

(* ================================================================== *)
(** * [validate_path] *)

Lemma is_empty_string_true s : is_empty_string s = true <-> s = "".
Proof. destruct s; simpl; split; congruence. Qed.

(** The lookup fails with ENOENT, with ENOTDIR, or with ENAMETOOLONG. *)
Lemma lookup_raises shown t : forall p here e,
  lookup shown t here p = Raise e ->
  e = FileNotFoundError shown \/ e = NotADirectoryError shown
  \/ e = OSError 36 "File name too long" shown.
Proof.
  induction p as [|a p IH]; intros here e; cbn [lookup].
  - destruct (find_node t here); [discriminate|]. intros [= <-]. now left.
  - destruct (find_node t here) as [[c| |r w es]|].
    + intros [= <-]. right. now left.
    + intros [= <-]. right. now left.
    + destruct (String.eqb a ".."); [apply IH|].
      destruct (assoc a es); [apply IH|].
      destruct (NAME_MAX <? String.length a); intros [= <-]; auto.
    + intros [= <-]. now left.
Qed.

Lemma lookup_returns shown t : forall p here, lookup shown t here p <> Diverge.
Proof.
  induction p as [|a p IH]; intros here; cbn [lookup].
  - destruct (find_node t here); discriminate.
  - destruct (find_node t here) as [[c| |r w es]|]; try discriminate.
    destruct (String.eqb a ".."); [apply IH|].
    destruct (assoc a es); [apply IH|].
    destruct (NAME_MAX <? String.length a); discriminate.
Qed.

Lemma os_stat_returns fs p : os_stat fs p <> Diverge.
Proof.
  unfold os_stat. destruct (has_nul (str p)); [discriminate|].
  destruct (PATH_MAX <=? String.length (str p)); [discriminate|].
  apply lookup_returns.
Qed.

(** The one error of [os.stat] that [exists()] and [is_dir()] raise
    again in this model: a name or a path that is too long. *)
Lemma os_stat_refused fs p e :
  os_stat fs p = Raise e -> ignored_error e = false ->
  e = OSError 36 "File name too long" (str p).
Proof.
  unfold os_stat. destruct (has_nul (str p)); [intros [= <-]; discriminate|].
  destruct (PATH_MAX <=? String.length (str p)); [now intros [= <-]|].
  intros H. apply lookup_raises in H as [ -> |[ -> | -> ]]; try discriminate. reflexivity.
Qed.

(** C8, as the code has it.  [validate_path] returns for every input.  It
    fails with the empty-input error on an empty or whitespace-only
    string.  Otherwise it looks up the stripped input as [Path] parses it,
    without resolution: when the file system refuses the lookup with an
    error that [exists()] does not take for an absence (a name that is too
    long) it fails with the error ["Invalid path: ..."] and returns
    [Path()]; it fails with the not-found error on a path that does not
    exist, with the not-a-directory error on a path that is not a
    directory, and succeeds with that path on a directory.  The function
    only reads the file system. *)
Theorem validate_path_outcome fs s :
  exists answer, validate_path fs s = Ok answer /\ validation fs s answer.
Proof.
  unfold validate_path.
  destruct (is_empty_string s) eqn:Hs; simpl.
  { apply is_empty_string_true in Hs. subst s. eexists. split; [reflexivity|].
    now constructor. }
  destruct (is_empty_string (strip s)) eqn:Hst.
  { apply is_empty_string_true in Hst. eexists. split; [reflexivity|]. now constructor. }
  assert (Hne : strip s <> "").
  { intros H. apply is_empty_string_true in H. congruence. }
  unfold Path_exists, Path_is_dir.
  destruct (os_stat fs (Path_of_string (strip s))) as [n|e|] eqn:Hstat; cbn.
  - destruct n as [c| |r w es]; cbn; eexists; (split; [reflexivity|]).
    + eapply validation_not_a_directory; eauto. discriminate.
    + eapply validation_not_a_directory; eauto. discriminate.
    + eapply validation_ok; eauto.
  - destruct (ignored_error e) eqn:He; cbn; eexists; (split; [reflexivity|]).
    + eapply validation_not_found; eauto.
    + eapply validation_refused; eauto.
  - now apply os_stat_returns in Hstat.
Qed.

(** The refused lookup on an input: a name of 256 bytes in a directory
    that does not hold it. *)
Lemma validate_path_name_too_long :
  let long := String.concat "" (repeat "abcdefgh" 32) in
  String.length long = 256
  /\ validate_path scenario_fs ("/R/" +++ long)
     = Ok (false, "Invalid path: [Errno 36] File name too long: '/R/" +++ long +++ "'",
           Path_empty)
  /\ validate_path scenario_fs ("/nowhere/" +++ long)
     = Ok (false, "Path does not exist", mkPath true ["nowhere"; long]).
Proof. vm_compute. repeat split. Qed.

(** C8 as stated fails: the path returned for an existing directory given
    by a relative string is the relative path itself, not its canonical
    (absolute) form. *)
Lemma validate_path_not_canonical :
  let fs := mkFS (tree scenario_fs) ["R"] in
  Path_is_dir fs (Path_of_string (strip " x ")) = Ok true
  /\ validate_path fs " x " = Ok (true, "", mkPath false ["x"])
  /\ canonical_form fs (Path_of_string (strip " x ")) = mkPath true ["R"; "x"]
  /\ mkPath false ["x"] <> canonical_form fs (Path_of_string (strip " x ")).
Proof. repeat split. discriminate. Qed.

(* ================================================================== *)
(** * Changing the tree: what a lookup sees afterwards *)

Lemma assoc_set_entry_same a es : forall new, assoc a (set_entry a new es) = new.
Proof.
  induction es as [|[b c] es IH]; intros new; simpl.
  - destruct new; simpl; [now rewrite String.eqb_refl|reflexivity].
  - destruct (String.eqb a b) eqn:E.
    + destruct new; simpl; [now rewrite E|apply IH].
    + simpl. rewrite E. apply IH.
Qed.

Lemma assoc_set_entry_other a b es : forall new,
  a <> b -> assoc b (set_entry a new es) = assoc b es.
Proof.
  intros new Hab. induction es as [|[x c] es IH]; simpl.
  - destruct new; simpl; [|reflexivity].
    apply String.eqb_neq in Hab. rewrite String.eqb_sym in Hab. now rewrite Hab.
  - destruct (String.eqb_spec a x) as [->|Hax].
    + destruct (String.eqb_spec b x) as [->|Hbx]; [congruence|].
      destruct new; simpl.
      * apply String.eqb_neq in Hbx. now rewrite Hbx.
      * exact IH.
    + simpl. destruct (String.eqb b x); [reflexivity|exact IH].
Qed.

Lemma set_entry_same a c es : assoc a es = Some c -> set_entry a (Some c) es = es.
Proof.
  induction es as [|[b d] es IH]; simpl; [discriminate|].
  destruct (String.eqb_spec a b) as [->|_].
  - now intros [= ->].
  - intros H. now rewrite IH.
Qed.

Lemma path_trichotomy (P : list string) : forall Q,
  P = Q \/ (exists a t, Q = P ++ a :: t) \/ (exists a t, P = Q ++ a :: t) \/ diverge P Q.
Proof.
  induction P as [|a P IH]; intros [|b Q].
  - now left.
  - right; left. now exists b, Q.
  - right; right; left. now exists a, P.
  - destruct (string_dec a b) as [->|Hab].
    + destruct (IH Q) as [->|[(x & t & ->)|[(x & t & ->)|(c & x & y & P' & Q' & -> & -> & Hxy)]]].
      * now left.
      * right; left. now exists x, t.
      * right; right; left. now exists x, t.
      * right; right; right. now exists (b :: c), x, y, P', Q'.
    + right; right; right. now exists [], a, b, P, Q.
Qed.


Lemma set_at_deeper a P new r w es :
  P <> [] ->
  set_at (a :: P) new (Dir r w es) =
  match assoc a es with
  | Some c => Dir r w (set_entry a (Some (set_at P new c)) es)
  | None => Dir r w es
  end.
Proof. destruct P; [congruence|reflexivity]. Qed.

(** The node set at [Q ++ [a]] is found there. *)
Lemma find_set_same new a Q : forall n r w es,
  find_node n Q = Some (Dir r w es) ->
  find_node (set_at (Q ++ [a]) new n) (Q ++ [a]) = new.
Proof.
  induction Q as [|x Q IH]; intros n r w es H; simpl in H.
  - injection H as ->. simpl. rewrite assoc_set_entry_same. now destruct new.
  - destruct n as [c| |r0 w0 es0]; try discriminate.
    destruct (assoc x es0) as [c0|] eqn:Hx; [|discriminate].
    change ((x :: Q) ++ [a]) with (x :: (Q ++ [a])).
    rewrite set_at_deeper by (now destruct Q).
    rewrite Hx. cbn [find_node]. rewrite assoc_set_entry_same.
    eapply IH; eauto.
Qed.

(** A change at [P] is not seen at a path that diverges from [P]. *)
Lemma find_set_diverge new P Q n :
  diverge P Q -> find_node (set_at P new n) Q = find_node n Q.
Proof.
  intros (c & a & b & P' & Q' & -> & -> & Hab). revert n.
  induction c as [|x c IH]; intros n.
  - cbn [app set_at]. destruct n as [f| |r w es]; try reflexivity.
    destruct P' as [|y P'].
    + cbn [find_node]. now rewrite assoc_set_entry_other.
    + destruct (assoc a es) as [c0|]; [|reflexivity].
      cbn [find_node]. now rewrite assoc_set_entry_other.
  - change ((x :: c) ++ a :: P') with (x :: (c ++ a :: P')).
    change ((x :: c) ++ b :: Q') with (x :: (c ++ b :: Q')).
    destruct n as [f| |r w es]; try reflexivity.
    rewrite set_at_deeper by (now destruct c).
    destruct (assoc x es) as [c0|] eqn:Hx; [|reflexivity].
    cbn [find_node]. rewrite assoc_set_entry_same, Hx. apply IH.
Qed.

(** A directory above the change keeps its flags. *)
Lemma find_set_above new a P' Q : forall n r w es,
  find_node n Q = Some (Dir r w es) ->
  exists es', find_node (set_at (Q ++ a :: P') new n) Q = Some (Dir r w es').
Proof.
  induction Q as [|x Q IH]; intros n r w es H; simpl in H.
  - injection H as ->. cbn [app set_at find_node].
    destruct P'; [eauto|]. destruct (assoc a es); eauto.
  - destruct n as [c| |r0 w0 es0]; try discriminate.
    destruct (assoc x es0) as [c0|] eqn:Hx; [|discriminate].
    change ((x :: Q) ++ a :: P') with (x :: (Q ++ a :: P')).
    rewrite set_at_deeper by (now destruct Q).
    rewrite Hx. cbn [find_node]. rewrite assoc_set_entry_same.
    eapply IH; eauto.
Qed.

(** A removal creates nothing. *)
Lemma find_set_none P : forall n Q,
  find_node n Q = None -> find_node (set_at P None n) Q = None.
Proof.
  induction P as [|a P IH]; intros n Q H; [exact H|].
  cbn [set_at]. destruct n as [c| |r w es]; try exact H.
  destruct Q as [|b Q]; [discriminate|]. cbn [find_node] in H.
  destruct P as [|y P'].
  - cbn [find_node]. destruct (string_dec a b) as [->|Hab].
    + now rewrite assoc_set_entry_same.
    + now rewrite assoc_set_entry_other.
  - destruct (assoc a es) as [c0|] eqn:Ha; [|exact H].
    cbn [find_node]. destruct (string_dec a b) as [->|Hab].
    + rewrite assoc_set_entry_same. rewrite Ha in H. now apply IH.
    + now rewrite assoc_set_entry_other.
Qed.

(** Nothing is found below an empty directory or below a file. *)
Lemma find_below_empty n P r w a t :
  find_node n P = Some (Dir r w []) -> find_node n (P ++ a :: t) = None.
Proof. intros H. rewrite find_node_app, H. reflexivity. Qed.


Lemma find_below_missing n P t :
  find_node n P = None -> find_node n (P ++ t) = None.
Proof. intros H. now rewrite find_node_app, H. Qed.

Lemma node_at_update fs P new Q :
  node_at (update fs P new) Q = find_node (set_at (abs fs P) new (tree fs)) (abs fs Q).
Proof. reflexivity. Qed.

Lemma removelast_snoc (l : list string) a : removelast (l ++ [a]) = l.
Proof. apply removelast_last. Qed.

Lemma parent_child p a : parent (child p a) = p.
Proof. unfold parent, child; simpl. rewrite removelast_snoc. now destruct p. Qed.

(* ================================================================== *)
(** * [_unique_destination] *)

Lemma append_inj_l s a b : s +++ a = s +++ b -> a = b.
Proof. induction s as [|c s IH]; simpl; [auto|]. intros [= H]. auto. Qed.

Lemma length_append a b : String.length (a +++ b) = String.length a + String.length b.
Proof. induction a as [|c a IH]; simpl; [reflexivity|]. now rewrite IH. Qed.

Lemma append_inj_r t : forall a b, a +++ t = b +++ t -> a = b.
Proof.
  induction a as [|c a IH]; intros [|c' b] H; simpl in H.
  - reflexivity.
  - apply (f_equal String.length) in H. simpl in H. rewrite length_append in H. lia.
  - apply (f_equal String.length) in H. simpl in H. rewrite length_append in H. lia.
  - injection H as -> H. f_equal. now apply IH.
Qed.

Lemma decimal_inj k k' : decimal k = decimal k' -> k = k'.
Proof.
  unfold decimal. intros H.
  apply (f_equal NilEmpty.uint_of_string) in H. rewrite !NilEmpty.usu in H.
  injection H as H. apply (f_equal Nat.of_uint) in H.
  now rewrite !DecimalNat.Unsigned.of_to in H.
Qed.

Lemma numbered_inj st su k k' : numbered st k su = numbered st k' su -> k = k'.
Proof.
  unfold numbered. intros H. apply append_inj_l in H. simpl in H.
  injection H as H. apply append_inj_r in H. now apply decimal_inj.
Qed.

Lemma NoDup_map_injective {A B : Type} (f : A -> B) l :
  (forall x y, f x = f y -> x = y) -> NoDup l -> NoDup (map f l).
Proof.
  intros Hf. induction 1 as [|x l Hx Hl IH]; simpl; constructor; [|assumption].
  intros H. apply in_map_iff in H as (y & Hy & Hin). apply Hf in Hy. now subst.
Qed.

Lemma exists_child fs root a :
  exists_ fs (child root a) = true ->
  exists r w es, node_at fs root = Some (Dir r w es) /\ In a (map fst es).
Proof.
  unfold exists_. rewrite node_at_child.
  destruct (node_at fs root) as [[c| |r w es]|]; try discriminate.
  destruct (assoc a es) as [c|] eqn:Ha; [|discriminate].
  intros _. exists r, w, es. split; [reflexivity|].
  apply assoc_In in Ha. apply in_map_iff. now exists (a, c).
Qed.

(** A directory cannot hold all of the candidates [(1)], ..., [(n + 1)]
    when it has [n] entries. *)
Lemma free_candidate fs root st su :
  exists n, 1 <= n <= S (entry_count fs root)
            /\ exists_ fs (child root (numbered st n su)) = false.
Proof.
  set (N := entry_count fs root).
  set (P := fun n => exists_ fs (child root (numbered st n su)) = true).
  destruct (Forall_Exists_dec P (fun n => bool_dec _ true) (seq 1 (S N))) as [Hall|Hex].
  - exfalso. rewrite Forall_forall in Hall.
    assert (H1 : exists_ fs (child root (numbered st 1 su)) = true).
    { apply Hall, in_seq. lia. }
    apply exists_child in H1 as (r & w & es & Hroot & _).
    assert (Hincl : incl (map (fun n => numbered st n su) (seq 1 (S N))) (map fst es)).
    { intros x Hx. apply in_map_iff in Hx as (n & <- & Hn).
      specialize (Hall n Hn). apply exists_child in Hall as (r' & w' & es' & Hroot' & Hin).
      rewrite Hroot in Hroot'. now injection Hroot' as _ _ <-. }
    apply NoDup_incl_length in Hincl.
    + rewrite !length_map, length_seq in Hincl. unfold N, entry_count in Hincl.
      rewrite Hroot in Hincl. lia.
    + apply NoDup_map_injective; [apply numbered_inj|apply seq_NoDup].
  - apply Exists_exists in Hex as (n & Hn & HP). apply in_seq in Hn.
    exists n. split; [lia|]. unfold P in HP. now destruct (exists_ fs _).
Qed.

Lemma first_false (P : nat -> bool) : forall d c,
  P (c + d) = false ->
  exists m, m <= d /\ P (c + m) = false /\ forall k, k < m -> P (c + k) = true.
Proof.
  induction d as [|d IH]; intros c H.
  - exists 0. split; [lia|]. split; [assumption|]. intros k Hk; lia.
  - destruct (P c) eqn:Hc.
    + destruct (IH (S c)) as (m & Hm & Hfree & Hbusy).
      { now replace (S c + d) with (c + S d) by lia. }
      exists (S m). split; [lia|]. split.
      * now replace (c + S m) with (S c + m) by lia.
      * intros [|k] Hk.
        -- now rewrite Nat.add_0_r.
        -- replace (c + S k) with (S c + k) by lia. apply Hbusy. lia.
    + exists 0. split; [lia|]. rewrite Nat.add_0_r. split; [assumption|].
      intros k Hk; lia.
Qed.

(** The loop stops at the first free candidate when it has fuel for it. *)
Lemma unique_loop_stops fs root st su : forall d fuel counter candidate,
  exists_ fs candidate = true ->
  (forall k, k < d -> exists_ fs (child root (numbered st (counter + k) su)) = true) ->
  exists_ fs (child root (numbered st (counter + d) su)) = false ->
  d + 2 <= fuel ->
  unique_loop fuel fs root st su candidate counter
  = Ok (child root (numbered st (counter + d) su)).
Proof.
  induction d as [|d IH]; intros fuel counter candidate Hc Hbusy Hfree Hfuel.
  - destruct fuel as [|[|fuel]]; try lia. simpl. rewrite Hc.
    rewrite Nat.add_0_r in Hfree. rewrite Hfree. now rewrite Nat.add_0_r.
  - destruct fuel as [|fuel]; [lia|]. cbn [unique_loop]. rewrite Hc.
    replace (counter + S d) with (counter + 1 + d) in * by lia.
    apply IH.
    + specialize (Hbusy 0). rewrite Nat.add_0_r in Hbusy. apply Hbusy. lia.
    + intros k Hk. replace (counter + 1 + k) with (counter + S k) by lia.
      apply Hbusy. lia.
    + exact Hfree.
    + lia.
Qed.

(** On a conflict [_unique_destination] returns the candidate of the
    least number from 1 that is free. *)
Lemma unique_destination_least fs root nm :
  exists_ fs (child root nm) = true ->
  exists n,
    1 <= n
    /\ _unique_destination fs root nm
       = Ok (child root (numbered (stem nm) n (suffix nm)))
    /\ exists_ fs (child root (numbered (stem nm) n (suffix nm))) = false
    /\ (forall k, 1 <= k < n ->
          exists_ fs (child root (numbered (stem nm) k (suffix nm))) = true).
Proof.
  intros Hconflict.
  destruct (free_candidate fs root (stem nm) (suffix nm)) as (n0 & Hn0 & Hfree0).
  destruct (first_false
              (fun k => exists_ fs (child root (numbered (stem nm) k (suffix nm))))
              (n0 - 1) 1) as (m & Hm & Hfree & Hbusy).
  { now replace (1 + (n0 - 1)) with n0 by lia. }
  exists (1 + m). split; [lia|]. split; [|split].
  - unfold _unique_destination. cbv zeta.
    apply unique_loop_stops; [assumption|exact Hbusy|exact Hfree|lia].
  - exact Hfree.
  - intros k Hk. replace k with (1 + (k - 1)) by lia. apply Hbusy. lia.
Qed.

(* ================================================================== *)
(** * System calls: their effect on the file system *)

Lemma mkdir_node_existing shown P : forall k n r w es,
  find_node n P = Some (Dir r w es) -> mkdir_node shown k P n = Ok n.
Proof.
  induction P as [|a P IH]; intros k n r w es H; simpl in H.
  - injection H as ->. reflexivity.
  - destruct n as [c| |r0 w0 es0]; try discriminate.
    destruct (assoc a es0) as [c0|] eqn:Ha; [|discriminate].
    simpl. rewrite Ha. erewrite IH by eauto. simpl. now rewrite set_entry_same.
Qed.

(** [mkdir(parents=True, exist_ok=True)] of an existing directory changes
    nothing. *)
Lemma mkdir_parents_existing p fs :
  is_dir fs p = true -> mkdir_parents p fs = (Ok tt, fs).
Proof.
  unfold is_dir, node_at, mkdir_parents. intros H.
  destruct (find_node (tree fs) (abs fs p)) as [[c| |r w es]|] eqn:Hn; try discriminate.
  erewrite mkdir_node_existing by eauto. now destruct fs.
Qed.

Ltac split_matches :=
  repeat match goal with
         | |- context [match ?x with _ => _ end] => destruct x eqn:?
         end.

Lemma os_rename_effect src dst fs :
  (exists e, os_rename src dst fs = (Raise e, fs) /\ is_OSError e = true)
  \/ os_rename src dst fs = (Ok tt, fs)
  \/ (exists n, node_at fs src = Some n
                /\ os_rename src dst fs = (Ok tt, update (update fs src None) dst (Some n))).
Proof.
  unfold os_rename.
  destruct (node_at fs src) as [n|]; [|left; eauto].
  split_matches;
    first [ left; eexists; split; reflexivity
          | right; left; reflexivity
          | right; right; eexists; split; reflexivity ].
Qed.

Lemma copy_file_effect src dst fs :
  (exists e, copy_file src dst fs = (Raise e, fs) /\ is_OSError e = true)
  \/ (exists c, node_at fs src = Some (File c)
                /\ copy_file src dst fs = (Ok tt, update fs dst (Some (File c)))).
Proof.
  unfold copy_file.
  destruct (node_at fs src) as [[c| |r w es]|]; try (left; eexists; split; reflexivity).
  split_matches;
    first [ left; eexists; split; reflexivity
          | right; eexists; split; reflexivity ].
Qed.

Lemma os_unlink_effect p fs :
  (exists e, os_unlink p fs = (Raise e, fs) /\ is_OSError e = true)
  \/ os_unlink p fs = (Ok tt, update fs p None).
Proof.
  unfold os_unlink.
  split_matches;
    first [ left; eexists; split; reflexivity | right; reflexivity ].
Qed.

(** What [shutil.move] to a destination that is not a directory can do:
    it returns or raises an [OSError], and the file system is unchanged,
    or the source has been renamed, or copied, or copied and unlinked. *)
Lemma shutil_move_effect src dst fs :
  is_dir fs dst = false ->
  exists r fs',
    shutil_move src dst fs = (r, fs')
    /\ (r = Ok tt \/ exists e, r = Raise e /\ is_OSError e = true)
    /\ (fs' = fs
        \/ exists n, node_at fs src = Some n
             /\ (fs' = update (update fs src None) dst (Some n)
                 \/ fs' = update fs dst (Some n)
                 \/ fs' = update (update fs dst (Some n)) src None)).
Proof.
  intros Hd. unfold shutil_move. rewrite Hd. cbn [andb].
  destruct (os_rename_effect src dst fs) as [(e & -> & He)|[ -> |(n & Hn & ->)]].
  - rewrite He. destruct (is_dir fs src).
    { eexists _, _. split; [reflexivity|]. split; [right; eauto|now left]. }
    destruct (copy_file_effect src dst fs) as [(e1 & -> & He1)|(c & Hc & ->)].
    { eexists _, _. split; [reflexivity|]. split; [right; eauto|now left]. }
    destruct (os_unlink_effect src (update fs dst (Some (File c))))
      as [(e2 & -> & He2)| ->].
    + eexists _, _. split; [reflexivity|]. split; [right; eauto|].
      right. exists (File c). auto.
    + eexists _, _. split; [reflexivity|]. split; [now left|].
      right. exists (File c). auto.
  - eexists _, _. split; [reflexivity|]. split; [now left|now left].
  - eexists _, _. split; [reflexivity|]. split; [now left|].
    right. exists n. auto.
Qed.


(* ================================================================== *)
(** * [flatten_to_root]: moving one file *)

Lemma abs_extend fs p t : abs fs (extend p t) = abs fs p ++ t.
Proof.
  unfold abs, extend, anchored; simpl. destruct (root p); [|reflexivity..].
  now rewrite app_assoc.
Qed.

Lemma below_extend p x : below p x -> exists t, x = extend p t.
Proof.
  intros [Ha [t Ht]]. exists t. destruct x as [ax sx], p as [ap sp]; simpl in *.
  unfold extend; simpl. congruence.
Qed.


Lemma node_at_extend fs p t :
  node_at fs (extend p t) =
  match node_at fs p with Some m => find_node m t | None => None end.
Proof. unfold node_at. now rewrite abs_extend, find_node_app. Qed.



Lemma node_at_update_diverge fs P new Q :
  diverge (abs fs P) (abs fs Q) -> node_at (update fs P new) Q = node_at fs Q.
Proof. intros H. rewrite node_at_update. now apply find_set_diverge. Qed.



Lemma node_at_update_self fs p new :
  abs fs p <> [] ->
  (exists r w es, find_node (tree fs) (removelast (abs fs p)) = Some (Dir r w es)) ->
  node_at (update fs p new) p = new.
Proof.
  intros Hne (r & w & es & H). rewrite node_at_update.
  destruct (exists_last Hne) as (Q & a & E). rewrite E in *.
  rewrite removelast_snoc in H. eapply find_set_same. exact H.
Qed.

Lemma exists_false_None fs p : exists_ fs p = false -> node_at fs p = None.
Proof. unfold exists_. now destruct (node_at fs p). Qed.


Lemma parent_writable_dir fs p :
  parent_writable fs p = true ->
  exists r w es, find_node (tree fs) (removelast (abs fs p)) = Some (Dir r w es).
Proof.
  unfold parent_writable.
  destruct (find_node (tree fs) (removelast (abs fs p))) as [[c| |r w es]|];
    try discriminate. eauto.
Qed.



(* ================================================================== *)
(** * [flatten_to_root]: an empty subdirectory of the root *)






(** The files the first loop collects lie at least two components below
    the root. *)
Lemma all_files_nested fs root_path src :
  In src (filter (nested_file fs root_path) (rglob fs root_path)) ->
  exists a b t, src = extend root_path (a :: b :: t).
Proof.
  intros H. apply filter_In in H as [Hin Hnested].
  unfold nested_file in Hnested. apply andb_prop in Hnested as [_ Hp].
  destruct (Path_eq_dec (parent src) root_path) as [|Hp']; [discriminate|].
  unfold rglob in Hin. destruct (node_at fs root_path) as [n|]; [|destruct Hin].
  destruct (rglob_node_below (height n) n root_path src (Nat.le_refl _) Hin)
    as (t & Ht & ->).
  destruct t as [|a [|b t]]; [congruence| |eauto].
  exfalso. apply Hp'. rewrite extend_one. apply parent_child.
Qed.


Lemma abs_not_nil fs p : segs p <> [] -> abs fs p <> [].
Proof.
  unfold abs. intros Hs H. destruct (anchored p); [congruence|].
  apply app_eq_nil in H as [_ H]. congruence.
Qed.

Lemma os_rmdir_empty p fs w :
  node_at fs p = Some (Dir true w []) -> segs p <> [] ->
  parent_writable fs p = true ->
  os_rmdir p fs = (Ok tt, update fs p None).
Proof.
  intros Hn Hne Hw. unfold os_rmdir. rewrite Hn, Hw.
  pose proof (abs_not_nil fs p Hne) as Ha.
  destruct (segs p); [congruence|]. rewrite Bool.andb_false_r.
  destruct (abs fs p); [congruence|reflexivity].
Qed.

Lemma iterdir_nil fs p : iterdir fs p = Ok [] -> exists w, node_at fs p = Some (Dir true w []).
Proof.
  intros H. apply iterdir_Ok in H as (w & es & Hn & E).
  destruct es; [eauto|discriminate].
Qed.






(** A path that leads to a file goes through directories. *)
Lemma above_file_is_dir fs D t c :
  t <> [] -> node_at fs (extend D t) = Some (File c) -> is_dir fs D = true.
Proof.
  intros Ht H. rewrite node_at_extend in H. unfold is_dir.
  destruct (node_at fs D) as [[c0| |r w es]|]; try discriminate; try reflexivity;
    destruct t; try congruence; discriminate.
Qed.




(** The whole of [flatten_to_root] on the crowded root: [a.txt] and
    [a (1).txt] are taken, so the nested [a.txt] becomes [a (2).txt]; the
    emptied [sub] and the already empty [empty] are both removed. *)
Example flatten_crowded :
  flatten_to_root scenario_root "rename" crowded_fs
  = (Ok (mkFlattenResult 1 0 2 [] [("/R/sub/a.txt", "/R/a (2).txt")]),
     mkFS (Dir true true
             [("R", Dir true true
                      [("a.txt", File "one");
                       ("a (1).txt", File "two");
                       ("a (2).txt", File "three")])]) []).
Proof. reflexivity. Qed.

(** In mode ['skip'] the nested file stays where it is, and so does its
    directory. *)
Example flatten_crowded_skip :
  flatten_to_root scenario_root "skip" crowded_fs
  = (Ok (mkFlattenResult 0 1 1 [] []),
     mkFS (Dir true true
             [("R", Dir true true
                      [("a.txt", File "one");
                       ("a (1).txt", File "two");
                       ("sub", Dir true true [("a.txt", File "three")])])]) []).
Proof. reflexivity. Qed.

(** [sorted] keeps the input order among paths of equal depth, in both
    directions, as Python's [sorted] does. *)
Example sorted_is_stable :
  sorted parts_len true
    [mkPath true ["a"]; mkPath true ["b"; "c"]; mkPath true ["d"]; mkPath true ["e"; "f"]]
  = [mkPath true ["b"; "c"]; mkPath true ["e"; "f"]; mkPath true ["a"]; mkPath true ["d"]]
  /\ sorted parts_len false
       [mkPath true ["b"; "c"]; mkPath true ["a"]; mkPath true ["e"; "f"]; mkPath true ["d"]]
     = [mkPath true ["a"]; mkPath true ["d"]; mkPath true ["b"; "c"]; mkPath true ["e"; "f"]].
Proof. split; reflexivity. Qed.

(* ================================================================== *)
(** * Counting files *)

Lemma rglob_listable fs p items :
  iterdir fs p = Ok items ->
  exists deeper,
    rglob fs p = items ++ deeper
    /\ forall x, In x deeper -> exists a b t, x = extend p (a :: b :: t).
Proof.
  intros Hit. apply iterdir_Ok in Hit as (w & es & Hn & ->).
  unfold rglob. rewrite Hn. cbn [rglob_node]. eexists. split; [reflexivity|].
  intros x Hx. apply in_flat_map in Hx as ([a c] & _ & Hx). simpl in Hx.
  destruct (rglob_node_below (height c) c (child p a) x (Nat.le_refl _) Hx)
    as ([|b t] & Ht & ->); [congruence|].
  exists a, b, t. apply extend_child.
Qed.

Lemma rglob_unlistable fs p e : iterdir fs p = Raise e -> rglob fs p = [].
Proof.
  unfold iterdir, rglob.
  destruct (node_at fs p) as [[c| |[|] w es]|]; try discriminate; reflexivity.
Qed.

Lemma rglob_not_dir fs p : is_dir fs p = false -> rglob fs p = [].
Proof.
  unfold is_dir, rglob.
  destruct (node_at fs p) as [[c| |r w es]|]; try discriminate; reflexivity.
Qed.

Lemma parent_nested_ne p a b t : parent (extend p (a :: b :: t)) <> p.
Proof.
  assert (Hne : b :: t <> []) by discriminate.
  destruct (exists_last Hne) as (t' & z & E). rewrite E.
  replace (extend p (a :: t' ++ [z])) with (child (extend p (a :: t')) z).
  - rewrite parent_child. apply extend_not_self. discriminate.
  - unfold child, extend; simpl. now rewrite <- app_assoc.
Qed.

Lemma filter_none {A : Type} (f : A -> bool) l :
  (forall x, In x l -> f x = false) -> filter f l = [].
Proof.
  induction l as [|x l IH]; intros H; simpl; [reflexivity|].
  rewrite (H x (or_introl eq_refl)). apply IH. intros y Hy. apply H. now right.
Qed.

(** The files [flatten_to_root] collects are the files of the walk that
    are not entries of the root. *)
Lemma nested_files_listable fs root_path items deeper :
  iterdir fs root_path = Ok items ->
  rglob fs root_path = items ++ deeper ->
  (forall x, In x deeper -> exists a b t, x = extend root_path (a :: b :: t)) ->
  filter (nested_file fs root_path) (rglob fs root_path) = filter (is_file fs) deeper.
Proof.
  intros Hit -> Hdeep. rewrite filter_app.
  rewrite (filter_none (nested_file fs root_path) items).
  - simpl. apply filter_ext_in. intros x Hx.
    destruct (Hdeep x Hx) as (a & b & t & ->). unfold nested_file.
    destruct (Path_eq_dec (parent (extend root_path (a :: b :: t))) root_path) as [E|_].
    + now apply parent_nested_ne in E.
    + apply andb_true_r.
  - intros x Hx. destruct (item_is_child _ _ _ _ Hit Hx) as [a ->].
    unfold nested_file. rewrite parent_child.
    destruct (Path_eq_dec root_path root_path); [apply andb_false_r|congruence].
Qed.

(** X1. The recursive count is the count of the root's own files plus the
    number of nested files that [flatten_to_root] collects to move, and it
    is the length of the returned list, which holds files only. *)
Theorem count_files_recursive_split fs root_path :
  fst (count_files_recursive fs root_path)
  = count_files_root_only fs root_path
    + List.length (filter (nested_file fs root_path) (rglob fs root_path))
  /\ fst (count_files_recursive fs root_path)
     = List.length (snd (count_files_recursive fs root_path))
  /\ (forall f, In f (snd (count_files_recursive fs root_path)) ->
                is_file fs f = true /\ below root_path f /\ f <> root_path)
  /\ count_files_root_only fs root_path <= fst (count_files_recursive fs root_path).
Proof.
  assert (Hsplit : fst (count_files_recursive fs root_path)
    = count_files_root_only fs root_path
      + List.length (filter (nested_file fs root_path) (rglob fs root_path))).
  { unfold count_files_recursive, count_files_root_only.
    destruct (negb (exists_ fs root_path) || negb (is_dir fs root_path)) eqn:Hguard.
    - assert (Hd : is_dir fs root_path = false).
      { unfold exists_, is_dir in *.
        destruct (node_at fs root_path) as [[c| |r w es]|]; try reflexivity; discriminate. }
      now rewrite (rglob_not_dir _ _ Hd).
    - cbv zeta. cbn [fst snd].
      destruct (iterdir fs root_path) as [items|e|] eqn:Hit.
      + destruct (rglob_listable _ _ _ Hit) as (deeper & Hr & Hdeep).
        rewrite (nested_files_listable _ _ _ _ Hit Hr Hdeep).
        now rewrite Hr, filter_app, length_app.
      + now rewrite (rglob_unlistable _ _ _ Hit).
      + now apply iterdir_no_Diverge in Hit. }
  split; [exact Hsplit|]. split; [|split; [|lia]].
  - unfold count_files_recursive.
    destruct (negb (exists_ fs root_path) || negb (is_dir fs root_path)); reflexivity.
  - intros f Hf. unfold count_files_recursive in Hf.
    destruct (negb (exists_ fs root_path) || negb (is_dir fs root_path)); [destruct Hf|].
    cbn [snd] in Hf. apply filter_In in Hf as [Hf Hfile]. split; [exact Hfile|].
    unfold rglob in Hf. destruct (node_at fs root_path) as [n|]; [|destruct Hf].
    destruct (rglob_node_below (height n) n root_path f (Nat.le_refl _) Hf) as (t & Ht & ->).
    split; [|now apply extend_not_self]. split; [reflexivity|]. now exists t.
Qed.

(* ================================================================== *)
(** * [_unique_destination]: the path it returns *)


(* ================================================================== *)
(** * [scan_empty_folder_structure]: what the emitted paths are *)

Lemma scan_empty_list_cases fs p :
  scan_empty_list fs p = []
  \/ exists items,
       iterdir fs p = Ok items
       /\ scan_empty_list fs p =
          (if is_nil items then [p]
           else
             let subdirectories := filter (is_dir fs) items in
             let found := flat_map (scan_empty_list fs) subdirectories in
             if existsb (is_file fs) items then found
             else if forallb (fun s => mem s (scan_empty_list fs s)) subdirectories
                  then found ++ [p] else found).
Proof.
  destruct (iterdir fs p) as [items|e|] eqn:Hit.
  - right. exists items. split; [reflexivity|].
    unfold scan_empty_list at 1. now rewrite (scan_equation _ _ _ Hit).
  - left. unfold scan_empty_list. now rewrite (scan_unlistable _ _ _ Hit).
  - now apply iterdir_no_Diverge in Hit.
Qed.

(** A path the scan of [p] emits is emitted by its own scan, and all
    that its own scan emits is emitted by the scan of [p]. *)
Lemma scan_emitted_self fs h : forall p x,
  height_at fs p < h -> In x (scan_empty_list fs p) ->
  In x (scan_empty_list fs x)
  /\ incl (scan_empty_list fs x) (scan_empty_list fs p).
Proof.
  induction h as [|h IH]; intros p x Hh Hx; [lia|].
  destruct (scan_empty_list_cases fs p) as [E|(items & Hit & E)].
  { rewrite E in Hx. destruct Hx. }
  cbv zeta in E.
  assert (Hfound : In x (flat_map (scan_empty_list fs) (filter (is_dir fs) items)) ->
                   incl (flat_map (scan_empty_list fs) (filter (is_dir fs) items))
                        (scan_empty_list fs p) ->
                   In x (scan_empty_list fs x)
                   /\ incl (scan_empty_list fs x) (scan_empty_list fs p)).
  { intros Hin Hincl. apply in_flat_map in Hin as (s & Hs & Hxs).
    assert (Hhs : height_at fs s < h).
    { apply filter_In in Hs as [Hs _].
      pose proof (height_at_item _ _ _ _ Hit Hs). lia. }
    destruct (IH s x Hhs Hxs) as [Hself Hsub]. split; [exact Hself|].
    intros y Hy. apply Hincl, in_flat_map. exists s. auto. }
  assert (Hp : x = p -> In x (scan_empty_list fs x)
                        /\ incl (scan_empty_list fs x) (scan_empty_list fs p)).
  { intros ->. split; [exact Hx|apply incl_refl]. }
  rewrite E in Hx.
  destruct (is_nil items).
  { destruct Hx as [<-|[]]. now apply Hp. }
  destruct (existsb (is_file fs) items).
  { apply Hfound; [exact Hx|]. rewrite E. apply incl_refl. }
  destruct (forallb (fun s => mem s (scan_empty_list fs s)) (filter (is_dir fs) items)).
  - apply in_app_or in Hx as [Hx|[<-|[]]]; [|now apply Hp].
    apply Hfound; [exact Hx|]. rewrite E. apply incl_appl, incl_refl.
  - apply Hfound; [exact Hx|]. rewrite E. apply incl_refl.
Qed.

(** What it means for [p] to be emitted by its own scan: [p] can be
    listed, none of its entries is a file, and each entry that is a
    directory is emitted by its own scan. *)
Lemma scan_self_emitted fs p :
  In p (scan_empty_list fs p) ->
  exists items,
    iterdir fs p = Ok items
    /\ (forall x, In x items -> is_file fs x = false)
    /\ (forall x, In x items -> is_dir fs x = true -> In x (scan_empty_list fs x)).
Proof.
  intros Hp. destruct (scan_empty_list_cases fs p) as [E|(items & Hit & E)].
  { rewrite E in Hp. destruct Hp. }
  exists items. split; [exact Hit|].
  rewrite E in Hp. cbv zeta in Hp.
  assert (Hnot : ~ In p (flat_map (scan_empty_list fs) (filter (is_dir fs) items))).
  { intros H. apply in_flat_map in H as (s & Hs & Hps).
    apply filter_In in Hs as [Hs _].
    destruct (item_is_child _ _ _ _ Hit Hs) as [a ->].
    apply scan_empty_list_below in Hps. now apply not_below_child in Hps. }
  destruct items as [|i items]; [split; intros x []|].
  cbn [is_nil] in Hp.
  destruct (existsb (is_file fs) (i :: items)) eqn:Hfiles; [contradiction|].
  destruct (forallb (fun s => mem s (scan_empty_list fs s))
              (filter (is_dir fs) (i :: items))) eqn:Hall; [|contradiction].
  split.
  - intros x Hx. apply not_true_is_false. intros Hf.
    assert (existsb (is_file fs) (i :: items) = true); [|congruence].
    apply existsb_exists. eauto.
  - intros x Hx Hd. rewrite forallb_forall in Hall. apply mem_In, Hall, filter_In. auto.
Qed.




(* ================================================================== *)
(** * [delete_empty_folders]: what it leaves alone *)

Lemma find_below_leaf n P m a t :
  find_node n P = Some m -> is_dir_node m = false -> find_node n (P ++ a :: t) = None.
Proof.
  intros H Hm. rewrite find_node_app, H. destruct m; [reflexivity|reflexivity|discriminate].
Qed.

Lemma find_above_is_dir n P a t m :
  find_node n (P ++ a :: t) = Some m -> exists r w es, find_node n P = Some (Dir r w es).
Proof.
  rewrite find_node_app. destruct (find_node n P) as [[c| |r w es]|]; try discriminate.
  eauto.
Qed.

(** The removal of an empty directory [p] leaves every node that is not a
    directory where it is. *)
Lemma remove_empty_keeps_leaves fs p F m :
  iterdir fs p = Ok [] -> node_at fs F = Some m -> is_dir_node m = false ->
  node_at (update fs p None) F = Some m.
Proof.
  intros Hp HF Hm. apply iterdir_nil in Hp as [w Hp].
  rewrite node_at_update_diverge; [exact HF|].
  unfold node_at in *.
  destruct (path_trichotomy (abs fs p) (abs fs F)) as [E|[(a & t & E)|[(a & t & E)|E]]].
  - rewrite E, HF in Hp. injection Hp as ->. discriminate.
  - rewrite E in HF. erewrite find_below_empty in HF by eauto. discriminate.
  - rewrite E in Hp. erewrite find_below_leaf in Hp by eauto. discriminate.
  - exact E.
Qed.

(** What a pass of removals leaves alone: the nodes that are not
    directories stay, nothing appears, and whatever disappears is a
    directory named by one of the paths of the pass. *)
Lemma prune_run_frame fs order fs' n errs :
  prune_run fs order fs' n errs ->
  (forall F m, node_at fs F = Some m -> is_dir_node m = false -> node_at fs' F = Some m)
  /\ (forall Q, node_at fs Q = None -> node_at fs' Q = None)
  /\ (forall Q, exists_ fs Q = true -> exists_ fs' Q = false ->
        is_dir fs Q = true /\ exists p, In p order /\ abs fs p = abs fs Q).
Proof.
  induction 1 as [fs|fs p rest fs' n errs Hex Hd Hit Hrun IH
                  |fs p rest fs' n errs Hno Hrun IH
                  |fs p rest fs' n errs Hex Hd Hne Hrun IH
                  |fs p rest fs' n errs e Hex Hd Hit Hr Hrun IH].
  - split; [auto|]. split; [auto|]. intros Q H1 H2. congruence.
  - destruct IH as (IHleaf & IHnone & IHgone).
    split; [|split].
    + intros F m HF Hm. apply IHleaf; [|exact Hm].
      now apply remove_empty_keeps_leaves.
    + intros Q HQ. apply IHnone. rewrite node_at_update. now apply find_set_none.
    + intros Q HQ HQ'.
      destruct (exists_ (update fs p None) Q) eqn:Hmid.
      * destruct (IHgone Q Hmid HQ') as (Hdir & p' & Hp' & E).
        split; [|exists p'; split; [now right|exact E]].
        unfold is_dir in *. unfold exists_ in HQ.
        destruct (node_at fs Q) as [m|] eqn:Hm; [|discriminate].
        destruct m as [c| |r w es]; [| |reflexivity].
        -- rewrite (remove_empty_keeps_leaves fs p Q (File c)) in Hdir; auto.
        -- rewrite (remove_empty_keeps_leaves fs p Q Special) in Hdir; auto.
      * apply exists_false_None in Hmid. rewrite node_at_update in Hmid.
        destruct (iterdir_nil _ _ Hit) as [w Hp]. unfold exists_ in HQ.
        destruct (node_at fs Q) as [m|] eqn:Hm; [|discriminate].
        unfold node_at in Hm, Hp.
        destruct (path_trichotomy (abs fs p) (abs fs Q))
          as [E|[(a & t & E)|[(a & t & E)|E]]].
        -- split; [|exists p; split; [now left|exact E]].
           unfold is_dir, node_at. rewrite <- E, Hp. reflexivity.
        -- rewrite E in Hm. erewrite find_below_empty in Hm by eauto. discriminate.
        -- rewrite E in Hp. destruct (find_above_is_dir _ _ _ _ _ Hp) as (r0 & w0 & es0 & HQd).
           destruct (find_set_above None a t (abs fs Q) (tree fs) r0 w0 es0 HQd) as [es' H'].
           rewrite E, H' in Hmid. discriminate.
        -- rewrite find_set_diverge in Hmid by exact E. congruence.
  - destruct IH as (IHleaf & IHnone & IHgone). split; [auto|]. split; [auto|].
    intros Q HQ HQ'. destruct (IHgone Q HQ HQ') as (Hdir & p' & Hp' & E).
    split; [exact Hdir|]. exists p'. split; [now right|exact E].
  - destruct IH as (IHleaf & IHnone & IHgone). split; [auto|]. split; [auto|].
    intros Q HQ HQ'. destruct (IHgone Q HQ HQ') as (Hdir & p' & Hp' & E).
    split; [exact Hdir|]. exists p'. split; [now right|exact E].
  - destruct IH as (IHleaf & IHnone & IHgone). split; [auto|]. split; [auto|].
    intros Q HQ HQ'. destruct (IHgone Q HQ HQ') as (Hdir & p' & Hp' & E).
    split; [exact Hdir|]. exists p'. split; [now right|exact E].
Qed.

(** X4. [delete_empty_folders] removes no file and creates nothing: every
    node that is not a directory is still there afterwards, so is every
    directory that holds a file, and no path comes into existence. *)
Theorem delete_empty_folders_keeps_files folder_paths fs :
  exists success errs fs',
    delete_empty_folders folder_paths fs = (Ok (success, errs), fs')
    /\ (forall F m, node_at fs F = Some m -> is_dir_node m = false ->
                    node_at fs' F = Some m)
    /\ (forall D t c, t <> [] -> node_at fs (extend D t) = Some (File c) ->
                      is_dir fs' D = true)
    /\ (forall Q, exists_ fs Q = false -> exists_ fs' Q = false).
Proof.
  destruct (delete_loop_run (sorted parts_len true folder_paths) fs 0 [])
    as (fs' & n & errs & Hloop & Hrun & _).
  destruct (prune_run_frame _ _ _ _ _ Hrun) as (Hleaf & Hnone & _).
  exists n, errs, fs'. split; [|split; [exact Hleaf|split]].
  - unfold delete_empty_folders. cbv zeta. now rewrite Hloop.
  - intros D t c Ht HF. apply (above_file_is_dir fs' D t c Ht).
    now apply Hleaf.
  - intros Q HQ. apply exists_false_None in HQ. unfold exists_. now rewrite Hnone.
Qed.

(** X5. Whatever [delete_empty_folders] makes disappear was a directory at
    the place one of the input paths names. *)
Theorem delete_empty_folders_removes_input_only folder_paths fs :
  exists success errs fs',
    delete_empty_folders folder_paths fs = (Ok (success, errs), fs')
    /\ forall Q, exists_ fs Q = true -> exists_ fs' Q = false ->
         is_dir fs Q = true
         /\ exists p, In p folder_paths /\ abs fs p = abs fs Q.
Proof.
  destruct (delete_loop_run (sorted parts_len true folder_paths) fs 0 [])
    as (fs' & n & errs & Hloop & Hrun & _).
  destruct (prune_run_frame _ _ _ _ _ Hrun) as (_ & _ & Hgone).
  exists n, errs, fs'. split.
  - unfold delete_empty_folders. cbv zeta. now rewrite Hloop.
  - intros Q HQ HQ'. destruct (Hgone Q HQ HQ') as (Hdir & p & Hp & E).
    split; [exact Hdir|]. exists p. split; [|exact E].
    eapply Permutation_in; [apply sorted_perm|exact Hp].
Qed.

(* ================================================================== *)
(** * [mkdir(parents=True, exist_ok=True)]: what it adds *)

Lemma find_set_entry_some r w a c' es b P :
  find_node (Dir r w (set_entry a (Some c') es)) (b :: P)
  = if String.eqb a b then find_node c' P else find_node (Dir r w es) (b :: P).
Proof.
  simpl. destruct (String.eqb_spec a b) as [->|Hab].
  - now rewrite assoc_set_entry_same.
  - now rewrite assoc_set_entry_other.
Qed.

Lemma fresh_dirs_find p : forall Q m,
  find_node (fresh_dirs p) Q = Some m -> is_dir_node m = true.
Proof.
  induction p as [|a p IH]; intros [|b Q] m; simpl.
  - now intros [= <-].
  - discriminate.
  - now intros [= <-].
  - destruct (String.eqb b a); [apply IH|discriminate].
Qed.

Lemma fresh_dirs_target p : find_node (fresh_dirs p) p = Some (Dir true true []).
Proof.
  induction p as [|a p IH]; simpl; [reflexivity|]. now rewrite String.eqb_refl.
Qed.

Lemma grows_refl t : grows t t.
Proof.
  split; [auto|]. split; [eauto|]. intros P m H1 H2. congruence.
Qed.

Lemma grows_trans t1 t2 t3 : grows t1 t2 -> grows t2 t3 -> grows t1 t3.
Proof.
  intros (A1 & B1 & C1) (A2 & B2 & C2). split; [|split].
  - intros P m H Hm. apply A2; auto.
  - intros P m H Hm. destruct (B1 P m H Hm) as (m' & H' & Hm'). eauto.
  - intros P m' H3 H1. destruct (find_node t2 P) as [m2|] eqn:H2.
    + pose proof (C1 P m2 H2 H1) as Hd. destruct (B2 P m2 H2 Hd) as (m3 & H3' & Hm3).
      congruence.
    + now apply (C2 P m').
Qed.

(** A successful [mkdir] leaves a directory at its path, and the tree it
    returns holds the old one and new directories only. *)
Lemma mkdir_node_grows shown p : forall k n n',
  mkdir_node shown k p n = Ok n' ->
  grows n n' /\ exists r w es, find_node n' p = Some (Dir r w es).
Proof.
  induction p as [|a p IH]; intros k n n' H; simpl in H.
  - destruct n as [c| |r w es]; try discriminate. injection H as <-.
    split; [apply grows_refl|]. simpl. eauto.
  - destruct n as [c| |r w es]; try discriminate.
    destruct (assoc a es) as [c|] eqn:Ha.
    + destruct (mkdir_node shown (S k) p c) as [c'|e|] eqn:Hc; try discriminate.
      simpl in H. injection H as <-.
      destruct (IH _ _ _ Hc) as ((A & B & C) & r' & w' & es' & Ht).
      split; [split; [|split]|].
      * intros [|b P] m Hf Hm.
        { injection Hf as <-. discriminate. }
        rewrite find_set_entry_some. destruct (String.eqb_spec a b) as [<-|Hab]; [|exact Hf].
        simpl in Hf. rewrite Ha in Hf. now apply A.
      * intros [|b P] m Hf Hm.
        { eexists. split; reflexivity. }
        rewrite find_set_entry_some. destruct (String.eqb_spec a b) as [<-|Hab]; [|eauto].
        simpl in Hf. rewrite Ha in Hf. now apply (B P m).
      * intros [|b P] m' Hf Hn; [discriminate|].
        rewrite find_set_entry_some in Hf.
        destruct (String.eqb_spec a b) as [<-|Hab]; [|congruence].
        simpl in Hn. rewrite Ha in Hn. now apply (C P m').
      * exists r', w', es'. rewrite find_set_entry_some, String.eqb_refl. exact Ht.
    + destruct w; [|discriminate]. injection H as <-.
      split; [split; [|split]|].
      * intros [|b P] m Hf Hm.
        { injection Hf as <-. discriminate. }
        rewrite find_set_entry_some. destruct (String.eqb_spec a b) as [<-|Hab]; [|exact Hf].
        simpl in Hf. rewrite Ha in Hf. discriminate.
      * intros [|b P] m Hf Hm.
        { eexists. split; reflexivity. }
        rewrite find_set_entry_some. destruct (String.eqb_spec a b) as [<-|Hab]; [|eauto].
        simpl in Hf. rewrite Ha in Hf. discriminate.
      * intros [|b P] m' Hf Hn; [discriminate|].
        rewrite find_set_entry_some in Hf.
        destruct (String.eqb_spec a b) as [<-|Hab]; [|congruence].
        now apply fresh_dirs_find in Hf.
      * exists true, true, []. rewrite find_set_entry_some, String.eqb_refl.
        apply fresh_dirs_target.
Qed.

Lemma mkdir_parents_grows p fs fs' :
  mkdir_parents p fs = (Ok tt, fs') ->
  cwd fs' = cwd fs /\ grows (tree fs) (tree fs') /\ is_dir fs' p = true.
Proof.
  unfold mkdir_parents.
  destruct (mkdir_node (shown_prefix fs p) 0 (abs fs p) (tree fs)) as [t|e|] eqn:H;
    try discriminate.
  intros [= <-]. destruct (mkdir_node_grows _ _ _ _ _ H) as (G & r & w & es & Ht).
  split; [reflexivity|]. split; [exact G|].
  unfold is_dir, node_at. simpl.
  replace (abs (set_tree fs t) p) with (abs fs p) by reflexivity. now rewrite Ht.
Qed.

(* ================================================================== *)
(** * [create_folder_structure]: what it adds and what it leaves *)

Lemma grows_node_at fs fs' :
  cwd fs' = cwd fs -> grows (tree fs) (tree fs') ->
  (forall Q m, node_at fs Q = Some m -> is_dir_node m = false -> node_at fs' Q = Some m)
  /\ (forall Q, is_dir fs Q = true -> is_dir fs' Q = true)
  /\ (forall Q, exists_ fs Q = false -> exists_ fs' Q = true -> is_dir fs' Q = true).
Proof.
  intros Hc (A & B & C).
  assert (Habs : forall Q, abs fs' Q = abs fs Q) by (intros Q; unfold abs; now rewrite Hc).
  unfold is_dir, exists_, node_at. split; [|split]; intros Q; rewrite Habs.
  - apply A.
  - destruct (find_node (tree fs) (abs fs Q)) as [m|] eqn:Hm; [|discriminate].
    intros Hd. destruct (B _ m Hm) as (m' & -> & Hm').
    + destruct m; [discriminate|discriminate|reflexivity].
    + destruct m'; [discriminate|discriminate|reflexivity].
  - destruct (find_node (tree fs) (abs fs Q)) as [m|] eqn:Hm; [discriminate|].
    destruct (find_node (tree fs') (abs fs Q)) as [m'|] eqn:Hm'; [|discriminate].
    intros _ _. pose proof (C _ m' Hm' Hm) as Hd.
    destruct m'; [discriminate|discriminate|reflexivity].
Qed.

Lemma create_one_grows source_paths destination_root source_path fs l r fs' l' :
  create_one source_paths destination_root source_path (fs, l) = (r, (fs', l')) ->
  cwd fs' = cwd fs /\ grows (tree fs) (tree fs').
Proof.
  unfold create_one, try_except. unfold bind at 1.
  assert (Hd :
    (exists d,
      (match source_paths with
       | first :: _ =>
           relative_path <- lift (relative_to source_path (parent first)) ;;
           ret (join destination_root relative_path)
       | [] => ret (child destination_root (name source_path))
       end : M create_locals Path) (fs, l) = (Ok d, (fs, l)))
    \/ (exists e,
      (match source_paths with
       | first :: _ =>
           relative_path <- lift (relative_to source_path (parent first)) ;;
           ret (join destination_root relative_path)
       | [] => ret (child destination_root (name source_path))
       end : M create_locals Path) (fs, l) = (Raise e, (fs, l)))).
  { destruct source_paths as [|first rest].
    - left. eexists. reflexivity.
    - unfold bind, lift, ret.
      destruct (relative_to source_path (parent first)) as [rel|e|] eqn:E.
      + left. eexists. reflexivity.
      + right. eexists. reflexivity.
      + unfold relative_to in E.
        destruct (root_eqb (root source_path) (root (parent first))
                  && is_prefix (segs (parent first)) (segs source_path)); discriminate. }
  destruct Hd as [[d ->]|[e ->]].
  - unfold bind, assign, syscall, locals. cbn [fst snd].
    destruct (mkdir_parents_cases d fs) as [(fs1 & H)|(e & H & He)]; rewrite H; cbn.
    + intros [= _ <- _]. apply mkdir_parents_grows in H as (Hc & G & _). now split.
    + rewrite He. cbn. intros [= _ <- _]. split; [reflexivity|apply grows_refl].
  - unfold bind, assign, locals, lift. destruct (is_OSError e); cbn [fst snd].
    + destruct (destination_path l); cbn; intros [= _ <- _];
        (split; [reflexivity|apply grows_refl]).
    + intros [= _ <- _]. split; [reflexivity|apply grows_refl].
Qed.

Lemma create_loop_grows source_paths destination_root order : forall fs l r fs' l',
  for_ order (create_one source_paths destination_root) (fs, l) = (r, (fs', l')) ->
  cwd fs' = cwd fs /\ grows (tree fs) (tree fs').
Proof.
  induction order as [|sp order IH]; intros fs l r fs' l'.
  - cbn. intros [= _ <- _]. split; [reflexivity|apply grows_refl].
  - cbn [for_]. unfold bind at 1.
    destruct (create_one source_paths destination_root sp (fs, l)) as [[u|e|] [fs1 l1]] eqn:E;
      apply create_one_grows in E as (Hc & G).
    + intros H. apply IH in H as (Hc2 & G2). split; [congruence|].
      eapply grows_trans; eassumption.
    + intros [= _ <- _]. now split.
    + intros [= _ <- _]. now split.
Qed.

(** X6. Whatever its outcome, [create_folder_structure] only adds
    directories: every node that is not a directory is left as it is,
    every directory is still a directory, and every path that comes into
    existence is a directory. *)
Theorem create_folder_structure_only_adds_directories source_paths destination_root fs :
  (forall Q m, node_at fs Q = Some m -> is_dir_node m = false ->
     node_at (snd (create_folder_structure source_paths destination_root fs)) Q = Some m)
  /\ (forall Q, is_dir fs Q = true ->
        is_dir (snd (create_folder_structure source_paths destination_root fs)) Q = true)
  /\ (forall Q, exists_ fs Q = false ->
        exists_ (snd (create_folder_structure source_paths destination_root fs)) Q = true ->
        is_dir (snd (create_folder_structure source_paths destination_root fs)) Q = true).
Proof.
  assert (H : cwd (snd (create_folder_structure source_paths destination_root fs)) = cwd fs
              /\ grows (tree fs)
                   (tree (snd (create_folder_structure source_paths destination_root fs)))).
  { unfold create_folder_structure.
    destruct (mkdir_parents_cases destination_root fs) as [(fs1 & H)|(e & H & He)]; rewrite H.
    - apply mkdir_parents_grows in H as (Hc & G & _). cbv zeta.
      destruct (for_ (sorted parts_len false source_paths)
                  (create_one source_paths destination_root)
                  (fs1, mkCreateLocals 0 [] None)) as [[u|e|] [fs2 l2]] eqn:E;
        apply create_loop_grows in E as (Hc2 & G2);
        cbn [fst snd] in *; (split; [congruence|eapply grows_trans; eassumption]).
    - rewrite He. cbn. split; [reflexivity|apply grows_refl]. }
  destruct H as (Hc & G). now apply grows_node_at.
Qed.

(* ================================================================== *)
(** * [scan_folder_structure] followed by [create_folder_structure] *)









Lemma rglob_extend fs source d :
  In d (rglob fs source) -> exists t, t <> [] /\ d = extend source t.
Proof.
  unfold rglob. destruct (node_at fs source) as [n|]; [|intros []].
  intros H. exact (rglob_node_below (height n) n source d (Nat.le_refl _) H).
Qed.

Lemma extend_nil p : extend p [] = p.
Proof. destruct p as [a s]. unfold extend. cbn. now rewrite app_nil_r. Qed.







(* ================================================================== *)
(** * [flatten_to_root]: the changes it makes to the tree *)

Lemma set_at_no_new_dir new :
  (forall x, new = Some x -> is_dir_node x = false) ->
  forall P n Q r w es,
    find_node (set_at P new n) Q = Some (Dir r w es) ->
    exists r0 w0 es0, find_node n Q = Some (Dir r0 w0 es0).
Proof.
  intros Hnew. induction P as [|a P IH]; intros n Q r w es H; [eauto|].
  destruct n as [c| |r1 w1 es1]; [eauto|eauto|].
  destruct Q as [|b Q]; [cbn; eauto|].
  destruct P as [|p0 P].
  - cbn [set_at find_node] in H. cbn [find_node].
    destruct (string_dec a b) as [->|Hab].
    + rewrite assoc_set_entry_same in H. destruct new as [x|]; [|discriminate].
      specialize (Hnew x eq_refl).
      destruct Q; cbn in H; [injection H as ->; discriminate|].
      destruct x; discriminate.
    + rewrite assoc_set_entry_other in H by exact Hab. eauto.
  - rewrite set_at_deeper in H by discriminate.
    destruct (assoc a es1) as [c0|] eqn:Ha; [|eauto].
    cbn [find_node] in H. cbn [find_node].
    destruct (string_dec a b) as [->|Hab].
    + rewrite assoc_set_entry_same in H. rewrite Ha. eapply IH; eauto.
    + rewrite assoc_set_entry_other in H by exact Hab. eauto.
Qed.

Lemma diverge_below R Q v : diverge R Q -> diverge (R ++ v) Q.
Proof.
  intros (c & a & b & P' & Q' & -> & -> & Hab).
  exists c, a, b, (P' ++ v), Q'. rewrite <- app_assoc. auto.
Qed.

(** A path that ends strictly below [Q] and one component below [R]
    makes [Q] a prefix of [R]. *)
Lemma prefix_of_parent (R Q : list string) y a t0 :
  R ++ [y] = Q ++ a :: t0 -> exists v, R = Q ++ v.
Proof.
  destruct t0 as [|z t0 _] using rev_ind; intros E.
  - apply app_inj_tail in E as [-> _]. exists []. now rewrite app_nil_r.
  - change (Q ++ a :: t0 ++ [z]) with (Q ++ (a :: t0) ++ [z]) in E.
    rewrite app_assoc in E. apply app_inj_tail in E as [-> _]. now exists (a :: t0).
Qed.

Lemma find_prefix_is_dir n Q v r w es :
  find_node n (Q ++ v) = Some (Dir r w es) ->
  exists r0 w0 es0, find_node n Q = Some (Dir r0 w0 es0).
Proof.
  destruct v as [|a v].
  - rewrite app_nil_r. eauto.
  - apply find_above_is_dir.
Qed.

Lemma frame_kept_refl R t r w es : find_node t R = Some (Dir r w es) -> frame_kept R t t.
Proof. intros H. split; [eauto|]. split; [eauto|]. split; auto. Qed.

Lemma frame_kept_trans R t1 t2 t3 :
  frame_kept R t1 t2 -> frame_kept R t2 t3 -> frame_kept R t1 t3.
Proof.
  intros (A1 & B1 & C1 & D1) (A2 & B2 & C2 & D2). split; [exact A2|]. split; [|split].
  - intros Q r w es H. destruct (B2 _ _ _ _ H) as (r0 & w0 & es0 & H0). eauto.
  - intros Q m H Hm Hn. apply C2; auto.
  - intros Q H. now rewrite D2, D1.
Qed.

Lemma content_kept_refl R t : content_kept R t t.
Proof. intros Q c H. now left. Qed.

Lemma content_kept_trans R t1 t2 t3 :
  content_kept R t1 t2 -> content_kept R t2 t3 -> content_kept R t1 t3.
Proof.
  intros H1 H2 Q c H. destruct (H1 Q c H) as [H'|[y H']].
  - apply (H2 Q c H').
  - right. destruct (H2 _ c H') as [H''|[y' H'']]; eauto.
Qed.

(** A node that is not a directory, put at a free name [y] of the
    directory [R]. *)
Lemma add_fresh_leaf t R y n r w es :
  find_node t R = Some (Dir r w es) -> find_node t (R ++ [y]) = None ->
  is_dir_node n = false ->
  find_node (set_at (R ++ [y]) (Some n) t) (R ++ [y]) = Some n
  /\ (forall Q m, find_node t Q = Some m -> is_dir_node m = false ->
        find_node (set_at (R ++ [y]) (Some n) t) Q = Some m)
  /\ frame_kept R t (set_at (R ++ [y]) (Some n) t).
Proof.
  intros HR HD Hn.
  assert (Hleaves : forall Q m, find_node t Q = Some m -> is_dir_node m = false ->
            find_node (set_at (R ++ [y]) (Some n) t) Q = Some m).
  { intros Q m HQ Hm.
    destruct (path_trichotomy (R ++ [y]) Q) as [E|[(a & t0 & E)|[(a & t0 & E)|E]]].
    - rewrite <- E, HD in HQ. discriminate.
    - rewrite E in HQ. erewrite find_below_missing in HQ by exact HD. discriminate.
    - apply prefix_of_parent in E as [v ->].
      destruct (find_prefix_is_dir _ _ _ _ _ _ HR) as (r0 & w0 & es0 & HQ').
      rewrite HQ' in HQ. injection HQ as <-. discriminate.
    - now rewrite find_set_diverge. }
  split; [eapply find_set_same; exact HR|]. split; [exact Hleaves|].
  split; [|split; [|split]].
  - destruct (find_set_above (Some n) y [] R t r w es HR) as [es' H']. eauto.
  - apply set_at_no_new_dir. now intros x [= <-].
  - intros Q m HQ Hm _. now apply Hleaves.
  - intros Q HQ. apply find_set_diverge. now apply diverge_below.
Qed.

(** The removal of a node that is not a directory and lies in a
    subdirectory of [R]. *)
Lemma remove_nested_leaf t R a b u n r w es :
  find_node t R = Some (Dir r w es) ->
  find_node t (R ++ a :: b :: u) = Some n -> is_dir_node n = false ->
  (forall Q m, Q <> R ++ a :: b :: u -> find_node t Q = Some m -> is_dir_node m = false ->
     find_node (set_at (R ++ a :: b :: u) None t) Q = Some m)
  /\ frame_kept R t (set_at (R ++ a :: b :: u) None t).
Proof.
  intros HR HS Hn.
  assert (Hleaves : forall Q m, Q <> R ++ a :: b :: u -> find_node t Q = Some m ->
            is_dir_node m = false ->
            find_node (set_at (R ++ a :: b :: u) None t) Q = Some m).
  { intros Q m Hne HQ Hm.
    destruct (path_trichotomy (R ++ a :: b :: u) Q) as [E|[(x & t0 & E)|[(x & t0 & E)|E]]].
    - congruence.
    - rewrite E in HQ. erewrite find_below_leaf in HQ by eauto. discriminate.
    - rewrite E in HS. erewrite find_below_leaf in HS by eauto. discriminate.
    - now rewrite find_set_diverge. }
  split; [exact Hleaves|]. split; [|split; [|split]].
  - destruct (find_set_above None a (b :: u) R t r w es HR) as [es' H']. eauto.
  - apply set_at_no_new_dir. discriminate.
  - intros Q m HQ Hm Hnn. apply Hleaves; auto.
  - intros Q HQ. apply find_set_diverge. now apply diverge_below.
Qed.

(** The removal of an empty directory below [R]. *)
Lemma remove_empty_dir t R a v r w es r1 w1 :
  find_node t R = Some (Dir r w es) ->
  find_node t (R ++ a :: v) = Some (Dir r1 w1 []) ->
  (forall Q m, find_node t Q = Some m -> is_dir_node m = false ->
     find_node (set_at (R ++ a :: v) None t) Q = Some m)
  /\ frame_kept R t (set_at (R ++ a :: v) None t).
Proof.
  intros HR HS.
  assert (Hleaves : forall Q m, find_node t Q = Some m -> is_dir_node m = false ->
            find_node (set_at (R ++ a :: v) None t) Q = Some m).
  { intros Q m HQ Hm.
    destruct (path_trichotomy (R ++ a :: v) Q) as [E|[(x & t0 & E)|[(x & t0 & E)|E]]].
    - rewrite E, HQ in HS. injection HS as ->. discriminate.
    - rewrite E in HQ. erewrite find_below_empty in HQ by eauto. discriminate.
    - rewrite E in HS. erewrite find_below_leaf in HS by eauto. discriminate.
    - now rewrite find_set_diverge. }
  split; [exact Hleaves|]. split; [|split; [|split]].
  - destruct (find_set_above None a v R t r w es HR) as [es' H']. eauto.
  - apply set_at_no_new_dir. discriminate.
  - intros Q m HQ Hm _. now apply Hleaves.
  - intros Q HQ. apply find_set_diverge. now apply diverge_below.
Qed.

Lemma nested_not_child (R : list string) a b u y : R ++ [y] <> R ++ a :: b :: u.
Proof. intros E. apply app_inv_head in E. discriminate. Qed.

(** The three ways a move changes the tree: the node [n] at the nested
    path is renamed to the free name [y] of [R], or copied there, or
    copied there and removed. *)
Lemma relocation_kept t R a b u y n r w es :
  find_node t R = Some (Dir r w es) ->
  find_node t (R ++ a :: b :: u) = Some n -> is_dir_node n = false ->
  find_node t (R ++ [y]) = None ->
  forall t',
    t' = set_at (R ++ [y]) (Some n) (set_at (R ++ a :: b :: u) None t)
    \/ t' = set_at (R ++ [y]) (Some n) t
    \/ t' = set_at (R ++ a :: b :: u) None (set_at (R ++ [y]) (Some n) t) ->
    frame_kept R t t' /\ content_kept R t t'.
Proof.
  intros HR HS Hn HD t' [ -> |[ -> | -> ]].
  - destruct (remove_nested_leaf t R a b u n r w es HR HS Hn) as (Hl1 & F1).
    pose proof F1 as ((r' & w' & es' & HR1) & _).
    pose proof (find_set_none (R ++ a :: b :: u) t _ HD) as HD1.
    destruct (add_fresh_leaf _ R y n r' w' es' HR1 HD1 Hn) as (Hat & Hl2 & F2).
    split; [eapply frame_kept_trans; eassumption|].
    intros Q c HQ. destruct (list_eq_dec string_dec Q (R ++ a :: b :: u)) as [->|Hne].
    + right. exists y. rewrite Hat. congruence.
    + left. apply Hl2; [|reflexivity]. now apply Hl1.
  - destruct (add_fresh_leaf t R y n r w es HR HD Hn) as (Hat & Hl & F).
    split; [exact F|]. intros Q c HQ. left. now apply Hl.
  - destruct (add_fresh_leaf t R y n r w es HR HD Hn) as (Hat & Hl & F).
    pose proof F as ((r' & w' & es' & HR1) & _).
    pose proof (Hl _ _ HS Hn) as HS1.
    destruct (remove_nested_leaf _ R a b u n r' w' es' HR1 HS1 Hn) as (Hl2 & F2).
    split; [eapply frame_kept_trans; eassumption|].
    intros Q c HQ. destruct (list_eq_dec string_dec Q (R ++ a :: b :: u)) as [->|Hne].
    + right. exists y. assert (n = File c) as -> by congruence.
      apply Hl2; [apply nested_not_child|exact Hat|reflexivity].
    + left. apply Hl2; [exact Hne| |reflexivity]. now apply Hl.
Qed.

(* ================================================================== *)
(** * [flatten_to_root]: the two loops *)

Lemma tree_update fs P new : tree (update fs P new) = set_at (abs fs P) new (tree fs).
Proof. reflexivity. Qed.

Lemma abs_update fs P new Q : abs (update fs P new) Q = abs fs Q.
Proof. reflexivity. Qed.

Lemma abs_same_cwd fs fs' Q : cwd fs' = cwd fs -> abs fs' Q = abs fs Q.
Proof. intros H. unfold abs. now rewrite H. Qed.

Lemma is_dir_node_at fs p :
  is_dir fs p = true <-> exists r w es, find_node (tree fs) (abs fs p) = Some (Dir r w es).
Proof.
  unfold is_dir, node_at. split.
  - destruct (find_node (tree fs) (abs fs p)) as [[c| |r w es]|]; try discriminate. eauto.
  - intros (r & w & es & ->). reflexivity.
Qed.

Lemma flattening_refl fs root_path : is_dir fs root_path = true -> flattening fs root_path fs.
Proof.
  intros H. apply is_dir_node_at in H as (r & w & es & H).
  split; [reflexivity|]. split; [eapply frame_kept_refl; eauto|apply content_kept_refl].
Qed.

Lemma flattening_trans fs1 fs2 fs3 root_path :
  flattening fs1 root_path fs2 -> flattening fs2 root_path fs3 ->
  flattening fs1 root_path fs3.
Proof.
  intros (C1 & F1 & K1) (C2 & F2 & K2).
  rewrite (abs_same_cwd fs1 fs2 root_path C1) in F2, K2.
  split; [congruence|]. split.
  - eapply frame_kept_trans; eassumption.
  - eapply content_kept_trans; eassumption.
Qed.

Lemma flattening_root fs root_path fs' :
  flattening fs root_path fs' -> is_dir fs' root_path = true.
Proof.
  intros (C & ((r & w & es & H) & _) & _). apply is_dir_node_at.
  rewrite (abs_same_cwd fs fs' root_path C). eauto.
Qed.

Lemma flattening_not_dir fs root_path fs' p :
  flattening fs root_path fs' -> is_dir fs p = false -> is_dir fs' p = false.
Proof.
  intros (C & (_ & H & _) & _) Hp. destruct (is_dir fs' p) eqn:E; [|reflexivity].
  apply is_dir_node_at in E as (r & w & es & E).
  rewrite (abs_same_cwd fs fs' p C) in E.
  destruct (H _ _ _ _ E) as (r0 & w0 & es0 & E0).
  assert (is_dir fs p = true) by (apply is_dir_node_at; eauto). congruence.
Qed.

(** The end of a round of the first loop, for a free destination
    [root_path / x] and a source that is not a directory. *)
Lemma move_tail_step root_path a b u x fs res :
  is_dir fs root_path = true ->
  is_dir fs (extend root_path (a :: b :: u)) = false ->
  exists_ fs (child root_path x) = false ->
  exists r fs' res',
    (syscall (mkdir_parents (parent (child root_path x))) ;;;
     syscall (shutil_move (extend root_path (a :: b :: u)) (child root_path x)) ;;;
     assign (record_move (extend root_path (a :: b :: u)) (child root_path x)))
      (fs, res)
    = (r, (fs', res'))
    /\ ((r = Ok tt
         /\ res' = record_move (extend root_path (a :: b :: u)) (child root_path x) res)
        \/ (exists e, r = Raise e /\ is_OSError e = true /\ res' = res))
    /\ flattening fs root_path fs'.
Proof.
  intros Hroot Hsrc Hfree. set (src := extend root_path (a :: b :: u)) in *.
  unfold bind, syscall. cbn [fst snd]. rewrite parent_child.
  rewrite mkdir_parents_existing by exact Hroot. cbn [fst snd].
  pose proof (exists_false_None _ _ Hfree) as Hnone.
  destruct (shutil_move_effect src (child root_path x) fs) as (r & fs' & -> & Hr & Hfs).
  { unfold is_dir. now rewrite Hnone. }
  assert (Hflat : flattening fs root_path fs').
  { destruct Hfs as [ -> |(n & Hn & Hfs)]; [now apply flattening_refl|].
    assert (Hleaf : is_dir_node n = false).
    { unfold is_dir in Hsrc. rewrite Hn in Hsrc. now destruct n. }
    apply is_dir_node_at in Hroot as (r0 & w0 & es0 & HR).
    unfold node_at in Hn, Hnone. unfold src in Hn.
    rewrite abs_extend in Hn. rewrite abs_child in Hnone.
    split; [destruct Hfs as [ -> |[ -> | -> ]]; reflexivity|].
    apply (relocation_kept (tree fs) (abs fs root_path) a b u x n r0 w0 es0 HR Hn Hleaf Hnone).
    destruct Hfs as [ -> |[ -> | -> ]]; unfold src;
      rewrite ?tree_update, ?abs_update, ?abs_extend, ?abs_child; auto. }
  destruct Hr as [ -> |(e & -> & He)].
  - eexists _, _, _. split; [reflexivity|]. split; [now left|exact Hflat].
  - eexists _, _, _. split; [reflexivity|]. split; [right; eauto|exact Hflat].
Qed.

(** One round of the first loop, for a source that is not a directory
    and lies in a subdirectory of the root: the round returns after a
    move, a skip or an error. *)
Lemma move_one_step root_path conflict_mode a b u fs res :
  is_dir fs root_path = true ->
  is_dir fs (extend root_path (a :: b :: u)) = false ->
  exists fs' res',
    move_one root_path conflict_mode (extend root_path (a :: b :: u)) (fs, res)
    = (Ok tt, (fs', res'))
    /\ flattening fs root_path fs'
    /\ ((exists dest, res' = record_move (extend root_path (a :: b :: u)) dest res)
        \/ (conflict_mode = "skip" /\ res' = count_skipped res)
        \/ (exists msg, res' = append_flatten_error msg res)).
Proof.
  intros Hroot Hsrc. set (src := extend root_path (a :: b :: u)) in *.
  unfold move_one, try_except, bind at 1, query. cbn [fst snd].
  destruct (exists_ fs (child root_path (name src))) eqn:Hc; cbn [andb].
  - destruct (String.eqb_spec conflict_mode "skip") as [Hmode|Hmode].
    { eexists _, _. split; [reflexivity|]. split; [now apply flattening_refl|].
      right; left. split; [exact Hmode|reflexivity]. }
    destruct (unique_destination_least fs root_path (name src) Hc)
      as (n & _ & Hun & Hfree & _).
    unfold bind at 1. cbn [fst]. rewrite Hun.
    destruct (move_tail_step root_path a b u _ fs res Hroot Hsrc Hfree)
      as (r & fs' & res' & Ht & Hr & Hflat).
    fold src in Ht, Hr. rewrite Ht.
    destruct Hr as [[-> ->]|(e & -> & He & ->)].
    + eexists _, _. split; [reflexivity|]. split; [exact Hflat|]. left. eauto.
    + rewrite He. eexists _, _. split; [reflexivity|]. split; [exact Hflat|].
      right; right. eauto.
  - unfold bind at 1, ret.
    destruct (move_tail_step root_path a b u _ fs res Hroot Hsrc Hc)
      as (r & fs' & res' & Ht & Hr & Hflat).
    fold src in Ht, Hr. rewrite Ht.
    destruct Hr as [[-> ->]|(e & -> & He & ->)].
    + eexists _, _. split; [reflexivity|]. split; [exact Hflat|]. left. eauto.
    + rewrite He. eexists _, _. split; [reflexivity|]. split; [exact Hflat|].
      right; right. eauto.
Qed.

Lemma move_loop_step root_path conflict_mode files : forall fs res,
  is_dir fs root_path = true ->
  (forall src, In src files ->
     (exists a b u, src = extend root_path (a :: b :: u)) /\ is_dir fs src = false) ->
  exists fs' res',
    for_ files (move_one root_path conflict_mode) (fs, res) = (Ok tt, (fs', res'))
    /\ flattening fs root_path fs'
    /\ moved res' + List.length (moves res) = moved res + List.length (moves res')
    /\ moved res' + skipped_conflicts res' + List.length (errors res')
       = List.length files + (moved res + skipped_conflicts res + List.length (errors res))
    /\ (conflict_mode <> "skip" -> skipped_conflicts res' = skipped_conflicts res)
    /\ removed_folders res' = removed_folders res.
Proof.
  induction files as [|src files IH]; intros fs res Hroot Hfiles.
  - exists fs, res. split; [reflexivity|]. split; [now apply flattening_refl|].
    cbn. repeat split; lia.
  - destruct (Hfiles src (or_introl eq_refl)) as ((a & b & u & ->) & Hsrc).
    destruct (move_one_step root_path conflict_mode a b u fs res Hroot Hsrc)
      as (fs1 & res1 & H1 & Hflat1 & Hres1).
    destruct (IH fs1 res1) as (fs2 & res2 & H2 & Hflat2 & Hmv & Hsum & Hskip & Hrm).
    { eapply flattening_root; eassumption. }
    { intros s Hs. destruct (Hfiles s (or_intror Hs)) as (Hshape & Hnd).
      split; [exact Hshape|]. eapply flattening_not_dir; eassumption. }
    exists fs2, res2. cbn [for_]. unfold bind at 1. rewrite H1.
    split; [exact H2|]. split; [eapply flattening_trans; eassumption|].
    cbn [List.length].
    destruct Hres1 as [(dest & ->)|[(Hmode & ->)|(msg & ->)]]; cbn in *;
      rewrite ?length_app in *; cbn in *.
    + repeat split; try lia. intros Hm. now rewrite Hskip.
    + repeat split; try lia. intros Hm. congruence.
    + repeat split; try lia. intros Hm. now rewrite Hskip.
Qed.

(** One round of the second loop, for a path below the root. *)
Lemma prune_one_flat root_path a v fs res :
  is_dir fs root_path = true ->
  exists fs' res',
    prune_one (extend root_path (a :: v)) (fs, res) = (Ok tt, (fs', res'))
    /\ flattening fs root_path fs'
    /\ moved res' = moved res /\ skipped_conflicts res' = skipped_conflicts res
    /\ moves res' = moves res
    /\ List.length (errors res) <= List.length (errors res').
Proof.
  intros Hroot. set (d := extend root_path (a :: v)).
  unfold prune_one, try_except, bind, query, syscall, assign, ret. cbn [fst snd].
  destruct (is_folder_empty fs d) eqn:Hem.
  2:{ exists fs, res. split; [reflexivity|]. split; [now apply flattening_refl|].
      repeat split; lia. }
  apply is_folder_empty_true in Hem. apply iterdir_nil in Hem as [w Hd].
  cbn [fst snd]. destruct (os_rmdir_cases d fs) as [ -> |(e & -> & He)].
  - eexists _, _. split; [reflexivity|]. cbn. split; [|repeat split; lia].
    apply is_dir_node_at in Hroot as (r0 & w0 & es0 & HR).
    unfold node_at, d in Hd. rewrite abs_extend in Hd.
    destruct (remove_empty_dir (tree fs) (abs fs root_path) a v r0 w0 es0 true w HR Hd)
      as (Hl & F).
    split; [reflexivity|]. unfold d. rewrite tree_update, abs_extend. split; [exact F|].
    intros Q c HQ. left. now apply Hl.
  - rewrite He. eexists _, _. split; [reflexivity|]. cbn.
    split; [now apply flattening_refl|]. rewrite length_app. cbn. repeat split; lia.
Qed.

Lemma prune_loop_flat root_path dirs : forall fs res,
  is_dir fs root_path = true ->
  (forall d, In d dirs -> exists a v, d = extend root_path (a :: v)) ->
  exists fs' res',
    for_ dirs prune_one (fs, res) = (Ok tt, (fs', res'))
    /\ flattening fs root_path fs'
    /\ moved res' = moved res /\ skipped_conflicts res' = skipped_conflicts res
    /\ moves res' = moves res
    /\ List.length (errors res) <= List.length (errors res').
Proof.
  induction dirs as [|d dirs IH]; intros fs res Hroot Hdirs.
  - exists fs, res. split; [reflexivity|]. split; [now apply flattening_refl|].
    repeat split; lia.
  - destruct (Hdirs d (or_introl eq_refl)) as (a & v & ->).
    destruct (prune_one_flat root_path a v fs res Hroot)
      as (fs1 & res1 & H1 & Hflat1 & Hm1 & Hs1 & Hmv1 & He1).
    destruct (IH fs1 res1) as (fs2 & res2 & H2 & Hflat2 & Hm2 & Hs2 & Hmv2 & He2).
    { eapply flattening_root; eassumption. }
    { intros; apply Hdirs; now right. }
    exists fs2, res2. cbn [for_]. unfold bind at 1. rewrite H1.
    split; [exact H2|]. split; [eapply flattening_trans; eassumption|].
    repeat split; try congruence; lia.
Qed.


(* ================================================================== *)
(** * [flatten_to_root]: the whole run *)

Lemma flatten_to_root_invalid root_path conflict_mode fs :
  is_dir fs root_path = false ->
  flatten_to_root root_path conflict_mode fs
  = (Ok (mkFlattenResult 0 0 0 ["Invalid root folder: " +++ str root_path] []), fs).
Proof.
  intros H. unfold flatten_to_root. rewrite H. now rewrite Bool.orb_true_r.
Qed.





(* ================================================================== *)
(** * Trees without repeated names *)

Lemma distinct_NoDup l : distinct l = true -> NoDup l.
Proof.
  induction l as [|a l IH]; simpl; [constructor|].
  intros H. apply andb_prop in H as [Ha Hl]. constructor; [|auto].
  intros Hin. apply Bool.negb_true_iff in Ha.
  assert (existsb (String.eqb a) l = true); [|congruence].
  apply existsb_exists. exists a. split; [exact Hin|apply String.eqb_refl].
Qed.

Lemma well_formed_entry r w es a c :
  well_formed (Dir r w es) = true -> In (a, c) es -> well_formed c = true.
Proof.
  cbn [well_formed]. intros H Hin. apply andb_prop in H as [_ H].
  rewrite forallb_forall in H. exact (H (a, c) Hin).
Qed.

Lemma well_formed_find n : forall P m,
  well_formed n = true -> find_node n P = Some m -> well_formed m = true.
Proof.
  intros P. revert n. induction P as [|a P IH]; intros n m Hn H; simpl in H.
  - now injection H as <-.
  - destruct n as [c| |r w es]; try discriminate.
    destruct (assoc a es) as [c|] eqn:Ha; [|discriminate].
    apply (IH c); [|exact H]. eapply well_formed_entry; [exact Hn|].
    apply assoc_In. exact Ha.
Qed.

Lemma well_formed_names fs p r w es :
  well_formed (tree fs) = true -> node_at fs p = Some (Dir r w es) ->
  NoDup (map fst es).
Proof.
  intros Hwf Hn. apply (well_formed_find _ _ _ Hwf) in Hn.
  cbn [well_formed] in Hn. apply andb_prop in Hn as [Hn _]. now apply distinct_NoDup.
Qed.

(** In a directory without repeated names an entry is found under its
    name. *)
Lemma assoc_unique a c es : NoDup (map fst es) -> In (a, c) es -> assoc a es = Some c.
Proof.
  induction es as [|[b d] es IH]; intros Hnd Hin; [destruct Hin|].
  cbn [map fst] in Hnd. apply NoDup_cons_iff in Hnd as [Hb Hnd].
  cbn [assoc]. destruct Hin as [[= -> ->]|Hin].
  - now rewrite String.eqb_refl.
  - destruct (String.eqb_spec a b) as [->|_]; [|auto].
    exfalso. apply Hb. apply in_map_iff. now exists (b, c).
Qed.

Lemma child_inj p a b : child p a = child p b -> a = b.
Proof.
  unfold child. intros [= H]. apply app_inv_head in H. now injection H.
Qed.

Lemma iterdir_NoDup fs p items :
  well_formed (tree fs) = true -> iterdir fs p = Ok items -> NoDup items.
Proof.
  intros Hwf Hit. apply iterdir_Ok in Hit as (w & es & Hn & ->).
  rewrite <- (map_map fst (child p)). apply NoDup_map_injective.
  - apply child_inj.
  - eapply well_formed_names; eauto.
Qed.

Lemma NoDup_flat_map {A B : Type} (f : A -> list B) l :
  NoDup l -> (forall x, In x l -> NoDup (f x)) ->
  (forall x y b, In x l -> In y l -> In b (f x) -> In b (f y) -> x = y) ->
  NoDup (flat_map f l).
Proof.
  induction 1 as [|x l Hx Hl IH]; intros Hf Hdisj; simpl; [constructor|].
  apply NoDup_app.
  - apply Hf. now left.
  - apply IH; [intros; apply Hf; now right|].
    intros y z b Hy Hz. apply Hdisj; now right.
  - intros b Hb Hin. apply in_flat_map in Hin as (y & Hy & Hby).
    assert (x = y) by (apply (Hdisj x y b); auto; [now left|now right]).
    now subst.
Qed.

Lemma below_children_same p a b x : below (child p a) x -> below (child p b) x -> a = b.
Proof.
  intros [_ [t1 H1]] [_ [t2 H2]]. rewrite H1 in H2. cbn [child segs] in H2.
  rewrite <- !app_assoc in H2. apply app_inv_head in H2. now injection H2.
Qed.

(* ================================================================== *)
(** * [scan_empty_folder_structure]: no path is emitted twice *)

Lemma scan_found_not_self fs p items :
  iterdir fs p = Ok items ->
  ~ In p (flat_map (scan_empty_list fs) (filter (is_dir fs) items)).
Proof.
  intros Hit H. apply in_flat_map in H as (s & Hs & Hps).
  apply filter_In in Hs as [Hs _].
  destruct (item_is_child _ _ _ _ Hit Hs) as [a ->].
  apply scan_empty_list_below in Hps. now apply not_below_child in Hps.
Qed.

Lemma scan_NoDup fs h :
  well_formed (tree fs) = true ->
  forall p, height_at fs p < h -> NoDup (scan_empty_list fs p).
Proof.
  intros Hwf. induction h as [|h IH]; intros p Hh; [lia|].
  destruct (scan_empty_list_cases fs p) as [E|(items & Hit & E)].
  { rewrite E. constructor. }
  cbv zeta in E. rewrite E.
  assert (Hfound : NoDup (flat_map (scan_empty_list fs) (filter (is_dir fs) items))).
  { apply NoDup_flat_map.
    - apply NoDup_filter. eapply iterdir_NoDup; eauto.
    - intros s Hs. apply IH. apply filter_In in Hs as [Hs _].
      pose proof (height_at_item _ _ _ _ Hit Hs). lia.
    - intros s1 s2 x Hs1 Hs2 H1 H2.
      apply filter_In in Hs1 as [Hs1 _]. apply filter_In in Hs2 as [Hs2 _].
      destruct (item_is_child _ _ _ _ Hit Hs1) as [a1 ->].
      destruct (item_is_child _ _ _ _ Hit Hs2) as [a2 ->].
      apply scan_empty_list_below in H1, H2.
      now rewrite (below_children_same p a1 a2 x). }
  destruct (is_nil items); [repeat constructor; intros []|].
  destruct (existsb (is_file fs) items); [exact Hfound|].
  destruct (forallb (fun s => mem s (scan_empty_list fs s)) (filter (is_dir fs) items));
    [|exact Hfound].
  apply NoDup_app; [exact Hfound|repeat constructor; intros []|].
  intros x Hx [<-|[]]. now apply (scan_found_not_self fs p items Hit).
Qed.

(* ================================================================== *)
(** * [scan_empty_folder_structure] followed by [delete_empty_folders] *)

Lemma parts_len_child p a : parts_len (child p a) = S (parts_len p).
Proof.
  unfold parts_len, child, anchored. cbn [root segs]. rewrite length_app. cbn.
  destruct (root p); lia.
Qed.

Lemma child_not_self p a : child p a <> p.
Proof.
  intros H. apply (f_equal parts_len) in H. rewrite parts_len_child in H. lia.
Qed.

(** The deepest directory of a list that is [ready] is empty. *)
Lemma ready_head_empty fs x rest :
  ready fs (x :: rest) -> exists w, node_at fs x = Some (Dir true w []).
Proof.
  intros (Hnd & Hsort & Hdirs & Hclosed & _).
  destruct (Hdirs x (or_introl eq_refl)) as ((w & es & Hx) & _).
  destruct es as [|[a c] es]; [eauto|]. exfalso.
  assert (Hin : In (child x a) (x :: rest)).
  { apply Hclosed; [now left|]. rewrite node_at_child, Hx. cbn [assoc].
    rewrite String.eqb_refl. discriminate. }
  destruct Hin as [Hin|Hin]; [symmetry in Hin; now apply child_not_self in Hin|].
  apply StronglySorted_inv in Hsort as [_ Hall]. rewrite Forall_forall in Hall.
  specialize (Hall _ Hin). rewrite parts_len_child in Hall. lia.
Qed.

(** Once the deepest directory is removed the rest of the list is
    [ready]. *)
Lemma ready_tail fs x rest :
  ready fs (x :: rest) -> ready (update fs x None) rest.
Proof.
  intros Hready. destruct (ready_head_empty _ _ _ Hready) as [wx Hx].
  destruct Hready as (Hnd & Hsort & Hdirs & Hclosed & Hinj).
  apply NoDup_cons_iff in Hnd as [Hnotin Hnd].
  apply StronglySorted_inv in Hsort as [Hsort _].
  destruct (Hdirs x (or_introl eq_refl)) as (_ & Hxs & Hxw).
  pose proof (abs_not_nil fs x Hxs) as Hxne.
  assert (Hdiff : forall y, In y rest -> abs fs x <> abs fs y).
  { intros y Hy E. apply Hnotin. rewrite (Hinj x y); auto; [now left|now right]. }
  unfold node_at in Hx.
  split; [exact Hnd|]. split; [exact Hsort|]. split; [|split].
  - intros y Hy. destruct (Hdirs y (or_intror Hy)) as ((w & es & Hn) & Hs & Hw).
    pose proof (abs_not_nil fs y Hs) as Hne.
    unfold node_at in Hn. split; [|split; [exact Hs|]].
    + rewrite node_at_update.
      destruct (path_trichotomy (abs fs x) (abs fs y)) as [E|[(a & t & E)|[(a & t & E)|E]]].
      * now apply Hdiff in E.
      * rewrite E in Hn. erewrite find_below_empty in Hn by exact Hx. discriminate.
      * rewrite E. destruct (find_set_above None a t _ _ _ _ _ Hn) as [es' H']. eauto.
      * rewrite find_set_diverge by exact E. eauto.
    + unfold parent_writable in *. rewrite tree_update, abs_update.
      destruct (find_node (tree fs) (removelast (abs fs y))) as [[c| |r [|] es0]|] eqn:Hp;
        try discriminate.
      destruct (path_trichotomy (abs fs x) (removelast (abs fs y)))
        as [E|[(a & t & E)|[(a & t & E)|E]]].
      * exfalso. rewrite (app_removelast_last "" Hne), <- E in Hn.
        erewrite find_below_empty in Hn by exact Hx. discriminate.
      * rewrite E in Hp. erewrite find_below_empty in Hp by exact Hx. discriminate.
      * rewrite E. destruct (find_set_above None a t _ _ _ _ _ Hp) as [es' H'].
        now rewrite H'.
      * rewrite find_set_diverge by exact E. now rewrite Hp.
  - intros y a Hy Hc.
    assert (Hc0 : node_at fs (child y a) <> None).
    { intros H. apply Hc. rewrite node_at_update. now apply find_set_none. }
    destruct (Hclosed y a (or_intror Hy) Hc0) as [E|Hin]; [|exact Hin].
    exfalso. apply Hc. rewrite <- E. apply node_at_update_self; [exact Hxne|].
    now apply parent_writable_dir.
  - intros y z Hy Hz. rewrite !abs_update. apply Hinj; now right.
Qed.

Lemma delete_loop_all rest : forall fs n errs,
  ready fs rest ->
  exists fs',
    for_ rest delete_one (fs, (n, errs)) = (Ok tt, (fs', (n + List.length rest, errs)))
    /\ (forall Q, node_at fs Q = None -> node_at fs' Q = None)
    /\ (forall y, In y rest -> node_at fs' y = None).
Proof.
  induction rest as [|x rest IH]; intros fs n errs Hready.
  - exists fs. cbn. rewrite Nat.add_0_r. split; [reflexivity|]. split; [auto|intros y []].
  - destruct (ready_head_empty _ _ _ Hready) as [wx Hx].
    pose proof Hready as (_ & _ & Hdirs & _).
    destruct (Hdirs x (or_introl eq_refl)) as (_ & Hxs & Hxw).
    pose proof (abs_not_nil fs x Hxs) as Hxne.
    assert (Hrm : os_rmdir x fs = (Ok tt, update fs x None))
      by (eapply os_rmdir_empty; eauto).
    assert (Hit : iterdir fs x = Ok []) by (unfold iterdir; now rewrite Hx).
    assert (Hstep : delete_one x (fs, (n, errs)) = (Ok tt, (update fs x None, (n + 1, errs)))).
    { destruct (delete_one_cases x fs n errs)
        as [(_ & _ & _ & H)|[(Hno & _)|[(_ & _ & Hne & _)|(e & _ & _ & _ & Hr & _)]]].
      - exact H.
      - unfold exists_, is_dir in Hno. rewrite Hx in Hno. discriminate.
      - apply is_folder_empty_true in Hit. congruence.
      - congruence. }
    destruct (IH (update fs x None) (n + 1) errs (ready_tail _ _ _ Hready))
      as (fs' & Hloop & Hnone & Hgone).
    exists fs'. cbn [for_]. unfold bind at 1. rewrite Hstep, Hloop.
    split; [do 3 f_equal; cbn [List.length]; lia|]. split.
    + intros Q HQ. apply Hnone. rewrite node_at_update. now apply find_set_none.
    + intros y [<-|Hy]; [|now apply Hgone].
      apply Hnone. apply node_at_update_self; [exact Hxne|].
      now apply parent_writable_dir.
Qed.

(** A directory emitted by its own scan has its subdirectories in the
    result. *)
Lemma scan_children_emitted fs y a :
  In y (scan_empty_list fs y) -> is_dir fs (child y a) = true ->
  In (child y a) (scan_empty_list fs y).
Proof.
  intros Hy Hd. destruct (scan_self_emitted fs y Hy) as (items & Hit & _ & Hsub).
  assert (Hitem : In (child y a) items).
  { destruct (iterdir_Ok _ _ _ Hit) as (w & es & Hn & ->).
    unfold is_dir in Hd. rewrite node_at_child, Hn in Hd.
    destruct (assoc a es) as [c|] eqn:Ha; [|discriminate].
    apply in_map_iff. exists (a, c). split; [reflexivity|now apply assoc_In]. }
  assert (Hfound : In (child y a)
                     (flat_map (scan_empty_list fs) (filter (is_dir fs) items))).
  { apply in_flat_map. exists (child y a). split; [now apply filter_In|now apply Hsub]. }
  destruct (scan_empty_list_cases fs y) as [E|(items' & Hit' & E)].
  { rewrite E in Hy. destruct Hy. }
  assert (items' = items) as -> by congruence.
  rewrite E. cbv zeta.
  destruct items as [|i items]; [destruct Hitem|]. cbn [is_nil].
  destruct (existsb (is_file fs) (i :: items)); [exact Hfound|].
  destruct (forallb (fun s => mem s (scan_empty_list fs s)) (filter (is_dir fs) (i :: items)));
    [apply in_or_app; now left|exact Hfound].
Qed.

(** The path ["."] is not removed, even when it is an empty directory:
    [rmdir] refuses it and the round records the error. *)
Lemma delete_current_directory fs w :
  node_at fs (mkPath false []) = Some (Dir true w []) ->
  delete_empty_folders [mkPath false []] fs
  = (Ok (0, ["Error deleting .: [Errno 22] Invalid argument: '.'"]), fs).
Proof.
  intros Hn.
  assert (He : exists_ fs (mkPath false []) && is_dir fs (mkPath false []) = true)
    by (unfold exists_, is_dir; now rewrite Hn).
  assert (Hi : is_folder_empty fs (mkPath false []) = true)
    by (unfold is_folder_empty, iterdir; now rewrite Hn).
  unfold delete_empty_folders. cbn [sorted insert_sorted for_].
  unfold bind, ret, delete_one, try_except, bind, query, assign, syscall. cbn [fst snd].
  rewrite He. cbv beta iota. cbn [fst snd]. rewrite Hi. reflexivity.
Qed.

(** X12. The two steps of the interface, one after the other, on a file
    system without repeated names: when every directory in the list that
    [scan_empty_folder_structure] returned has a writable parent, is
    neither the path ["."] nor a root, and holds nothing but directories,
    [delete_empty_folders] on that list removes every one of them, counts
    each one and reports no error. *)
Theorem scan_then_delete fs root_path emitted :
  well_formed (tree fs) = true ->
  scan_empty_folder_structure fs root_path = Ok emitted ->
  (forall x, In x emitted ->
     segs x <> [] /\ parent_writable fs x = true
     /\ forall a, node_at fs (child x a) <> Some Special) ->
  exists fs',
    delete_empty_folders emitted fs = (Ok (List.length emitted, []), fs')
    /\ forall x, In x emitted -> exists_ fs' x = false.
Proof.
  intros Hwf Hscan Hok.
  assert (EL : scan_empty_list fs root_path = emitted)
    by (unfold scan_empty_list; now rewrite Hscan).
  clear Hscan. subst emitted. set (L := scan_empty_list fs root_path) in *.
  assert (Hself : forall y, In y L ->
            In y (scan_empty_list fs y) /\ incl (scan_empty_list fs y) L).
  { intros y Hy. apply (scan_emitted_self fs (S (height_at fs root_path))); [lia|exact Hy]. }
  assert (Hperm : forall y, In y (sorted parts_len true L) -> In y L).
  { intros y Hy. eapply Permutation_in; [apply sorted_perm|exact Hy]. }
  assert (Hready : ready fs (sorted parts_len true L)).
  { split; [|split; [|split; [|split]]].
    - eapply Permutation_NoDup; [apply Permutation_sym, sorted_perm|].
      apply (scan_NoDup fs (S (height_at fs root_path)) Hwf). lia.
    - apply sorted_deepest_first.
    - intros y Hy. apply Hperm in Hy. destruct (Hok y Hy) as (Hne & Hw & _).
      split; [|split; assumption].
      destruct (Hself y Hy) as [Hy' _].
      destruct (scan_self_emitted fs y Hy') as (items & Hit & _).
      destruct (iterdir_Ok _ _ _ Hit) as (w & es & Hn & _). eauto.
    - intros y a Hy Hc. apply Hperm in Hy.
      eapply Permutation_in; [apply Permutation_sym, sorted_perm|].
      destruct (Hself y Hy) as [Hy' Hincl]. apply Hincl.
      apply scan_children_emitted; [exact Hy'|].
      destruct (scan_self_emitted fs y Hy') as (items & Hit & Hnofile & _).
      destruct (iterdir_Ok _ _ _ Hit) as (w & es & Hn & ->).
      destruct (Hok y Hy) as (_ & _ & Hns). specialize (Hns a).
      assert (Hf : is_file fs (child y a) = false).
      { destruct (node_at fs (child y a)) as [c|] eqn:Hca; [|congruence].
        apply Hnofile. rewrite node_at_child, Hn in Hca.
        apply in_map_iff. exists (a, c). split; [reflexivity|now apply assoc_In]. }
      unfold is_file in Hf. unfold is_dir.
      destruct (node_at fs (child y a)) as [[c| |r w0 es0]|]; congruence.
    - intros y z Hy Hz E. apply Hperm in Hy, Hz.
      apply scan_empty_list_below, below_extend in Hy as [t1 ->].
      apply scan_empty_list_below, below_extend in Hz as [t2 ->].
      rewrite !abs_extend in E. apply app_inv_head in E. now subst. }
  destruct (delete_loop_all _ fs 0 [] Hready) as (fs' & Hloop & _ & Hgone).
  exists fs'. split.
  - unfold delete_empty_folders. cbv zeta. rewrite Hloop. cbn [Nat.add].
    do 3 f_equal. apply Permutation_length, sorted_perm.
  - intros x Hx. unfold exists_. rewrite Hgone; [reflexivity|].
    eapply Permutation_in; [apply Permutation_sym, sorted_perm|exact Hx].
Qed.

Lemma scan_then_delete_witness :
  exists fs',
    delete_empty_folders [mkPath true ["R"; "x"; "y"]] scenario_fs = (Ok (1, []), fs')
    /\ forall x, In x [mkPath true ["R"; "x"; "y"]] -> exists_ fs' x = false.
Proof.
  apply (scan_then_delete scenario_fs scenario_root [mkPath true ["R"; "x"; "y"]]).
  - reflexivity.
  - reflexivity.
  - intros x [<-|[]].
    split; [discriminate|]. split; [reflexivity|].
    intros a. rewrite node_at_child. discriminate.
Defined.

(* ================================================================== *)
(** * [scan_empty_folder_structure]: exactly the hollow directories *)

Lemma hollow_dir w es :
  hollow (Dir true w es) = true <->
  forall a c, In (a, c) es ->
    match c with
    | File _ => False
    | Special => True
    | Dir _ _ _ => hollow c = true
    end.
Proof.
  cbn [hollow]. rewrite forallb_forall. split.
  - intros H a c Hin. specialize (H (a, c) Hin). cbn [snd] in H.
    destruct c; [discriminate|exact I|exact H].
  - intros H [a c] Hin. specialize (H a c Hin). cbn [snd].
    destruct c; [contradiction|reflexivity|exact H].
Qed.

Lemma hollow_is_dir m : hollow m = true -> exists w es, m = Dir true w es.
Proof. destruct m as [c| |[|] w es]; try discriminate. eauto. Qed.

Lemma listed_cons r w es a t :
  listed (Dir r w es) (a :: t) <->
  r = true /\ exists c, assoc a es = Some c /\ listed c t.
Proof.
  cbn [listed]. destruct r; [|split; [contradiction|intros [? _]; discriminate]].
  destruct (assoc a es) as [c|].
  - split; [eauto|]. now intros (_ & c' & [= <-] & H).
  - split; [contradiction|]. now intros (_ & c' & [=] & _).
Qed.

Lemma scan_not_listable fs p n :
  node_at fs p = Some n -> (forall w es, n <> Dir true w es) ->
  scan_empty_list fs p = [].
Proof.
  intros Hn Hno. unfold scan_empty_list.
  assert (exists e, iterdir fs p = Raise e) as [e He].
  { unfold iterdir. rewrite Hn. destruct n as [c| |[|] w es]; eauto.
    now destruct (Hno w es). }
  now rewrite (scan_unlistable _ _ _ He).
Qed.

Section ScanExactly.
Variable fs : filesystem.
Hypothesis Hwf : well_formed (tree fs) = true.

Lemma entry_node p w es a c :
  node_at fs p = Some (Dir true w es) -> In (a, c) es ->
  node_at fs (child p a) = Some c.
Proof.
  intros Hn Hin. rewrite node_at_child, Hn. apply assoc_unique; [|exact Hin].
  eapply well_formed_names; eauto.
Qed.

Lemma scan_exactly_at h : forall p n,
  node_at fs p = Some n -> height n < h ->
  forall x, In x (scan_empty_list fs p) <->
    exists t m, x = extend p t /\ listed n t /\ find_node n t = Some m /\ hollow m = true.
Proof.
  induction h as [|h IH]; intros p n Hn Hh x; [lia|].
  destruct n as [c| |[|] w es].
  1,2,4: rewrite (scan_not_listable fs p _ Hn) by discriminate;
    (split; [intros []|]); intros (t & m & _ & Hl & Hf & Hm);
    (destruct t as [|a t]; [cbn in Hf; injection Hf as <-; discriminate|destruct Hl]).
  assert (Hit : iterdir fs p = Ok (map (fun e => child p (fst e)) es)).
  { unfold iterdir. now rewrite Hn. }
  set (items := map (fun e => child p (fst e)) es) in *.
  (* the part of the result that comes from the subdirectories *)
  assert (Hfound : In x (flat_map (scan_empty_list fs) (filter (is_dir fs) items)) <->
            exists a t m, x = extend p (a :: t) /\ listed (Dir true w es) (a :: t)
                          /\ find_node (Dir true w es) (a :: t) = Some m /\ hollow m = true).
  { rewrite in_flat_map. split.
    - intros (s & Hs & Hx). apply filter_In in Hs as [Hs Hd].
      apply in_map_iff in Hs as ([a c] & <- & Hin). cbn [fst] in *.
      pose proof (entry_node p w es a c Hn Hin) as Hc.
      pose proof (height_entry a c true w es Hin) as Hlt.
      apply (IH _ c Hc) in Hx; [|lia]. destruct Hx as (t & m & -> & Hl & Hf & Hm).
      exists a, t, m. rewrite extend_child. split; [reflexivity|].
      rewrite node_at_child, Hn in Hc. split; [|split; [|exact Hm]].
      + apply listed_cons. split; [reflexivity|]. eauto.
      + cbn [find_node]. now rewrite Hc.
    - intros (a & t & m & -> & Hl & Hf & Hm).
      apply listed_cons in Hl as (_ & c & Ha & Hl). cbn [find_node] in Hf. rewrite Ha in Hf.
      pose proof (assoc_In _ _ _ Ha) as Hin.
      pose proof (entry_node p w es a c Hn Hin) as Hc.
      pose proof (height_entry a c true w es Hin) as Hlt.
      exists (child p a). split.
      + apply filter_In. split; [apply in_map_iff; now exists (a, c)|].
        unfold is_dir. rewrite Hc. destruct t as [|b t].
        * cbn in Hf. injection Hf as ->. now destruct (hollow_is_dir _ Hm) as (? & ? & ->).
        * destruct c; [discriminate|discriminate|reflexivity].
      + apply (IH _ c Hc); [lia|]. exists t, m. now rewrite extend_child. }
  (* a subdirectory is emitted by its own scan exactly when it is hollow *)
  assert (Hsub : forall a c, In (a, c) es ->
            (In (child p a) (scan_empty_list fs (child p a)) <-> hollow c = true)).
  { intros a c Hin. pose proof (entry_node p w es a c Hn Hin) as Hc.
    pose proof (height_entry a c true w es Hin) as Hlt.
    rewrite (IH _ c Hc) by lia. split.
    - intros (t & m & E & _ & Hf & Hm). destruct t as [|b t].
      + cbn in Hf. now injection Hf as ->.
      + symmetry in E. now apply extend_not_self in E.
    - intros Hm. exists [], c. now rewrite extend_nil. }
  (* the directory itself *)
  assert (Hself : hollow (Dir true w es) = true <->
            existsb (is_file fs) items = false
            /\ forallb (fun s => mem s (scan_empty_list fs s)) (filter (is_dir fs) items)
               = true).
  { rewrite hollow_dir. split.
    - intros H. split.
      + apply not_true_is_false. intros Hex. apply existsb_exists in Hex as (s & Hs & Hf).
        apply in_map_iff in Hs as ([a c] & <- & Hin). cbn [fst] in Hf.
        unfold is_file in Hf. rewrite (entry_node p w es a c Hn Hin) in Hf.
        specialize (H a c Hin). destruct c; [contradiction|discriminate|discriminate].
      + apply forallb_forall. intros s Hs. apply filter_In in Hs as [Hs Hd].
        apply in_map_iff in Hs as ([a c] & <- & Hin). cbn [fst] in *.
        apply mem_In. apply (Hsub a c Hin). specialize (H a c Hin).
        unfold is_dir in Hd. rewrite (entry_node p w es a c Hn Hin) in Hd.
        destruct c; [discriminate|discriminate|exact H].
    - intros [Hnf Hall] a c Hin.
      pose proof (entry_node p w es a c Hn Hin) as Hc.
      assert (Hitem : In (child p a) items) by (apply in_map_iff; now exists (a, c)).
      destruct c as [k| |r0 w0 es0]; [|exact I|].
      + assert (existsb (is_file fs) items = true); [|congruence].
        apply existsb_exists. exists (child p a). split; [exact Hitem|].
        unfold is_file. now rewrite Hc.
      + apply (Hsub a _ Hin). apply mem_In.
        rewrite forallb_forall in Hall. apply Hall. apply filter_In.
        split; [exact Hitem|]. unfold is_dir. now rewrite Hc. }
  assert (Hroot : forall t m, x = extend p t -> t = [] ->
            find_node (Dir true w es) t = Some m -> hollow m = true ->
            x = p /\ hollow (Dir true w es) = true).
  { intros t m -> -> Hf Hm. cbn in Hf. injection Hf as <-. now rewrite extend_nil. }
  assert (Hhere : x = p -> hollow (Dir true w es) = true ->
            exists t m, x = extend p t /\ listed (Dir true w es) t
                        /\ find_node (Dir true w es) t = Some m /\ hollow m = true).
  { intros -> Hm. exists [], (Dir true w es). rewrite extend_nil. cbn. auto. }
  assert (Hbelow : (exists a t m, x = extend p (a :: t) /\ listed (Dir true w es) (a :: t)
                          /\ find_node (Dir true w es) (a :: t) = Some m /\ hollow m = true) ->
            exists t m, x = extend p t /\ listed (Dir true w es) t
                        /\ find_node (Dir true w es) t = Some m /\ hollow m = true).
  { intros (a & t & m & H). now exists (a :: t), m. }
  unfold scan_empty_list at 1. rewrite (scan_equation _ _ _ Hit). cbv zeta.
  destruct (is_nil items) eqn:Hnil.
  { assert (es = []) as -> by (destruct es; [reflexivity|discriminate]).
    split.
    - intros [<-|[]]. now apply Hhere.
    - intros (t & m & Hx & Hl & Hf & Hm). left. destruct t as [|a t].
      + symmetry. eapply Hroot; eauto.
      + apply listed_cons in Hl as (_ & c & Ha & _). discriminate. }
  destruct (existsb (is_file fs) items) eqn:Hex.
  { rewrite Hfound. split; [exact Hbelow|].
    intros (t & m & Hx & Hl & Hf & Hm). destruct t as [|a t]; [|now exists a, t, m].
    destruct (Hroot _ _ Hx eq_refl Hf Hm) as [_ Hh']. apply Hself in Hh' as [Hh' _]. congruence. }
  destruct (forallb (fun s => mem s (scan_empty_list fs s)) (filter (is_dir fs) items)) eqn:Hall.
  - rewrite in_app_iff, Hfound. split.
    + intros [H|[<-|[]]]; [now apply Hbelow|]. apply Hhere; [reflexivity|]. now apply Hself.
    + intros (t & m & Hx & Hl & Hf & Hm). destruct t as [|a t]; [|left; now exists a, t, m].
      right. left. symmetry. eapply Hroot; eauto.
  - rewrite Hfound. split; [exact Hbelow|].
    intros (t & m & Hx & Hl & Hf & Hm). destruct t as [|a t]; [|now exists a, t, m].
    destruct (Hroot _ _ Hx eq_refl Hf Hm) as [_ Hh']. apply Hself in Hh' as [_ Hh']. congruence.
Qed.

End ScanExactly.

(** X13. On a file system without repeated names [scan_empty_folder_structure]
    emits, each one once, exactly the hollow directories at or below the
    root that the walk reaches through directories it can list: a
    directory is hollow when it can be listed, holds no regular file, and
    each of its subdirectories is hollow. *)
Theorem scan_empty_emits_exactly_hollow fs root_path :
  well_formed (tree fs) = true ->
  exists emitted,
    scan_empty_folder_structure fs root_path = Ok emitted
    /\ NoDup emitted
    /\ forall x, In x emitted <->
         exists n t m, node_at fs root_path = Some n /\ x = extend root_path t
                       /\ listed n t /\ find_node n t = Some m /\ hollow m = true.
Proof.
  intros Hwf. exists (scan_empty_list fs root_path).
  split; [apply scan_empty_list_Ok|]. split.
  { apply (scan_NoDup fs (S (height_at fs root_path)) Hwf). lia. }
  intros x. destruct (node_at fs root_path) as [n|] eqn:Hn.
  - rewrite (scan_exactly_at fs Hwf (S (height n)) root_path n Hn) by lia. split.
    + intros (t & m & H). now exists n, t, m.
    + intros (n' & t & m & [= <-] & H). now exists t, m.
  - assert (scan_empty_list fs root_path = []) as ->.
    { unfold scan_empty_list, scan_empty_folder_structure. rewrite scan_rec_S.
      unfold exists_. now rewrite Hn. }
    split; [intros []|]. intros (n' & t & m & [=] & _).
Qed.

Lemma scan_empty_emits_exactly_hollow_witness :
  exists emitted,
    scan_empty_folder_structure scenario_fs scenario_root = Ok emitted
    /\ NoDup emitted
    /\ forall x, In x emitted <->
         exists n t m, node_at scenario_fs scenario_root = Some n
                       /\ x = extend scenario_root t
                       /\ listed n t /\ find_node n t = Some m /\ hollow m = true.
Proof.
  apply (scan_empty_emits_exactly_hollow scenario_fs scenario_root). reflexivity.
Defined.

(* ================================================================== *)
(** * [count_files_in_folder] *)












(* ================================================================== *)
(** * [validate_path]: surrounding whitespace *)

(** [lstrip] removes the whitespace character at the head and goes on. *)
Lemma lstrip_step s :
  lstrip s = match space_width s with 0 => s | k => lstrip (skip k s) end.
Proof.
  destruct s as [|c1 [|c2 [|c3 r]]]; cbn [lstrip space_width skip].
  - reflexivity.
  - now destruct (isspace c1).
  - destruct (isspace c1); [reflexivity|]. now destruct (isspace2 c1 c2).
  - destruct (isspace c1); [reflexivity|]. destruct (isspace2 c1 c2); [reflexivity|].
    now destruct (isspace3 c1 c2 c3).
Qed.

Lemma space_width_length s : space_width s <= String.length s.
Proof.
  destruct s as [|c1 [|c2 [|c3 r]]]; cbn [space_width String.length];
    repeat match goal with |- context [if ?b then _ else _] => destruct b end; lia.
Qed.

Lemma skip_length k s : String.length (skip k s) = String.length s - k.
Proof.
  revert s; induction k as [|k IH]; intros [|c s]; cbn [skip String.length]; try lia.
  apply IH.
Qed.

Lemma skip_append k s u :
  k <= String.length s -> skip k (s +++ u) = skip k s +++ u.
Proof.
  revert s; induction k as [|k IH]; intros [|c s] H; cbn in *; try reflexivity; try lia.
  apply IH. lia.
Qed.

(** A string that starts with a whitespace character still does when
    it is extended. *)
Lemma space_width_append s u :
  space_width s <> 0 -> space_width (s +++ u) = space_width s.
Proof.
  destruct s as [|c1 [|c2 [|c3 r]]]; cbn [space_width String.append].
  - congruence.
  - destruct (isspace c1) eqn:H1; [|congruence]. intros _.
    now destruct u as [|d1 [|d2 u]].
  - destruct (isspace c1) eqn:H1; [intros _; now destruct u|].
    destruct (isspace2 c1 c2) eqn:H2; [|congruence]. intros _. now destruct u.
  - reflexivity.
Qed.

Lemma lstrip_fixed s : space_width s = 0 -> lstrip s = s.
Proof. intros H. now rewrite lstrip_step, H. Qed.

Lemma lstrip_clean_bounded n : forall s,
  String.length s <= n -> space_width (lstrip s) = 0.
Proof.
  induction n as [|n IH]; intros s Hn.
  - destruct s; [reflexivity|cbn in Hn; lia].
  - rewrite lstrip_step. destruct (space_width s) as [|k] eqn:Hk; [exact Hk|].
    apply IH. rewrite skip_length.
    pose proof (space_width_length s). lia.
Qed.

(** [lstrip] returns a string that does not start with a whitespace
    character. *)
Lemma lstrip_clean s : space_width (lstrip s) = 0.
Proof. exact (lstrip_clean_bounded (String.length s) s (Nat.le_refl _)). Qed.

Lemma all_space_append_bounded n : forall s u,
  String.length s <= n -> all_space s = true -> lstrip (s +++ u) = lstrip u.
Proof.
  unfold all_space. induction n as [|n IH]; intros s u Hn Hs.
  - destruct s; [reflexivity|cbn in Hn; lia].
  - destruct (space_width s) as [|k] eqn:Hk.
    + rewrite (lstrip_fixed s Hk) in Hs. destruct s; [reflexivity|discriminate].
    + assert (Hk' : space_width s <> 0) by lia.
      rewrite (lstrip_step (s +++ u)), (space_width_append s u Hk'), Hk.
      pose proof (space_width_length s).
      rewrite skip_append by lia. apply IH.
      * rewrite skip_length. lia.
      * rewrite lstrip_step, Hk in Hs. exact Hs.
Qed.

Lemma all_space_append s u : all_space s = true -> lstrip (s +++ u) = lstrip u.
Proof. apply (all_space_append_bounded (String.length s)). lia. Qed.

(** [rstrip] removes an end that holds whitespace characters only. *)
Lemma rstrip_removed s : exists u, s = rstrip s +++ u /\ all_space u = true.
Proof.
  induction s as [|c s (u & E & Hu)]; [now exists ""|].
  cbn [rstrip]. destruct (all_space (String c s)) eqn:Ha.
  - now exists (String c s).
  - exists u. split; [|exact Hu]. cbn [String.append]. now rewrite <- E.
Qed.

Lemma rstrip_idempotent s : rstrip (rstrip s) = rstrip s.
Proof.
  induction s as [|c s IH]; [reflexivity|].
  cbn [rstrip]. destruct (all_space (String c s)) eqn:Ha; [reflexivity|].
  cbn [rstrip]. rewrite IH.
  destruct (all_space (String c (rstrip s))) eqn:Hb; [|reflexivity].
  exfalso. destruct (rstrip_removed s) as (u & E & Hu).
  assert (H : lstrip (String c (rstrip s) +++ u) = lstrip u)
    by now apply all_space_append.
  cbn [String.append] in H. rewrite <- E in H.
  unfold all_space in Ha, Hu. rewrite H in Ha. congruence.
Qed.

Lemma lstrip_rstrip s : space_width s = 0 -> lstrip (rstrip s) = rstrip s.
Proof.
  intros Hs. apply lstrip_fixed.
  destruct (rstrip_removed s) as (u & E & _).
  destruct (Nat.eq_dec (space_width (rstrip s)) 0) as [H|H]; [exact H|].
  apply (space_width_append _ u) in H as H'. rewrite <- E in H'. congruence.
Qed.

Lemma strip_idempotent s : strip (strip s) = strip s.
Proof.
  unfold strip. rewrite lstrip_rstrip by apply lstrip_clean.
  apply rstrip_idempotent.
Qed.

(** X15. The interface strips the text of the entry before it calls
    [validate_path], which strips again: the second strip changes nothing,
    so [validate_path] gives the same answer on a string and on the string
    stripped. *)
Theorem validate_path_strips fs s : validate_path fs (strip s) = validate_path fs s.
Proof.
  unfold validate_path. rewrite strip_idempotent.
  destruct s as [|c s]; [reflexivity|]. cbn [is_empty_string orb].
  now rewrite Bool.orb_diag.
Qed.

(* ================================================================== *)
(** * Plain trees *)
















(* ================================================================== *)
(** * The walk [rglob] on trees without repeated names *)

Lemma extend_inj p t1 t2 : extend p t1 = extend p t2 -> t1 = t2.
Proof. unfold extend. intros [= H]. now apply app_inv_head in H. Qed.


Lemma rglob_node_NoDup h : forall n p,
  height n <= h -> well_formed n = true -> NoDup (rglob_node p n).
Proof.
  induction h as [|h IH]; intros n p Hh Hwf.
  - destruct n as [c| |[|] w es]; try constructor. cbn in Hh. lia.
  - destruct n as [c| |[|] w es]; try constructor.
    cbn [rglob_node]. cbn [well_formed] in Hwf. apply andb_prop in Hwf as [Hd Hall].
    apply distinct_NoDup in Hd. rewrite forallb_forall in Hall.
    assert (Hsub : forall a c x, In (a, c) es -> In x (rglob_node (child p a) c) ->
              exists t, t <> [] /\ x = extend p (a :: t)).
    { intros a c x Hin Hx.
      destruct (rglob_node_below (height c) c (child p a) x (Nat.le_refl _) Hx)
        as (t & Ht & ->). exists t. split; [exact Ht|apply extend_child]. }
    apply NoDup_app.
    + rewrite <- (map_map fst (child p)). apply NoDup_map_injective; [apply child_inj|exact Hd].
    + apply NoDup_flat_map.
      * exact (NoDup_map_inv fst es Hd).
      * intros [a c] Hin. cbn [fst snd]. apply IH; [|exact (Hall (a, c) Hin)].
        pose proof (height_entry a c true w es Hin). lia.
      * intros [a1 c1] [a2 c2] x H1 H2 Hx1 Hx2. cbn [fst snd] in *.
        destruct (Hsub a1 c1 x H1 Hx1) as (t1 & _ & E1).
        destruct (Hsub a2 c2 x H2 Hx2) as (t2 & _ & E2).
        rewrite E1 in E2. apply extend_inj in E2. injection E2 as -> _.
        f_equal. assert (Some c1 = Some c2) as [= ->]; [|reflexivity].
        rewrite <- (assoc_unique a2 c1 es Hd H1). now apply assoc_unique.
    + intros x Hx Hin. apply in_map_iff in Hx as ([a c] & <- & _). cbn [fst] in Hin.
      apply in_flat_map in Hin as ([a' c'] & Hin' & Hx). cbn [fst snd] in Hx.
      destruct (Hsub a' c' _ Hin' Hx) as (t & Ht & E).
      rewrite <- extend_one in E. apply extend_inj in E. injection E as _ E. now subst.
Qed.

Lemma rglob_NoDup fs p :
  well_formed (tree fs) = true -> NoDup (rglob fs p).
Proof.
  intros Hwf. unfold rglob. destruct (node_at fs p) as [n|] eqn:Hn; [|constructor].
  apply (rglob_node_NoDup (height n)); [lia|]. eapply well_formed_find; eauto.
Qed.

(* ================================================================== *)
(** * [flatten_to_root] on a plain tree: the first loop *)










(* ================================================================== *)
(** * [flatten_to_root] on a plain tree: the second loop *)




(* ================================================================== *)
(** * [flatten_to_root] on a plain tree: the whole run *)




(* ================================================================== *)
(** * [flatten_to_root] on a root without subdirectories *)

Lemma rglob_flat fs root_path r w es :
  node_at fs root_path = Some (Dir r w es) ->
  (forall a c, In (a, c) es -> is_dir_node c = false) ->
  forall x, In x (rglob fs root_path) -> exists a c, x = child root_path a /\ In (a, c) es.
Proof.
  intros Hn Hflat x. unfold rglob. rewrite Hn. destruct r; [|intros []].
  cbn [rglob_node]. rewrite in_app_iff. intros [H|H].
  - apply in_map_iff in H as ([a c] & <- & Hin). eauto.
  - apply in_flat_map in H as ([a c] & Hin & H). cbn [fst snd] in H.
    specialize (Hflat a c Hin). destruct c; [destruct H|destruct H|discriminate].
Qed.

(** X17. Flattening a root that holds no directory does nothing: nothing is
    moved, nothing removed, no error reported, and the file system is as
    it was. *)
Theorem flatten_to_root_flat_root root_path conflict_mode fs r w es :
  node_at fs root_path = Some (Dir r w es) ->
  (forall a c, In (a, c) es -> is_dir_node c = false) ->
  flatten_to_root root_path conflict_mode fs = (Ok (mkFlattenResult 0 0 0 [] []), fs).
Proof.
  intros Hn Hflat.
  assert (Hfiles : filter (nested_file fs root_path) (rglob fs root_path) = []).
  { apply filter_none. intros x Hx.
    destruct (rglob_flat _ _ _ _ _ Hn Hflat x Hx) as (a & c & -> & _).
    unfold nested_file. rewrite parent_child.
    destruct (Path_eq_dec root_path root_path); [apply Bool.andb_false_r|congruence]. }
  assert (Hdirs : filter (is_dir fs) (rglob fs root_path) = []).
  { apply filter_none. intros x Hx.
    destruct (rglob_flat _ _ _ _ _ Hn Hflat x Hx) as (a & c & -> & _).
    unfold is_dir. rewrite node_at_child, Hn.
    destruct (assoc a es) as [c'|] eqn:Ha; [|reflexivity].
    apply assoc_In in Ha. specialize (Hflat a c' Ha). now destruct c'. }
  unfold flatten_to_root, exists_, is_dir. rewrite Hn. cbn [negb orb]. cbv zeta.
  unfold bind at 1. unfold move_phase, try_except, bind at 1, query. cbn [fst snd].
  rewrite Hfiles. cbn [for_ ret].
  unfold prune_phase, try_except, bind, query. cbn [fst snd]. rewrite Hdirs. reflexivity.
Qed.

Lemma flatten_to_root_flat_root_witness :
  flatten_to_root scenario_root "rename"
    (mkFS (Dir true true [("R", Dir true true [("a.txt", File "one"); ("b", Special)])]) [])
  = (Ok (mkFlattenResult 0 0 0 [] []),
     mkFS (Dir true true [("R", Dir true true [("a.txt", File "one"); ("b", Special)])]) []).
Proof.
  apply (flatten_to_root_flat_root scenario_root "rename" _ true true
           [("a.txt", File "one"); ("b", Special)]).
  - reflexivity.
  - intros a c [[= <- <-]|[[= <- <-]|[]]]; reflexivity.
Defined.

(* ================================================================== *)
(** * [create_folder_structure]: a second run *)

Lemma relative_to_cases p other :
  (exists rel, relative_to p other = Ok rel)
  \/ exists msg, relative_to p other = Raise (ValueError msg).
Proof.
  unfold relative_to.
  destruct (root_eqb (root p) (root other) && is_prefix (segs other) (segs p)); eauto.
Qed.

Lemma create_one_destination source_paths destination_root source_path fs l :
  (match source_paths with
   | first :: _ =>
       relative_path <- lift (relative_to source_path (parent first)) ;;
       ret (join destination_root relative_path)
   | [] => ret (child destination_root (name source_path))
   end : M create_locals Path) (fs, l)
  = (destination_of source_paths destination_root source_path, (fs, l)).
Proof.
  unfold destination_of. destruct source_paths as [|first rest]; [reflexivity|].
  unfold bind, lift, ret. now destruct (relative_to source_path (parent first)).
Qed.

(** A round that returns without recording an error has created its
    destination. *)
Lemma create_one_success source_paths destination_root source_path fs l fs' l' :
  create_one source_paths destination_root source_path (fs, l) = (Ok tt, (fs', l')) ->
  List.length (error_messages l) <= List.length (error_messages l')
  /\ (List.length (error_messages l') = List.length (error_messages l) ->
      exists d, destination_of source_paths destination_root source_path = Ok d
                /\ is_dir fs' d = true
                /\ success_count l' = S (success_count l)).
Proof.
  unfold create_one, try_except. unfold bind at 1. rewrite create_one_destination.
  unfold destination_of.
  assert (Hd : (exists d, destination_of source_paths destination_root source_path = Ok d)
               \/ exists msg, destination_of source_paths destination_root source_path
                              = Raise (ValueError msg)).
  { unfold destination_of. destruct source_paths as [|first rest]; [eauto|].
    destruct (relative_to_cases source_path (parent first)) as [[rel ->]|[msg ->]]; cbn; eauto. }
  fold (destination_of source_paths destination_root source_path).
  destruct Hd as [[d ->]|[msg ->]]; [|discriminate].
  unfold bind, assign, syscall, locals. cbn [fst snd].
  destruct (mkdir_parents_cases d fs) as [(fs1 & H)|(e & H & He)]; rewrite H; cbn.
  - intros [= <- <-]. cbn. split; [lia|]. intros _. exists d. split; [reflexivity|].
    apply mkdir_parents_grows in H as (_ & _ & Hdir). split; [exact Hdir|lia].
  - rewrite He. cbn. intros [= <- <-]. cbn. rewrite length_app. cbn. split; lia.
Qed.

(** A round whose destination is a directory already counts a success
    and changes nothing. *)
Lemma create_one_existing source_paths destination_root source_path fs l d :
  destination_of source_paths destination_root source_path = Ok d ->
  is_dir fs d = true ->
  create_one source_paths destination_root source_path (fs, l)
  = (Ok tt, (fs, count_created (bind_destination_path d l))).
Proof.
  intros Hd Hdir. unfold create_one, try_except. unfold bind at 1.
  rewrite create_one_destination, Hd.
  unfold bind, assign, syscall, locals. cbn [fst snd].
  now rewrite mkdir_parents_existing by exact Hdir.
Qed.

Lemma create_loop_success source_paths destination_root order : forall fs l fs' l',
  for_ order (create_one source_paths destination_root) (fs, l) = (Ok tt, (fs', l')) ->
  List.length (error_messages l) <= List.length (error_messages l')
  /\ (List.length (error_messages l') = List.length (error_messages l) ->
      (forall sp, In sp order ->
         exists d, destination_of source_paths destination_root sp = Ok d
                   /\ is_dir fs' d = true)
      /\ success_count l' = success_count l + List.length order).
Proof.
  induction order as [|sp order IH]; intros fs l fs' l'.
  - cbn. intros [= <- <-]. split; [lia|]. intros _. split; [intros sp []|lia].
  - cbn [for_]. unfold bind at 1.
    destruct (create_one source_paths destination_root sp (fs, l)) as [[[]|e|] [fs1 l1]] eqn:E1;
      try discriminate.
    intros E2. destruct (create_one_success _ _ _ _ _ _ _ E1) as [Hle1 H1].
    destruct (IH _ _ _ _ E2) as [Hle2 H2]. split; [lia|]. intros Hlen.
    destruct H1 as (d & Hd & Hdir & Hs1); [lia|]. destruct H2 as [Hall Hs2]; [lia|].
    split; [|cbn [List.length]; lia].
    intros sp' [<-|Hin]; [|now apply Hall].
    exists d. split; [exact Hd|].
    destruct (create_loop_grows _ _ _ _ _ _ _ _ E2) as (Hc & G).
    destruct (grows_node_at fs1 fs' Hc G) as (_ & Hk & _). now apply Hk.
Qed.

Lemma create_loop_existing source_paths destination_root fs order : forall l,
  (forall sp, In sp order ->
     exists d, destination_of source_paths destination_root sp = Ok d
               /\ is_dir fs d = true) ->
  exists l',
    for_ order (create_one source_paths destination_root) (fs, l) = (Ok tt, (fs, l'))
    /\ success_count l' = success_count l + List.length order
    /\ error_messages l' = error_messages l.
Proof.
  induction order as [|sp order IH]; intros l Hall.
  - exists l. cbn. repeat split. lia.
  - destruct (Hall sp (or_introl eq_refl)) as (d & Hd & Hdir).
    destruct (IH (count_created (bind_destination_path d l))) as (l' & E & Hs & He);
      [intros; apply Hall; now right|].
    exists l'. cbn [for_]. unfold bind at 1.
    rewrite (create_one_existing _ _ _ _ _ _ Hd Hdir). split; [exact E|].
    cbn in *. split; [lia|exact He].
Qed.

(** X18. A run of [create_folder_structure] that reports no error has counted
    every source path, and a second run on the file system it leaves
    reports the same and changes nothing. *)
Theorem create_folder_structure_again source_paths destination_root fs success fs' :
  create_folder_structure source_paths destination_root fs = (Ok (success, []), fs') ->
  success = List.length source_paths
  /\ create_folder_structure source_paths destination_root fs' = (Ok (success, []), fs').
Proof.
  unfold create_folder_structure.
  destruct (mkdir_parents_cases destination_root fs) as [(fs1 & H)|(e & H & He)]; rewrite H.
  2:{ rewrite He. discriminate. }
  cbv zeta.
  destruct (for_ (sorted parts_len false source_paths)
              (create_one source_paths destination_root)
              (fs1, mkCreateLocals 0 [] None)) as [[[]|e|] [fs2 l2]] eqn:E; try discriminate.
  intros [= Hs He <-].
  destruct (create_loop_success _ _ _ _ _ _ _ E) as [_ Hok].
  destruct Hok as [Hall Hcount]; [now rewrite He|].
  cbn in Hcount. rewrite Hs in Hcount.
  rewrite (Permutation_length (sorted_perm parts_len false source_paths)) in Hcount.
  split; [exact Hcount|].
  apply mkdir_parents_grows in H as (_ & _ & Hroot).
  destruct (create_loop_grows _ _ _ _ _ _ _ _ E) as (Hc & G).
  destruct (grows_node_at fs1 fs2 Hc G) as (_ & Hk & _).
  rewrite mkdir_parents_existing by (now apply Hk).
  destruct (create_loop_existing source_paths destination_root fs2
              (sorted parts_len false source_paths) (mkCreateLocals 0 [] None) Hall)
    as (l' & -> & Hs' & He').
  cbn in Hs', He'. rewrite Hs', He'.
  rewrite (Permutation_length (sorted_perm parts_len false source_paths)).
  now rewrite Hcount.
Qed.

Lemma create_folder_structure_again_witness :
  4 = List.length (scan_folder_structure scenario_fs scenario_root)
  /\ create_folder_structure (scan_folder_structure scenario_fs scenario_root)
       (mkPath true ["out"])
       (snd (create_folder_structure (scan_folder_structure scenario_fs scenario_root)
               (mkPath true ["out"]) scenario_fs))
     = (Ok (4, []),
        snd (create_folder_structure (scan_folder_structure scenario_fs scenario_root)
               (mkPath true ["out"]) scenario_fs)).
Proof.
  apply (create_folder_structure_again (scan_folder_structure scenario_fs scenario_root)
           (mkPath true ["out"]) scenario_fs 4).
  reflexivity.
Defined.

(* ================================================================== *)
(** * [count_files_with_details]: what [total_files] counts *)










(* ================================================================== *)
(** * [create_folder_structure]: the exception it can raise *)





(* ================================================================== *)
(** * [flatten_to_root]: the recorded moves *)

(** The end of a round of the first loop records the move when, and
    only when, it returns. *)
Lemma move_tail_outcome src dest fs res :
  exists r fs' res',
    (syscall (mkdir_parents (parent dest)) ;;;
     syscall (shutil_move src dest) ;;;
     assign (record_move src dest)) (fs, res)
    = (r, (fs', res'))
    /\ ((r = Ok tt /\ res' = record_move src dest res) \/ (r <> Ok tt /\ res' = res)).
Proof.
  unfold bind, syscall, assign. cbn [fst snd].
  destruct (mkdir_parents (parent dest) fs) as [[[]|e|] fs1]; cbn [fst snd].
  - destruct (shutil_move src dest fs1) as [[[]|e|] fs2]; cbn [fst snd];
      eexists _, _, _; (split; [reflexivity|]); auto; right; (split; [discriminate|reflexivity]).
  - eexists _, _, _. split; [reflexivity|]. right. split; [discriminate|reflexivity].
  - eexists _, _, _. split; [reflexivity|]. right. split; [discriminate|reflexivity].
Qed.

(** A round of the first loop that returns leaves [moves] as it is or
    appends one pair, whose destination is directly in the root and bears
    the name of the file or, in a mode other than ['skip'], a numbered
    variant of it. *)
Lemma move_one_dest root_path conflict_mode src fs res fs' res' :
  move_one root_path conflict_mode src (fs, res) = (Ok tt, (fs', res')) ->
  moves res' = moves res
  \/ exists dest,
       moves res' = moves res ++ [(str src, str dest)]
       /\ (dest = child root_path (name src)
           \/ (conflict_mode <> "skip"
               /\ exists k, 1 <= k
                    /\ dest = child root_path
                                (numbered (stem (name src)) k (suffix (name src))))).
Proof.
  unfold move_one, try_except, bind at 1, query. cbn [fst snd].
  destruct (exists_ fs (child root_path (name src))) eqn:Hc; cbn [andb].
  - destruct (String.eqb_spec conflict_mode "skip") as [Hmode|Hmode].
    { intros [= <- <-]. now left. }
    destruct (unique_destination_least fs root_path (name src) Hc)
      as (k & Hk & Hun & _).
    unfold bind at 1. cbn [fst]. rewrite Hun.
    destruct (move_tail_outcome src
                (child root_path (numbered (stem (name src)) k (suffix (name src)))) fs res)
      as (r & fs1 & res1 & Ht & Hr).
    rewrite Ht. destruct Hr as [[-> ->]|[Hr ->]].
    + intros [= <- <-]. right. eexists. split; [reflexivity|]. right. eauto.
    + destruct r as [[]|e|]; [congruence| |discriminate].
      destruct (is_OSError e); [|discriminate]. intros [= <- <-]. now left.
  - unfold bind at 1, ret.
    destruct (move_tail_outcome src (child root_path (name src)) fs res)
      as (r & fs1 & res1 & Ht & Hr).
    rewrite Ht. destruct Hr as [[-> ->]|[Hr ->]].
    + intros [= <- <-]. right. eexists. split; [reflexivity|]. now left.
    + destruct r as [[]|e|]; [congruence| |discriminate].
      destruct (is_OSError e); [|discriminate]. intros [= <- <-]. now left.
Qed.

Lemma move_loop_dest root_path conflict_mode files : forall fs res fs' res',
  for_ files (move_one root_path conflict_mode) (fs, res) = (Ok tt, (fs', res')) ->
  exists M,
    moves res' = moves res ++ M
    /\ forall s d, In (s, d) M ->
         exists src,
           In src files /\ s = str src
           /\ (d = str (child root_path (name src))
               \/ (conflict_mode <> "skip"
                   /\ exists k, 1 <= k
                        /\ d = str (child root_path
                                      (numbered (stem (name src)) k (suffix (name src)))))).
Proof.
  induction files as [|src files IH]; intros fs res fs' res'.
  - cbn. intros [= <- <-]. exists []. rewrite app_nil_r. split; [reflexivity|intros s d []].
  - cbn [for_]. unfold bind at 1.
    destruct (move_one root_path conflict_mode src (fs, res)) as [[[]|e|] [fs1 res1]] eqn:E1;
      try discriminate.
    intros E2. destruct (IH _ _ _ _ E2) as (M & HM & Hall).
    assert (Hrest : forall s d, In (s, d) M ->
              exists src0,
                In src0 (src :: files) /\ s = str src0
                /\ (d = str (child root_path (name src0))
                    \/ (conflict_mode <> "skip"
                        /\ exists k, 1 <= k
                             /\ d = str (child root_path
                                           (numbered (stem (name src0)) k
                                              (suffix (name src0))))))).
    { intros s d Hin. destruct (Hall s d Hin) as (src0 & Hin0 & Hrest).
      exists src0. split; [now right|exact Hrest]. }
    destruct (move_one_dest _ _ _ _ _ _ _ E1) as [Hsame|(dest & Happ & Hdest)].
    + exists M. rewrite HM, Hsame. split; [reflexivity|exact Hrest].
    + exists ((str src, str dest) :: M). rewrite HM, Happ, <- app_assoc.
      split; [reflexivity|]. intros s d [[= <- <-]|Hin]; [|now apply Hrest].
      exists src. split; [now left|]. split; [reflexivity|].
      destruct Hdest as [->|(Hmode & k & Hk & ->)]; [now left|right; eauto].
Qed.

(** X21. Every pair of [moves] in the report of [flatten_to_root] goes from a
    nested file that the walk collected to a path directly in the root,
    which bears the name of the file or, in a mode other than ['skip'],
    that name numbered. *)
Theorem flatten_to_root_moves root_path conflict_mode fs :
  exists res fs',
    flatten_to_root root_path conflict_mode fs = (Ok res, fs')
    /\ forall s d, In (s, d) (moves res) ->
         exists src,
           In src (filter (nested_file fs root_path) (rglob fs root_path))
           /\ s = str src
           /\ (d = str (child root_path (name src))
               \/ (conflict_mode <> "skip"
                   /\ exists k, 1 <= k
                        /\ d = str (child root_path
                                      (numbered (stem (name src)) k (suffix (name src)))))).
Proof.
  destruct (is_dir fs root_path) eqn:Hroot.
  2:{ rewrite flatten_to_root_invalid by exact Hroot.
      eexists _, _. split; [reflexivity|]. intros s d []. }
  unfold flatten_to_root.
  assert (Hex : exists_ fs root_path = true).
  { unfold is_dir in Hroot. unfold exists_. destruct (node_at fs root_path); [reflexivity|discriminate]. }
  rewrite Hex, Hroot. cbn [negb orb]. cbv zeta.
  unfold bind at 1. unfold move_phase, try_except, bind at 1, query. cbn [fst snd].
  destruct (move_loop_step root_path conflict_mode
              (filter (nested_file fs root_path) (rglob fs root_path)) fs
              (mkFlattenResult 0 0 0 [] []) Hroot)
    as (fs1 & res1 & H1 & Hflat1 & _).
  { intros src Hsrc. split; [now apply all_files_nested in Hsrc|].
    apply filter_In in Hsrc as [_ Hn]. unfold nested_file in Hn.
    apply andb_prop in Hn as [Hf _]. unfold is_file in Hf. unfold is_dir.
    destruct (node_at fs src) as [[c| |r w es]|]; try discriminate; reflexivity. }
  rewrite H1. destruct (move_loop_dest _ _ _ _ _ _ _ H1) as (M & HM & Hall).
  pose proof (flattening_root _ _ _ Hflat1) as Hroot1.
  unfold prune_phase, try_except, bind, query. cbn [fst snd].
  destruct (prune_loop_flat root_path
              (sorted parts_len true (filter (is_dir fs1) (rglob fs1 root_path))) fs1 res1 Hroot1)
    as (fs2 & res2 & -> & _ & _ & _ & Hmv2 & _).
  { intros d Hd. eapply Permutation_in in Hd; [|apply sorted_perm].
    apply filter_In in Hd as [Hd _]. apply rglob_extend in Hd as (t & Ht & ->).
    destruct t as [|a v]; [congruence|eauto]. }
  exists res2, fs2. split; [reflexivity|]. rewrite Hmv2, HM. exact Hall.
Qed.

(* ================================================================== *)
(** * The lookup of [os.stat] and the tree *)

(** On components without [..] the lookup finds what the tree holds at
    the end of the walk, and fails when the tree holds nothing there. *)
Lemma lookup_find shown t : forall p here,
  ~ In ".." p ->
  match find_node t (here ++ p) with
  | Some n => lookup shown t here p = Ok n
  | None => exists e, lookup shown t here p = Raise e
  end.
Proof.
  induction p as [|a p IH]; intros here Hdots; cbn [lookup].
  - rewrite app_nil_r. destruct (find_node t here); eauto.
  - assert (Ha : String.eqb a ".." = false).
    { apply String.eqb_neq. intros ->. apply Hdots. now left. }
    assert (Hp : ~ In ".." p) by (intros H; apply Hdots; now right).
    rewrite find_node_app.
    destruct (find_node t here) as [[c| |r w es]|] eqn:Hhere; cbn [find_node]; eauto.
    rewrite Ha. destruct (assoc a es) as [c|] eqn:Hassoc.
    + specialize (IH (here ++ [a]) Hp).
      rewrite <- app_assoc, find_node_app, Hhere in IH. cbn [app find_node] in IH.
      now rewrite Hassoc in IH.
    + destruct (NAME_MAX <? String.length a); eauto.
Qed.

Lemma abs_start fs p : abs fs p = (if anchored p then [] else cwd fs) ++ segs p.
Proof. unfold abs. now destruct (anchored p). Qed.

(** Where [os.stat] returns for a path without [..], it returns the node
    that the tree holds at the path. *)
Lemma os_stat_node_at fs p n :
  ~ In ".." (segs p) -> os_stat fs p = Ok n -> node_at fs p = Some n.
Proof.
  intros Hdots. unfold os_stat, node_at.
  destruct (has_nul (str p)); [discriminate|].
  destruct (PATH_MAX <=? String.length (str p)); [discriminate|].
  pose proof (lookup_find (str p) (tree fs) (segs p) (if anchored p then [] else cwd fs) Hdots)
    as H.
  rewrite <- abs_start in H. intros E.
  destruct (find_node (tree fs) (abs fs p)) as [m|].
  - congruence.
  - destruct H as [e H]. congruence.
Qed.

(** Where it fails with an error that [exists()] takes for an absence, on
    a path without [..] and without null byte, the tree holds nothing
    at the path. *)
Lemma os_stat_absent fs p e :
  ~ In ".." (segs p) -> has_nul (str p) = false ->
  os_stat fs p = Raise e -> ignored_error e = true -> node_at fs p = None.
Proof.
  intros Hdots Hnul. unfold os_stat, node_at. rewrite Hnul.
  destruct (PATH_MAX <=? String.length (str p)); [intros [= <-]; discriminate|].
  pose proof (lookup_find (str p) (tree fs) (segs p) (if anchored p then [] else cwd fs) Hdots)
    as H.
  rewrite <- abs_start in H. intros E _.
  destruct (find_node (tree fs) (abs fs p)) as [m|]; [congruence|reflexivity].
Qed.

(** The answers of [exists()] and [is_dir()] on a path without [..] and
    without null byte are the ones of the tree. *)
Lemma Path_exists_answer fs p b :
  ~ In ".." (segs p) -> has_nul (str p) = false ->
  Path_exists fs p = Ok b -> exists_ fs p = b.
Proof.
  intros Hdots Hnul. unfold Path_exists, exists_.
  destruct (os_stat fs p) as [n|e|] eqn:E; [| |discriminate].
  - intros [= <-]. now rewrite (os_stat_node_at fs p n Hdots E).
  - destruct (ignored_error e) eqn:He; [|discriminate]. intros [= <-].
    now rewrite (os_stat_absent fs p e Hdots Hnul E He).
Qed.

Lemma Path_is_dir_answer fs p b :
  ~ In ".." (segs p) -> has_nul (str p) = false ->
  Path_is_dir fs p = Ok b -> is_dir fs p = b.
Proof.
  intros Hdots Hnul. unfold Path_is_dir, is_dir.
  destruct (os_stat fs p) as [n|e|] eqn:E; [| |discriminate].
  - rewrite (os_stat_node_at fs p n Hdots E). now destruct n; intros [= <-].
  - destruct (ignored_error e) eqn:He; [|discriminate]. intros [= <-].
    now rewrite (os_stat_absent fs p e Hdots Hnul E He).
Qed.

(** X22. The interface passes the path that [validate_path] accepted to
    [count_files_root_only], [count_files_recursive] and
    [flatten_to_root].  An accepted path is the stripped text as [Path]
    parses it; when it has no component [..] it is a directory of the
    tree, so that the guard at the head of these operations lets it
    pass. *)
Theorem validated_path_is_directory fs path_str path :
  validate_path fs path_str = Ok (true, "", path) ->
  ~ In ".." (segs path) ->
  path = Path_of_string (strip path_str)
  /\ exists_ fs path = true /\ is_dir fs path = true.
Proof.
  intros Hv Hdots. unfold validate_path in Hv.
  destruct (is_empty_string path_str || is_empty_string (strip path_str)); [discriminate|].
  cbv zeta in Hv. unfold Path_exists, Path_is_dir in Hv.
  destruct (os_stat fs (Path_of_string (strip path_str))) as [n|e|] eqn:E; cbn in Hv.
  - destruct n as [c| |r w es]; cbn in Hv; try discriminate.
    injection Hv as <-. pose proof (os_stat_node_at _ _ _ Hdots E) as Hn.
    unfold exists_, is_dir. rewrite Hn. auto.
  - destruct (ignored_error e); discriminate.
  - discriminate.
Qed.

Lemma validated_path_is_directory_witness :
  mkPath false ["x"] = Path_of_string (strip " x ")
  /\ exists_ (mkFS (tree scenario_fs) ["R"]) (mkPath false ["x"]) = true
  /\ is_dir (mkFS (tree scenario_fs) ["R"]) (mkPath false ["x"]) = true.
Proof.
  apply (validated_path_is_directory (mkFS (tree scenario_fs) ["R"]) " x " (mkPath false ["x"])).
  - reflexivity.
  - cbn. intros [H|[]]. discriminate.
Defined.

(** X23. The guard at the head of the operations.  When [is_dir()]
    answers [False] for the root (a path without [..] and without null
    byte that names nothing or something that is not a directory), the
    scans return the empty list, the counts are zero, and
    [flatten_to_root] touches nothing and reports the single error
    ["Invalid root folder: ..."]. *)
Theorem not_a_directory_is_turned_away fs root_path conflict_mode :
  ~ In ".." (segs root_path) -> has_nul (str root_path) = false ->
  Path_is_dir fs root_path = Ok false ->
  scan_empty_folder_structure fs root_path = Ok []
  /\ scan_folder_structure fs root_path = []
  /\ count_files_recursive fs root_path = (0, [])
  /\ count_files_root_only fs root_path = 0
  /\ count_files_in_folder fs root_path = Ok (0, [])
  /\ flatten_to_root root_path conflict_mode fs
     = (Ok (mkFlattenResult 0 0 0 ["Invalid root folder: " +++ str root_path] []), fs).
Proof.
  intros Hdots Hnul Hd. apply Path_is_dir_answer in Hd; [|assumption..].
  assert (Hguard : negb (exists_ fs root_path) || negb (is_dir fs root_path) = true)
    by (rewrite Hd; apply Bool.orb_true_r).
  repeat split.
  - unfold scan_empty_folder_structure. cbn [scan_rec]. now rewrite Hguard.
  - unfold scan_folder_structure. now rewrite Hguard.
  - unfold count_files_recursive. now rewrite Hguard.
  - unfold count_files_root_only. now rewrite Hguard.
  - unfold count_files_in_folder. cbn [count_rec]. now rewrite Hguard.
  - unfold flatten_to_root. now rewrite Hguard.
Qed.

Lemma not_a_directory_is_turned_away_witness :
  scan_empty_folder_structure scenario_fs (mkPath true ["R"; "x"; "z"; "f.txt"]) = Ok []
  /\ scan_folder_structure scenario_fs (mkPath true ["R"; "x"; "z"; "f.txt"]) = []
  /\ count_files_recursive scenario_fs (mkPath true ["R"; "x"; "z"; "f.txt"]) = (0, [])
  /\ count_files_root_only scenario_fs (mkPath true ["R"; "x"; "z"; "f.txt"]) = 0
  /\ count_files_in_folder scenario_fs (mkPath true ["R"; "x"; "z"; "f.txt"]) = Ok (0, [])
  /\ flatten_to_root (mkPath true ["R"; "x"; "z"; "f.txt"]) "rename" scenario_fs
     = (Ok (mkFlattenResult 0 0 0
              ["Invalid root folder: " +++ str (mkPath true ["R"; "x"; "z"; "f.txt"])] []),
        scenario_fs).
Proof.
  apply (not_a_directory_is_turned_away scenario_fs (mkPath true ["R"; "x"; "z"; "f.txt"])
           "rename").
  - cbn. intros [H|[H|[H|[H|[]]]]]; discriminate.
  - reflexivity.
  - reflexivity.
Defined.
